(** * etc_meisai_scraper: job store, orchestrator, credential parsing,
      log buffer and RPC facade

    Shallow embedding of [src/services/download_service.go], of the two
    copies of the gRPC facade ([src/services/download_service_grpc.go] and
    the later copy that adds the log buffer) and of the server of
    [src/grpc/server.go], with the properties of the design document and
    further properties of the code stated over it.

    Go strings are byte strings: they are modelled by [string] (a list of
    8-bit [ascii]).  Go [int] values that appear here (progress, lengths,
    tail counts) stay far inside 64 bits and are modelled by [Z]. *)

From Stdlib Require Import ZArith Lia ZifyBool Bool List Sorted Ascii String.
From Stdlib Require Import SpecFloat QArith Qpower Lqa Qround.
From stdpp Require Import base option list strings pretty gmap.

Local Open Scope string_scope.
Local Open Scope Z_scope.

(* ===================================================================== *)
(** * The parts of Go's [strings] package the services use *)
(* ===================================================================== *)
Module GoStrings.

Definition byte_of (c : ascii) : N := N_of_ascii c.

(** [strings.Split(s, sep)] for a one-byte separator: the pieces between
    the separators, in order; never empty ([Split("", ",")] is [[""]]). *)
Fixpoint Split (s : string) (sep : ascii) : list string :=
  match s with
  | EmptyString => [EmptyString]
  | String c rest =>
      if Ascii.eqb c sep then EmptyString :: Split rest sep
      else match Split rest sep with
           | piece :: pieces => String c piece :: pieces
           | [] => [String c EmptyString]
           end
  end.

(** [strings.Join(elems, sep)]. *)
Fixpoint Join (elems : list string) (sep : string) : string :=
  match elems with
  | [] => EmptyString
  | [e] => e
  | e :: rest => e ++ sep ++ Join rest sep
  end.

(** [strings.HasPrefix]. *)
Definition HasPrefix (s p : string) : bool := String.prefix p s.

Fixpoint dropBytes (n : nat) (s : string) : string :=
  match n, s with
  | O, _ => s
  | S n', String _ rest => dropBytes n' rest
  | S _, EmptyString => EmptyString
  end.

Definition inRange (lo hi x : N) : bool := ((lo <=? x) && (x <=? hi))%N.

(** The six ASCII white-space bytes of [asciiSpace]:
    tab, line feed, vertical tab, form feed, carriage return, space. *)
Definition asciiSpace (c : ascii) : bool :=
  let x := byte_of c in (inRange 9 13 x || (x =? 32))%N.

(** Width in bytes of the white-space rune ([unicode.IsSpace]) whose UTF-8
    encoding starts [s]; [0] when [s] does not start with one.  Beyond
    ASCII the white-space runes are U+0085, U+00A0, U+1680,
    U+2000..U+200A, U+2028, U+2029, U+202F, U+205F and U+3000. *)
Definition spaceWidth (s : string) : nat :=
  match s with
  | EmptyString => 0
  | String c1 r1 =>
      if asciiSpace c1 then 1
      else match r1 with
           | EmptyString => 0
           | String c2 r2 =>
               let b1 := byte_of c1 in
               let b2 := byte_of c2 in
               if ((b1 =? 194) && ((b2 =? 133) || (b2 =? 160)))%N then 2
               else match r2 with
                    | EmptyString => 0
                    | String c3 _ =>
                        let b3 := byte_of c3 in
                        if ((b1 =? 225) && (b2 =? 154) && (b3 =? 128))%N then 3
                        else if ((b1 =? 226) && (b2 =? 128)
                                 && (inRange 128 138 b3 || (b3 =? 168)
                                     || (b3 =? 169) || (b3 =? 175)))%N then 3
                        else if ((b1 =? 226) && (b2 =? 129) && (b3 =? 159))%N then 3
                        else if ((b1 =? 227) && (b2 =? 128) && (b3 =? 128))%N then 3
                        else 0
                    end
           end
  end%nat.

(** The same test on the reversed string: width of the white-space rune
    that ends the original string (what [DecodeLastRuneInString] finds). *)
Definition spaceWidthRev (s : string) : nat :=
  match s with
  | EmptyString => 0
  | String c1 r1 =>
      if asciiSpace c1 then 1
      else match r1 with
           | EmptyString => 0
           | String c2 r2 =>
               if (spaceWidth (String c2 (String c1 EmptyString)) =? 2)%nat then 2
               else match r2 with
                    | EmptyString => 0
                    | String c3 _ =>
                        if (spaceWidth (String c3 (String c2 (String c1 EmptyString)))
                            =? 3)%nat then 3 else 0
                    end
           end
  end%nat.

Fixpoint trimWith (width : string -> nat) (fuel : nat) (s : string) : string :=
  match fuel with
  | O => s
  | S fuel' =>
      match width s with
      | O => s
      | w => trimWith width fuel' (dropBytes w s)
      end
  end.

Definition TrimLeftSpace (s : string) : string :=
  trimWith spaceWidth (String.length s) s.

Definition TrimRightSpace (s : string) : string :=
  String.rev (trimWith spaceWidthRev (String.length s) (String.rev s)).

(** [strings.TrimSpace]: leading, then trailing white-space runes go. *)
Definition TrimSpace (s : string) : string :=
  TrimRightSpace (TrimLeftSpace s).

End GoStrings.

Import GoStrings.

Example Split_commas : Split "u1:p1,u2:p2" "," = ["u1:p1"; "u2:p2"].
Proof. reflexivity. Qed.

Example Split_empty : Split "" "," = [""].
Proof. reflexivity. Qed.

Example Split_colons : Split "id:pa:ss" ":" = ["id"; "pa"; "ss"].
Proof. reflexivity. Qed.

Example TrimSpace_both :
  TrimSpace (String "009" (String "032" ("[a]" ++ String "010" EmptyString))) = "[a]".
Proof. reflexivity. Qed.

(* ===================================================================== *)
(** * [encoding/json]: decoding a JSON text into a [[]string] *)
(* ===================================================================== *)
Module Json.

Definition replacementChar : string :=
  String (ascii_of_N 239) (String (ascii_of_N 191) (String (ascii_of_N 189) "")).

(** [utf8.EncodeRune]. *)
Definition EncodeRune (r : N) : string :=
  let cont (x : N) := ascii_of_N (128 + N.land x 63) in
  if (r <? 128)%N then String (ascii_of_N r) ""
  else if (r <? 2048)%N then
    String (ascii_of_N (192 + N.shiftr r 6)) (String (cont r) "")
  else if (inRange 55296 57343 r || (1114111 <? r))%N then replacementChar
  else if (r <? 65536)%N then
    String (ascii_of_N (224 + N.shiftr r 12))
      (String (cont (N.shiftr r 6)) (String (cont r) ""))
  else
    String (ascii_of_N (240 + N.shiftr r 18))
      (String (cont (N.shiftr r 12))
         (String (cont (N.shiftr r 6)) (String (cont r) ""))).

(** Width of the well-formed UTF-8 sequence that starts [s], following the
    table of [utf8.DecodeRune]; [0] when the bytes are not well formed
    (Go then yields [RuneError] with width 1). *)
Definition utf8Width (s : string) : nat :=
  match s with
  | EmptyString => 0%nat
  | String c1 r1 =>
      let b1 := byte_of c1 in
      if (b1 <? 128)%N then 1%nat
      else if inRange 194 223 b1 then
        match r1 with
        | String c2 _ => if inRange 128 191 (byte_of c2) then 2%nat else 0%nat
        | _ => 0%nat
        end
      else if inRange 224 239 b1 then
        let lo := if (b1 =? 224)%N then 160%N else 128%N in
        let hi := if (b1 =? 237)%N then 159%N else 191%N in
        match r1 with
        | String c2 (String c3 _) =>
            if inRange lo hi (byte_of c2) && inRange 128 191 (byte_of c3)
            then 3%nat else 0%nat
        | _ => 0%nat
        end
      else if inRange 240 244 b1 then
        let lo := if (b1 =? 240)%N then 144%N else 128%N in
        let hi := if (b1 =? 244)%N then 143%N else 191%N in
        match r1 with
        | String c2 (String c3 (String c4 _)) =>
            if inRange lo hi (byte_of c2) && inRange 128 191 (byte_of c3)
               && inRange 128 191 (byte_of c4)
            then 4%nat else 0%nat
        | _ => 0%nat
        end
      else 0%nat
  end.

Definition hexVal (c : ascii) : option N :=
  let b := byte_of c in
  if inRange 48 57 b then Some (b - 48)%N
  else if inRange 97 102 b then Some (b - 87)%N
  else if inRange 65 70 b then Some (b - 55)%N
  else None.

(** [getu4]: the code unit of a leading [\uXXXX] escape. *)
Definition getu4 (s : string) : option N :=
  match s with
  | String "\" (String "u" (String a (String b (String c (String d _))))) =>
      match hexVal a, hexVal b, hexVal c, hexVal d with
      | Some x, Some y, Some z, Some w => Some (((x * 16 + y) * 16 + z) * 16 + w)%N
      | _, _, _, _ => None
      end
  | _ => None
  end.

(** The one-letter escapes of a JSON string. *)
Definition simpleEscape (e : ascii) : option ascii :=
  let b := byte_of e in
  if ((b =? 34) || (b =? 92) || (b =? 47))%N then Some e
  else if (b =? 98)%N then Some (ascii_of_N 8)
  else if (b =? 102)%N then Some (ascii_of_N 12)
  else if (b =? 110)%N then Some (ascii_of_N 10)
  else if (b =? 114)%N then Some (ascii_of_N 13)
  else if (b =? 116)%N then Some (ascii_of_N 9)
  else None.

Definition prepend (p : string) (r : option (string * string))
  : option (string * string) :=
  match r with
  | Some (v, rest) => Some (p ++ v, rest)
  | None => None
  end.

Fixpoint takeBytes (n : nat) (s : string) : string :=
  match n, s with
  | S n', String c rest => String c (takeBytes n' rest)
  | _, _ => EmptyString
  end.

(** The body of a string literal, after its opening quote: the decoded
    contents and the input left after the closing quote.  Scanning and
    unquoting are done in one pass: control bytes and malformed escapes
    are syntax errors, ill-formed UTF-8 and lone surrogates decode to
    U+FFFD. *)
Fixpoint unquoteBody (fuel : nat) (s : string) : option (string * string) :=
  match fuel with
  | O => None
  | S fuel' =>
      match s with
      | EmptyString => None
      | String c rest =>
          let b := byte_of c in
          if (b =? 34)%N then Some (EmptyString, rest)
          else if (b =? 92)%N then
            match rest with
            | EmptyString => None
            | String e rest' =>
                match simpleEscape e with
                | Some ch => prepend (String ch "") (unquoteBody fuel' rest')
                | None =>
                    match getu4 s with
                    | None => None
                    | Some rr =>
                        if inRange 55296 57343 rr then
                          match getu4 (dropBytes 6 s) with
                          | Some rr1 =>
                              if inRange 55296 56319 rr && inRange 56320 57343 rr1
                              then prepend
                                     (EncodeRune (65536 + (rr - 55296) * 1024
                                                  + (rr1 - 56320))%N)
                                     (unquoteBody fuel' (dropBytes 12 s))
                              else prepend replacementChar
                                     (unquoteBody fuel' (dropBytes 6 s))
                          | None => prepend replacementChar
                                      (unquoteBody fuel' (dropBytes 6 s))
                          end
                        else prepend (EncodeRune rr) (unquoteBody fuel' (dropBytes 6 s))
                    end
                end
            end
          else if (b <? 32)%N then None
          else if (b <? 128)%N then prepend (String c "") (unquoteBody fuel' rest)
          else match utf8Width s with
               | O => prepend replacementChar (unquoteBody fuel' rest)
               | w => prepend (takeBytes w s) (unquoteBody fuel' (dropBytes w s))
               end
      end
  end.

(** JSON white space: space, tab, line feed, carriage return. *)
Definition isJsonSpace (c : ascii) : bool :=
  let b := byte_of c in ((b =? 32) || (b =? 9) || (b =? 10) || (b =? 13))%N.

Fixpoint skipWS (s : string) : string :=
  match s with
  | String c rest => if isJsonSpace c then skipWS rest else s
  | EmptyString => s
  end.

(** One array element that a [string] can take: a string literal, or
    [null], which leaves the element at its zero value [""].  Every other
    JSON value is a type error for a [[]string] target. *)
Definition parseElement (s : string) : option (string * string) :=
  match s with
  | String "034" rest => unquoteBody (String.length s) rest
  | String "n" (String "u" (String "l" (String "l" rest))) => Some (EmptyString, rest)
  | _ => None
  end.

Fixpoint parseElements (fuel : nat) (s : string) : option (list string * string) :=
  match fuel with
  | O => None
  | S fuel' =>
      match parseElement s with
      | None => None
      | Some (v, rest) =>
          match skipWS rest with
          | String "," rest' =>
              match parseElements fuel' (skipWS rest') with
              | Some (vs, r) => Some (v :: vs, r)
              | None => None
              end
          | String "]" rest' => Some ([v], rest')
          | _ => None
          end
      end
  end.

Definition onlySpaceLeft (s : string) : bool :=
  match skipWS s with EmptyString => true | _ => false end.

(** [json.Unmarshal(data, &v)] for [v] of type [[]string]: [Some] of the
    decoded slice when it returns a nil error, [None] when it returns an
    error (a syntax error anywhere in [data], or a value that is not an
    array of strings and nulls). *)
Definition Unmarshal (data : string) : option (list string) :=
  match skipWS data with
  | String "[" rest =>
      match skipWS rest with
      | String "]" rest' => if onlySpaceLeft rest' then Some [] else None
      | s => match parseElements (String.length s) s with
             | Some (vs, r) => if onlySpaceLeft r then Some vs else None
             | None => None
             end
      end
  | String "n" (String "u" (String "l" (String "l" rest))) =>
      if onlySpaceLeft rest then Some [] else None
  | _ => None
  end.

End Json.

(** A one-byte string holding the double quote. *)
Definition dq : string := String "034" EmptyString.

Example Unmarshal_two :
  Json.Unmarshal ("[" ++ dq ++ "u1:p1" ++ dq ++ "," ++ dq ++ "u2:p2" ++ dq ++ "]")
  = Some ["u1:p1"; "u2:p2"].
Proof. reflexivity. Qed.

Example Unmarshal_null_and_escape :
  Json.Unmarshal ("[ null , " ++ dq ++ "aA\n" ++ dq ++ " ]")
  = Some [EmptyString; "aA" ++ String "010" EmptyString].
Proof. reflexivity. Qed.

Example Unmarshal_number_rejected : Json.Unmarshal "[1]" = None.
Proof. reflexivity. Qed.

Example Unmarshal_malformed : Json.Unmarshal "[not json" = None.
Proof. reflexivity. Qed.

(* ===================================================================== *)
(** * [strconv.ParseBool] *)
(* ===================================================================== *)
Module Strconv.

(** [Some b] for the accepted spellings, [None] for the syntax error. *)
Definition ParseBool (str : string) : option bool :=
  if (String.eqb str "1" || String.eqb str "t" || String.eqb str "T"
      || String.eqb str "TRUE" || String.eqb str "true" || String.eqb str "True")%bool
  then Some true
  else if (String.eqb str "0" || String.eqb str "f" || String.eqb str "F"
           || String.eqb str "FALSE" || String.eqb str "false"
           || String.eqb str "False")%bool
  then Some false
  else None.

End Strconv.

(* ===================================================================== *)
(** * [float64] arithmetic, as IEEE 754 binary64 *)
(* ===================================================================== *)
Module Float64.

Definition prec : Z := 53.
Definition emax : Z := 1024.

(** [float64(n)] for an [int] [n]: the nearest binary64 value. *)
Definition ofInt (n : Z) : spec_float := binary_normalize prec emax n 0 false.

Definition div : spec_float -> spec_float -> spec_float := SFdiv prec emax.
Definition mul : spec_float -> spec_float -> spec_float := SFmul prec emax.

(** [int(f)]: truncation toward zero.  For NaN and the infinities the Go
    specification leaves the result to the implementation; amd64 yields
    the least [int64]. *)
Definition toInt (f : spec_float) : Z :=
  match f with
  | S754_zero _ => 0
  | S754_finite s m e =>
      let a := if 0 <=? e then Z.shiftl (Zpos m) e else Z.shiftr (Zpos m) (- e) in
      if s then - a else a
  | _ => - 2 ^ 63
  end.

End Float64.

(* ===================================================================== *)
(** * [services.DownloadService]: job store and orchestrator *)
(* ===================================================================== *)
Module Services.

(** [time.Time], as a count of clock ticks. *)
Definition Time : Type := Z.

(** [os.Getenv]: an unset variable reads as the empty string. *)
Definition Env : Type := string -> string.

Record DownloadJob : Type := mkDownloadJob {
  ID : string;
  Status : string;
  Progress : Z;
  TotalRecords : Z;
  ErrorMessage : string;
  StartedAt : Time;
  CompletedAt : option Time
}.

Definition nonEmpty (s : string) : bool := negb (String.eqb s EmptyString).

(** [parseAccountsString]: a JSON array or a comma-separated string. *)
Definition parseAccountsString (accountsStr : string) : list string :=
  if String.eqb accountsStr EmptyString then []
  else if HasPrefix (TrimSpace accountsStr) "[" then
    match Json.Unmarshal accountsStr with
    | Some jsonAccounts => jsonAccounts
    | None => Split accountsStr ","
    end
  else Split accountsStr ",".

Definition GetAllAccountsWithCredentials (env : Env) : list string :=
  let corpAccounts := env "ETC_CORP_ACCOUNTS" in
  if nonEmpty corpAccounts then parseAccountsString corpAccounts
  else
    let corporateAccounts := env "ETC_CORPORATE_ACCOUNTS" in
    let personalAccounts := env "ETC_PERSONAL_ACCOUNTS" in
    (if nonEmpty corporateAccounts then parseAccountsString corporateAccounts else [])
    ++ (if nonEmpty personalAccounts then parseAccountsString personalAccounts else []).

Definition GetAllAccountIDs (env : Env) : list string :=
  flat_map (fun accountStr =>
              match Split (TrimSpace accountStr) ":" with
              | part0 :: _ => [part0]
              | [] => []
              end)
           (GetAllAccountsWithCredentials env).

(** [GetHeadlessMode]; the lines it writes to the global logger are left
    out. *)
Definition GetHeadlessMode (env : Env) : bool :=
  let headlessEnv := env "ETC_HEADLESS" in
  if String.eqb headlessEnv EmptyString then true
  else match Strconv.ParseBool headlessEnv with
       | None => true
       | Some headless => headless
       end.

Definition getHeadlessMode (env : Env) : bool := GetHeadlessMode env.

(** ** The job store *)

Definition isTerminal (status : string) : bool :=
  (String.eqb status "completed" || String.eqb status "failed")%bool.

Definition withProgress (job : DownloadJob) (progress : Z) : DownloadJob :=
  mkDownloadJob (ID job) (Status job) progress (TotalRecords job)
                (ErrorMessage job) (StartedAt job) (CompletedAt job).

(** The registration at the head of [ProcessAsync]. *)
Definition registerJob (jobs : gmap string DownloadJob) (jobID : string) (now : Time)
  : gmap string DownloadJob :=
  <[jobID := mkDownloadJob jobID "processing" 0 0 EmptyString now None]> jobs.

Definition updateJobProgress (jobs : gmap string DownloadJob)
           (jobID : string) (progress : Z) : gmap string DownloadJob :=
  match jobs !! jobID with
  | Some job => <[jobID := withProgress job progress]> jobs
  | None => jobs
  end.

Definition updateJobStatus (jobs : gmap string DownloadJob)
           (jobID status : string) (progress : Z) (errorMsg : string) (now : Time)
  : gmap string DownloadJob :=
  match jobs !! jobID with
  | Some job =>
      <[jobID := mkDownloadJob (ID job) status progress (TotalRecords job)
                   (if nonEmpty errorMsg then errorMsg else ErrorMessage job)
                   (StartedAt job)
                   (if isTerminal status then Some now else CompletedAt job)]> jobs
  | None => jobs
  end.

(** The completion write at the end of the asynchronous unit. *)
Definition completeJob (jobs : gmap string DownloadJob) (jobID : string) (now : Time)
  : gmap string DownloadJob :=
  match jobs !! jobID with
  | Some job =>
      <[jobID := mkDownloadJob (ID job) "completed" 100 (TotalRecords job)
                   (ErrorMessage job) (StartedAt job) (Some now)]> jobs
  | None => jobs
  end.

(** [GetJobStatus]: a copy of the record, or not found. *)
Definition GetJobStatus (jobs : gmap string DownloadJob) (jobID : string)
  : option DownloadJob := jobs !! jobID.

(** ** The retrieval capability (package [scraper], outside this code) *)

(** What a call into foreign code can do: return, return an error, or
    panic.  Errors and panic values are kept as their printed text. *)
Inductive outcome (A : Type) : Type :=
| Returns (a : A)
| Errors (err : string)
| Panics (v : string).
Arguments Returns {A} a.
Arguments Errors {A} err.
Arguments Panics {A} v.

Record ScraperConfig : Type := mkScraperConfig {
  UserID : string;
  Password : string;
  DownloadPath : string;
  SessionFolder : string;
  Headless : bool;
  Timeout : Z;
  RetryCount : Z
}.

Record ETCScraper : Type := mkETCScraper {
  Initialize : outcome unit;
  Login : outcome unit;
  DownloadMeisai : string -> string -> outcome string;
  Close : outcome unit
}.

Definition ScraperFactory : Type := ScraperConfig -> outcome ETCScraper.

(** [defer etcScraper.Close()]: the value [Close] returns is dropped; a
    panic inside it takes over from whatever the body did. *)
Definition deferClose {A : Type} (closing : outcome unit) (body : outcome A)
  : outcome A :=
  match closing with
  | Panics v => Panics v
  | _ => body
  end.

(** The progress of account [i] of [totalAccounts]:
    [int(float64(i+1) / float64(totalAccounts) * 100)]. *)
Definition progressOf (i totalAccounts : Z) : Z :=
  Float64.toInt
    (Float64.mul (Float64.div (Float64.ofInt (i + 1)) (Float64.ofInt totalAccounts))
                 (Float64.ofInt 100)).

End Services.

Import Services.
Arguments Returns {A} a.
Arguments Errors {A} err.
Arguments Panics {A} v.

Example progressOf_half : progressOf 0 2 = 50.
Proof. vm_compute. reflexivity. Qed.

Example progressOf_third : progressOf 0 3 = 33.
Proof. vm_compute. reflexivity. Qed.

(** The binary64 product falls just below 29: the progress reported for
    account 29 of 100 is 28. *)
Example progressOf_29_of_100 : progressOf 28 100 = 28.
Proof. vm_compute. reflexivity. Qed.

Example progressOf_last : progressOf 6 7 = 100.
Proof. vm_compute. reflexivity. Qed.

(** ** The orchestrator *)
Module Orchestrator.

(** What the service holds: the job map, the lines handed to
    [logMessage] (they reach the logger and the log callback), and the
    lines written to the logger alone. *)
Record ServiceState : Type := mkServiceState {
  jobs : gmap string DownloadJob;
  logged : list string;
  loggerOnly : list string
}.

Definition NewDownloadService : ServiceState := mkServiceState ∅ [] [].

(** The steps of [ProcessAsync] and of its asynchronous unit.  Each store
    step runs under [jobMutex], so a status query sees the store between
    two steps, never inside one. *)
Inductive Action : Type :=
| ActRegister (jobID : string) (now : Time)
| ActLog (msg : string)
| ActLoggerPrintf (msg : string)
| ActProgress (jobID : string) (progress : Z)
| ActStatus (jobID status : string) (progress : Z) (errorMsg : string) (now : Time)
| ActComplete (jobID : string) (now : Time)
| ActSleep.

Definition perform (st : ServiceState) (a : Action) : ServiceState :=
  match a with
  | ActRegister jobID now =>
      mkServiceState (registerJob (jobs st) jobID now) (logged st) (loggerOnly st)
  | ActLog msg => mkServiceState (jobs st) (logged st ++ [msg]) (loggerOnly st)
  | ActLoggerPrintf msg => mkServiceState (jobs st) (logged st) (loggerOnly st ++ [msg])
  | ActProgress jobID progress =>
      mkServiceState (updateJobProgress (jobs st) jobID progress)
                     (logged st) (loggerOnly st)
  | ActStatus jobID status progress errorMsg now =>
      mkServiceState (updateJobStatus (jobs st) jobID status progress errorMsg now)
                     (logged st) (loggerOnly st)
  | ActComplete jobID now =>
      mkServiceState (completeJob (jobs st) jobID now) (logged st) (loggerOnly st)
  | ActSleep => st
  end.

Definition run (acts : list Action) (st : ServiceState) : ServiceState :=
  fold_left perform acts st.

(** The states a poller can see while [acts] run: the one before, then the
    one after each step. *)
Fixpoint trace (acts : list Action) (st : ServiceState) : list ServiceState :=
  match acts with
  | [] => [st]
  | a :: rest => st :: trace rest (perform st a)
  end.

Section WithCollaborators.
Variable env : Env.
Variable factory : ScraperFactory.

(** The head of [downloadAccountData]: the account string is split on
    colons; fewer than two parts is an error, otherwise the first two
    parts are the credentials of the scraper configuration. *)
Definition accountConfig (accountID sessionFolder : string)
  : string + ScraperConfig :=
  match Split accountID ":" with
  | userID :: password :: _ =>
      inr (mkScraperConfig userID password "./downloads" sessionFolder
                           (getHeadlessMode env) 30000 3)
  | _ => inl ("invalid account format: " ++ accountID
              ++ " (expected accountID:password)")
  end.

(** The rest of [downloadAccountData]: create, initialise, log in,
    download; the lines logged and how the call ends. *)
Definition runScraper (config : ScraperConfig) (fromDate toDate : string)
  : list string * outcome unit :=
  let userID := UserID config in
  match factory config with
  | Errors err => ([], Errors ("failed to create scraper: " ++ err))
  | Panics v => ([], Panics v)
  | Returns etcScraper =>
      let closing := Close etcScraper in
      match Initialize etcScraper with
      | Errors err =>
          ([], deferClose closing (Errors ("failed to initialize scraper: " ++ err)))
      | Panics v => ([], deferClose closing (Panics v))
      | Returns _ =>
          match Login etcScraper with
          | Errors err =>
              ([], deferClose closing
                     (Errors ("login failed for account " ++ userID ++ ": " ++ err)))
          | Panics v => ([], deferClose closing (Panics v))
          | Returns _ =>
              match DownloadMeisai etcScraper fromDate toDate with
              | Errors err =>
                  ([], deferClose closing
                         (Errors ("download failed for account " ++ userID
                                  ++ ": " ++ err)))
              | Panics v => ([], deferClose closing (Panics v))
              | Returns csvPath =>
                  (["Successfully downloaded data for account " ++ userID
                    ++ ": " ++ csvPath],
                   deferClose closing (Returns tt))
              end
          end
      end
  end.

Definition downloadAccountData (accountID fromDate toDate sessionFolder : string)
  : list string * outcome unit :=
  match accountConfig accountID sessionFolder with
  | inl err => ([], Errors err)
  | inr config => runScraper config fromDate toDate
  end.

(** One turn of the account loop: the steps taken, and the panic value
    when the turn panics. *)
Definition loopBody (jobID fromDate toDate sessionFolder : string)
           (totalAccounts : Z) (i : Z) (account : string)
  : list Action * option string :=
  let progress := progressOf i totalAccounts in
  let '(lines, result) := downloadAccountData account fromDate toDate sessionFolder in
  let steps := ActProgress jobID progress :: map ActLog lines in
  match result with
  | Returns _ => ((steps ++ [ActSleep])%list, None)
  | Errors err =>
      ((steps ++ [ActLog ("Error downloading data for account " ++ account
                          ++ ": " ++ err); ActSleep])%list, None)
  | Panics v => (steps, Some v)
  end.

Fixpoint accountLoop (jobID fromDate toDate sessionFolder : string)
         (totalAccounts : Z) (i : Z) (accounts : list string)
  : list Action * option string :=
  match accounts with
  | [] => ([], None)
  | account :: rest =>
      match loopBody jobID fromDate toDate sessionFolder totalAccounts i account with
      | (steps, Some v) => (steps, Some v)
      | (steps, None) =>
          let '(steps', p) :=
            accountLoop jobID fromDate toDate sessionFolder totalAccounts (i + 1) rest in
          ((steps ++ steps')%list, p)
      end
  end.

(** The asynchronous unit of [ProcessAsync], with its deferred recovery:
    [sessionFolder] is the folder named after the start time and [tEnd]
    the clock reading of whichever terminal write happens. *)
Definition asyncUnit (jobID : string) (accounts : list string)
           (fromDate toDate sessionFolder : string) (tEnd : Time) : list Action :=
  let totalAccounts := Z.of_nat (length accounts) in
  let '(steps, p) :=
    accountLoop jobID fromDate toDate sessionFolder totalAccounts 0 accounts in
  ActLog ("Starting download job " ++ jobID ++ " for " ++ pretty totalAccounts
          ++ " accounts from " ++ fromDate ++ " to " ++ toDate)
  :: (steps
      ++ match p with
         | None =>
             [ActComplete jobID tEnd; ActLog ("Completed download job " ++ jobID)]
         | Some v =>
             [ActLoggerPrintf ("Panic in download job " ++ jobID ++ ": " ++ v);
              ActStatus jobID "failed" 0 ("Internal error: " ++ v) tEnd]
         end)%list.

(** [ProcessAsync]: the registration, then the asynchronous unit. *)
Definition ProcessAsync (jobID : string) (accounts : list string)
           (fromDate toDate : string) (tStart : Time)
           (sessionFolder : string) (tEnd : Time) : list Action :=
  ActRegister jobID tStart
  :: asyncUnit jobID accounts fromDate toDate sessionFolder tEnd.

End WithCollaborators.

End Orchestrator.

Import Orchestrator.

(* ===================================================================== *)
(** * [services.DownloadServiceGRPC]: the RPC facade and its log buffer *)
(* ===================================================================== *)

(** The messages of package [pb] that the facade reads and builds. *)
Module Pb.

Record DownloadRequest : Type := mkDownloadRequest {
  Accounts : list string;
  FromDate : string;
  ToDate : string
}.

Record DownloadJobResponse : Type := mkDownloadJobResponse {
  JobId : string;
  Status : string;
  Message : string
}.

Record JobStatus : Type := mkJobStatus {
  StatusJobId : string;
  StatusStatus : string;
  StatusProgress : Z;
  StatusTotalRecords : Z;
  StatusErrorMessage : string;
  StatusStartedAt : Time;
  StatusCompletedAt : option Time
}.

End Pb.

Module Facade.

(** ** The log ring buffer *)

Record LogBuffer : Type := mkLogBuffer {
  lines : list string;
  maxLines : Z
}.

(** [NewLogBuffer]: [make([]string, 0, maxLines)] panics on a negative
    capacity, which is [None] here. *)
Definition NewLogBuffer (maxLines : Z) : option LogBuffer :=
  if maxLines <? 0 then None else Some (mkLogBuffer [] maxLines).

Definition Add (lb : LogBuffer) (line : string) : LogBuffer :=
  let appended := (lines lb ++ [line])%list in
  if Z.of_nat (length appended) >? maxLines lb
  then mkLogBuffer (drop 1 appended) (maxLines lb)
  else mkLogBuffer appended (maxLines lb).

(** [copy(result, src)] into a fresh [make([]string, n)]: the first [n]
    elements of [src], the rest left at the empty string. *)
Definition copyInto (n : nat) (src : list string) : list string :=
  (take n src ++ replicate (n - length src) EmptyString)%list.

Definition GetTail (lb : LogBuffer) (n : Z) : list string :=
  let len := Z.of_nat (length (lines lb)) in
  let n := if ((n <=? 0) || (n >? len))%bool then len else n in
  let start := len - n in
  let start := if start <? 0 then 0 else start in
  copyInto (Z.to_nat n) (drop (Z.to_nat start) (lines lb)).

Definition GetAll (lb : LogBuffer) : list string :=
  copyInto (length (lines lb)) (lines lb).

(** ** The facade *)

(** [maskAccountString] (the same text in both copies of the facade). *)
Definition maskAccountString (accountStr : string) : string :=
  if String.eqb accountStr EmptyString then EmptyString
  else
    Join (map (fun account =>
                 match Split account ":" with
                 | part0 :: _ :: _ => part0 ++ ":*******"
                 | _ => account
                 end)
              (Split accountStr ","))
         ",".

(** The arguments of one call of [ProcessAsync]. *)
Record ProcessAsyncCall : Type := mkProcessAsyncCall {
  callJobID : string;
  callAccounts : list string;
  callFromDate : string;
  callToDate : string
}.

Definition toInt32 (x : Z) : Z := (x + 2 ^ 31) mod 2 ^ 32 - 2 ^ 31.

Section WithClock.
(** [t.Format("2006-01-02")] and [t.AddDate(0, -1, 0)] of package [time]. *)
Variable formatDate : Time -> string.
Variable oneMonthBefore : Time -> Time.

Definition setDefaultDates (now : Time) (fromDate toDate : string)
  : string * string :=
  let toDate := if String.eqb toDate EmptyString then formatDate now else toDate in
  let fromDate :=
    if String.eqb fromDate EmptyString then formatDate (oneMonthBefore now)
    else fromDate in
  (fromDate, toDate).

(** [DownloadAsync] of the copy of the facade that has the log buffer:
    the default accounts are [GetAllAccountsWithCredentials()].
    [uuid] is the text of [uuid.New()].  The result is the response and
    the call of [ProcessAsync], if one is made. *)
Definition DownloadAsync (env : Env) (req : Pb.DownloadRequest)
           (now : Time) (uuid : string)
  : Pb.DownloadJobResponse * option ProcessAsyncCall :=
  let '(fromDate, toDate) := setDefaultDates now (Pb.FromDate req) (Pb.ToDate req) in
  let start (accounts : list string) :=
    let jobID := uuid in
    (Pb.mkDownloadJobResponse jobID "pending" "Download job started",
     Some (mkProcessAsyncCall jobID accounts fromDate toDate)) in
  let accounts := Pb.Accounts req in
  if (length accounts =? 0)%nat then
    let accounts := GetAllAccountsWithCredentials env in
    if (length accounts =? 0)%nat then
      (Pb.mkDownloadJobResponse EmptyString "failed" "No accounts configured", None)
    else start accounts
  else start accounts.

(** [DownloadAsync] of [download_service_grpc.go]: the same, but the
    default accounts are [GetAllAccountIDs()]. *)
Definition DownloadAsync_grpc (env : Env) (req : Pb.DownloadRequest)
           (now : Time) (uuid : string)
  : Pb.DownloadJobResponse * option ProcessAsyncCall :=
  let '(fromDate, toDate) := setDefaultDates now (Pb.FromDate req) (Pb.ToDate req) in
  let start (accounts : list string) :=
    let jobID := uuid in
    (Pb.mkDownloadJobResponse jobID "pending" "Download job started",
     Some (mkProcessAsyncCall jobID accounts fromDate toDate)) in
  let accounts := Pb.Accounts req in
  if (length accounts =? 0)%nat then
    let accounts := GetAllAccountIDs env in
    if (length accounts =? 0)%nat then
      (Pb.mkDownloadJobResponse EmptyString "failed" "No accounts configured", None)
    else start accounts
  else start accounts.

(** The store when [DownloadAsync] returns: [ProcessAsync] has
    registered the job, its asynchronous unit has yet to run. *)
Definition afterDownloadAsync (st : ServiceState)
           (call : option ProcessAsyncCall) (tStart : Time) : ServiceState :=
  match call with
  | Some c => perform st (ActRegister (callJobID c) tStart)
  | None => st
  end.

End WithClock.

(** The facade's [GetJobStatus]: [None] is the nil message. *)
Definition GetJobStatus (st : ServiceState) (jobId : string) : option Pb.JobStatus :=
  match Services.GetJobStatus (jobs st) jobId with
  | None => None
  | Some job =>
      Some (Pb.mkJobStatus (ID job) (Services.Status job) (toInt32 (Progress job))
              (toInt32 (TotalRecords job)) (ErrorMessage job) (StartedAt job)
              (CompletedAt job))
  end.

(** [GetServerLogs]; [None] is the facade built without a buffer. *)
Definition GetServerLogs (logBuffer : option LogBuffer) (tailLines : Z)
  : list string * Z :=
  let tailLines := if tailLines <=? 0 then 100 else tailLines in
  let logLines :=
    match logBuffer with
    | Some lb => GetTail lb tailLines
    | None => ["Log buffer not initialized"]
    end in
  (logLines, toInt32 (Z.of_nat (length logLines))).

End Facade.

Import Facade.

Example mask_two : maskAccountString "alice:secret,bob:hunter2" = "alice:*******,bob:*******".
Proof. reflexivity. Qed.

(* ===================================================================== *)
(** * The facade as an object, and the server that hosts it *)
(* ===================================================================== *)

(** The rest of the later copy of the facade: its constructors, with the
    log callback that feeds the buffer, and the debugging calls. *)
Module Rpc.

(** [DownloadServiceGRPC]: the download service and the log buffer, which
    is [nil] in a facade built by [NewDownloadServiceGRPCWithMock]. *)
Record DownloadServiceGRPC : Type := mkDownloadServiceGRPC {
  downloadService : ServiceState;
  logBuffer : option LogBuffer
}.

(** [NewDownloadServiceGRPC]: a new service and a buffer of 1000 lines; the
    log callback of the service is set to the buffer's [Add]. *)
Definition NewDownloadServiceGRPC : DownloadServiceGRPC :=
  mkDownloadServiceGRPC NewDownloadService (NewLogBuffer 1000).

Definition NewDownloadServiceGRPCWithMock (downloadService : ServiceState)
  : DownloadServiceGRPC :=
  mkDownloadServiceGRPC downloadService None.

(** [LogMessage]: a line for the buffer, dropped when there is none. *)
Definition LogMessage (s : DownloadServiceGRPC) (message : string)
  : DownloadServiceGRPC :=
  match logBuffer s with
  | Some lb => mkDownloadServiceGRPC (downloadService s) (Some (Add lb message))
  | None => s
  end.

(** A step of the service inside the facade.  [logMessage] hands each
    line to the logger and to the log callback: with the callback of
    [NewDownloadServiceGRPC] the line is added to the buffer. *)
Definition step (s : DownloadServiceGRPC) (a : Action) : DownloadServiceGRPC :=
  let s' := mkDownloadServiceGRPC (perform (downloadService s) a) (logBuffer s) in
  match a with
  | ActLog msg => LogMessage s' msg
  | _ => s'
  end.

Definition GetServerLogs (s : DownloadServiceGRPC) (tailLines : Z) : list string * Z :=
  Facade.GetServerLogs (logBuffer s) tailLines.

Definition GetJobStatus (s : DownloadServiceGRPC) (jobId : string)
  : option Pb.JobStatus :=
  Facade.GetJobStatus (downloadService s) jobId.

(** The RPC [GetAllAccountIDs]. *)
Definition GetAllAccountIDs (env : Env) : list string := Services.GetAllAccountIDs env.

Record GetEnvironmentVariablesResponse : Type := mkGetEnvironmentVariablesResponse {
  EtcCorpAccounts : string;
  EtcHeadless : string;
  GrpcPort : string;
  HttpPort : string;
  EtcCorporateAccounts : string;
  EtcPersonalAccounts : string
}.

Definition GetEnvironmentVariables (env : Env) : GetEnvironmentVariablesResponse :=
  mkGetEnvironmentVariablesResponse
    (maskAccountString (env "ETC_CORP_ACCOUNTS"))
    (env "ETC_HEADLESS")
    (env "GRPC_PORT")
    (env "HTTP_PORT")
    (maskAccountString (env "ETC_CORPORATE_ACCOUNTS"))
    (maskAccountString (env "ETC_PERSONAL_ACCOUNTS")).

End Rpc.

(** [src/grpc/server.go]: the server around the facade. *)
Module Grpc.

(** [Server]: the facade it registers, and the lines it has written to its
    logger (the logger the download service writes to as well). *)
Record Server : Type := mkServer {
  downloadService : Rpc.DownloadServiceGRPC;
  logger : list string
}.

Definition NewServer : Server := mkServer Rpc.NewDownloadServiceGRPC [].

Section WithNetwork.
(** [NetListener.Listen]: the error, if it returns one. *)
Variable Listen : string -> string -> option string.
(** [reflector.GetServices] and [reflector.FormatServices]: the formatted
    list of services, or the error of [GetServices]. *)
Variable reflected : string + string.
(** What [grpcServer.Serve] returns once it stops serving. *)
Variable Serve : option string.

(** [Start]: the server afterwards and the error returned. *)
Definition Start (s : Server) (port : string) : Server * option string :=
  let port := if String.eqb port EmptyString then "50051" else port in
  match Listen "tcp" (":" ++ port) with
  | Some err => (s, Some ("failed to listen: " ++ err))
  | None =>
      let printed :=
        ["Starting gRPC server on port " ++ port;
         "GitHub repository: https://github.com/yhonda-ohishi-pub-dev/etc_meisai_scraper";
         "Available gRPC services:";
         match reflected with
         | inr formattedServices => formattedServices
         | inl err => "  Warning: Failed to reflect services: " ++ err
         end] in
      (mkServer (Rpc.LogMessage (downloadService s)
                   ("Starting gRPC server on port " ++ port))
                (logger s ++ printed)%list,
       Serve)
  end.

End WithNetwork.

Definition Stop (s : Server) : Server :=
  mkServer (downloadService s) (logger s ++ ["Stopping gRPC server..."])%list.

End Grpc.

(* ===================================================================== *)
(** * Properties *)
(* ===================================================================== *)

(** An environment given by the variables that are set. *)
Fixpoint envOf (vars : list (string * string)) : Env :=
  fun name =>
    match vars with
    | [] => EmptyString
    | (k, v) :: rest => if String.eqb name k then v else envOf rest name
    end.

(** ** The headless flag *)

Lemma GetHeadlessMode_unset (env : Env) :
  env "ETC_HEADLESS" = EmptyString -> GetHeadlessMode env = true.
Proof. intros H. unfold GetHeadlessMode. rewrite H. reflexivity. Qed.

Lemma GetHeadlessMode_unparsable (env : Env) :
  Strconv.ParseBool (env "ETC_HEADLESS") = None -> GetHeadlessMode env = true.
Proof.
  intros H. unfold GetHeadlessMode. rewrite H.
  destruct (String.eqb _ _); reflexivity.
Qed.

(** The values for which the browser is shown are exactly the six spellings
    [ParseBool] reads as false. *)
Lemma GetHeadlessMode_false_iff (env : Env) :
  GetHeadlessMode env = false <->
  In (env "ETC_HEADLESS") ["0"; "f"; "F"; "FALSE"; "false"; "False"].
Proof.
  unfold GetHeadlessMode, Strconv.ParseBool.
  set (v := env "ETC_HEADLESS"). simpl. split.
  - destruct (String.eqb v EmptyString) eqn:E0; [discriminate|].
    destruct (String.eqb v "1" || String.eqb v "t" || String.eqb v "T"
              || String.eqb v "TRUE" || String.eqb v "true" || String.eqb v "True")%bool;
      [discriminate|].
    destruct (String.eqb v "0") eqn:E1; [apply String.eqb_eq in E1; auto|].
    destruct (String.eqb v "f") eqn:E2; [apply String.eqb_eq in E2; auto|].
    destruct (String.eqb v "F") eqn:E3; [apply String.eqb_eq in E3; auto|].
    destruct (String.eqb v "FALSE") eqn:E4; [apply String.eqb_eq in E4; auto 6|].
    destruct (String.eqb v "false") eqn:E5; [apply String.eqb_eq in E5; auto 7|].
    destruct (String.eqb v "False") eqn:E6; [apply String.eqb_eq in E6; auto 8|].
    discriminate.
  - intros H.
    repeat (destruct H as [H | H]; [rewrite <- H; reflexivity|]).
    destruct H.
Qed.

(** C9: with [ETC_HEADLESS=no] the flag is [true] (headless), although the
    comment above [strconv.ParseBool] in [GetHeadlessMode] lists [no] with
    [false] and [0] as a value that shows the browser: [ParseBool] does not
    read [no], so it falls under the unparsable values. *)
Theorem GetHeadlessMode_no_stays_headless :
  GetHeadlessMode (envOf [("ETC_HEADLESS", "no")]) = true
  /\ GetHeadlessMode (envOf [("ETC_HEADLESS", "false")]) = false
  /\ GetHeadlessMode (envOf [("ETC_HEADLESS", "0")]) = false
  /\ GetHeadlessMode (envOf []) = true.
Proof. repeat split; reflexivity. Qed.

(** ** The log ring buffer *)

Lemma copyInto_all (src : list string) : copyInto (length src) src = src.
Proof.
  unfold copyInto. rewrite firstn_all, Nat.sub_diag. simpl. apply app_nil_r.
Qed.

(** [GetTail] is a suffix of the buffer: its last [k] lines, where [k] is
    the whole size for [n <= 0] and [min n size] otherwise. *)
Lemma GetTail_drop (lb : LogBuffer) (n : Z) :
  let size := length (lines lb) in
  let k := if n <=? 0 then size else Nat.min (Z.to_nat n) size in
  GetTail lb n = drop (size - k) (lines lb).
Proof.
  cbv zeta. unfold GetTail. rewrite Z.gtb_ltb.
  generalize (lines lb). intros l.
  set (len := Z.of_nat (length l)).
  assert (Hk : forall k : nat, (k <= length l)%nat ->
            copyInto k (drop (length l - k) l) = drop (length l - k) l).
  { intros k Hk. rewrite <- (copyInto_all (drop (length l - k) l)) at 2.
    f_equal. rewrite length_skipn. lia. }
  destruct (n <=? 0) eqn:E0; simpl.
  - replace (if len - len <? 0 then 0 else len - len) with 0
      by (destruct (len - len <? 0) eqn:E; lia).
    unfold len. rewrite Nat2Z.id. simpl.
    rewrite Nat.sub_diag. simpl. apply copyInto_all.
  - destruct (len <? n) eqn:E1.
    + replace (if len - len <? 0 then 0 else len - len) with 0
        by (destruct (len - len <? 0) eqn:E; lia).
      unfold len. rewrite Nat2Z.id. simpl.
      replace (Nat.min (Z.to_nat n) (length l)) with (length l) by lia.
      rewrite Nat.sub_diag. simpl. apply copyInto_all.
    + replace (if len - n <? 0 then 0 else len - n) with (len - n)
        by (destruct (len - n <? 0) eqn:E; lia).
      replace (Nat.min (Z.to_nat n) (length l)) with (Z.to_nat n) by lia.
      replace (Z.to_nat (len - n)) with (length l - Z.to_nat n)%nat by lia.
      apply Hk. lia.
Qed.

Lemma Add_maxLines (lb : LogBuffer) (line : string) :
  maxLines (Add lb line) = maxLines lb.
Proof. unfold Add. destruct (_ >? _); reflexivity. Qed.

(** A buffer that starts within its capacity stays within it. *)
Lemma Add_within (lb : LogBuffer) (line : string) :
  Z.of_nat (length (lines lb)) <= maxLines lb ->
  Z.of_nat (length (lines (Add lb line))) <= maxLines (Add lb line).
Proof.
  intros H. unfold Add. rewrite length_app, Z.gtb_ltb. simpl length.
  destruct (_ <? _) eqn:E; cbn [lines maxLines];
    rewrite ?length_skipn, ?length_app; simpl length; lia.
Qed.

(** After any run of [Add]s on a fresh buffer of capacity [N], the buffer
    holds the last [N] lines received, oldest first. *)
Lemma Add_all_keeps_newest (N : Z) (lb0 : LogBuffer) (received : list string) :
  NewLogBuffer N = Some lb0 ->
  lines (fold_left Add received lb0)
  = drop (length received - Z.to_nat N) received.
Proof.
  unfold NewLogBuffer. destruct (N <? 0) eqn:EN; [discriminate|].
  intros [= <-].
  induction received as [|line received IH] using rev_ind.
  - reflexivity.
  - rewrite fold_left_app. simpl. unfold Add at 1. rewrite IH.
    assert (HM : maxLines (fold_left Add received (mkLogBuffer [] N)) = N).
    { clear. induction received as [|x r IH] using rev_ind; [reflexivity|].
      rewrite fold_left_app. simpl. rewrite Add_maxLines. exact IH. }
    rewrite HM. rewrite !length_app. rewrite length_skipn. rewrite Z.gtb_ltb. simpl length.
    destruct (N <? Z.of_nat _) eqn:E; cbn [lines].
    + rewrite <- drop_app_le by lia.
      rewrite drop_drop. f_equal. lia.
    + rewrite <- drop_app_le by lia. f_equal. lia.
Qed.

(** C8: [Add] appends the line and, when that takes the size past the
    capacity, drops exactly one entry, the oldest; [GetTail n] returns the
    last [min n size] lines in arrival order and every line for [n <= 0];
    a buffer of capacity 3 that receives L1..L4 holds L2, L3, L4 and its
    [GetTail 2] is L3, L4. *)
Theorem LogBuffer_fifo_and_tail (lb : LogBuffer) (line : string) (n : Z) :
  let size := length (lines lb) in
  maxLines (Add lb line) = maxLines lb
  /\ (if Z.of_nat size + 1 <=? maxLines lb
      then lines (Add lb line) = (lines lb ++ [line])%list
      else exists oldest,
          (lines lb ++ [line])%list = oldest :: lines (Add lb line))
  /\ (let k := if n <=? 0 then size else Nat.min (Z.to_nat n) size in
      GetTail lb n = drop (size - k) (lines lb)
      /\ length (GetTail lb n) = k)
  /\ (forall lb3, NewLogBuffer 3 = Some lb3 ->
        let lb4 := fold_left Add ["L1"; "L2"; "L3"; "L4"] lb3 in
        lines lb4 = ["L2"; "L3"; "L4"] /\ GetTail lb4 2 = ["L3"; "L4"]).
Proof.
  cbv zeta. split; [apply Add_maxLines|]. split; [|split].
  - unfold Add. rewrite length_app, Z.gtb_ltb. simpl length.
    destruct (Z.of_nat (length (lines lb)) + 1 <=? maxLines lb) eqn:E.
    + destruct (_ <? _) eqn:E'; [lia|reflexivity].
    + destruct (_ <? _) eqn:E'; [|lia]. cbn [lines].
      destruct (lines lb ++ [line])%list as [|oldest rest] eqn:EL.
      * destruct (lines lb); discriminate.
      * exists oldest. reflexivity.
  - split; [apply GetTail_drop|].
    rewrite GetTail_drop. cbv zeta. rewrite length_skipn.
    destruct (n <=? 0); lia.
  - intros lb3 [= <-]. split; reflexivity.
Qed.

(** ** Splitting and joining *)

Fixpoint hasByte (sep : ascii) (s : string) : bool :=
  match s with
  | EmptyString => false
  | String c rest => (Ascii.eqb c sep || hasByte sep rest)%bool
  end.

(** The text before and the text after the first [sep] of [s], when [s]
    holds one (Go's [strings.Cut]). *)
Fixpoint cut (s : string) (sep : ascii) : option (string * string) :=
  match s with
  | EmptyString => None
  | String c rest =>
      if Ascii.eqb c sep then Some (EmptyString, rest)
      else match cut rest sep with
           | Some (before, after) => Some (String c before, after)
           | None => None
           end
  end.

Lemma Split_nonempty (s : string) (sep : ascii) : Split s sep <> [].
Proof.
  destruct s as [|c rest]; simpl; [discriminate|].
  destruct (Ascii.eqb c sep); [discriminate|].
  destruct (Split rest sep); discriminate.
Qed.

Lemma cut_None (s : string) (sep : ascii) :
  cut s sep = None <-> hasByte sep s = false.
Proof.
  induction s as [|c rest IH]; simpl; [tauto|].
  destruct (Ascii.eqb c sep); simpl; [split; discriminate|].
  destruct (cut rest sep) as [[b a]|]; [|tauto].
  split; [discriminate|]. intros H. apply IH in H. discriminate.
Qed.

Lemma cut_Some (s : string) (sep : ascii) (before after : string) :
  cut s sep = Some (before, after) ->
  s = before ++ String sep after /\ hasByte sep before = false.
Proof.
  revert before. induction s as [|c rest IH]; simpl; intros before; [discriminate|].
  destruct (Ascii.eqb c sep) eqn:E.
  - apply Ascii.eqb_eq in E. subst c. intros [= <- <-]. split; reflexivity.
  - destruct (cut rest sep) as [[b a]|]; [|discriminate].
    intros [= <- <-]. destruct (IH b eq_refl) as [-> Hb].
    split; [reflexivity|]. simpl. rewrite E. exact Hb.
Qed.

Lemma cut_app (before after : string) (sep : ascii) :
  hasByte sep before = false ->
  cut (before ++ String sep after) sep = Some (before, after).
Proof.
  induction before as [|c rest IH]; simpl; intros H.
  - rewrite Ascii.eqb_refl. reflexivity.
  - apply orb_false_iff in H as [Hc Hrest]. rewrite Hc, (IH Hrest). reflexivity.
Qed.

(** [Split] cuts at the first separator and goes on with what follows. *)
Lemma Split_cut (s : string) (sep : ascii) :
  Split s sep = match cut s sep with
                | Some (before, after) => before :: Split after sep
                | None => [s]
                end.
Proof.
  induction s as [|c rest IH]; simpl; [reflexivity|].
  destruct (Ascii.eqb c sep); [reflexivity|].
  rewrite IH. destruct (cut rest sep) as [[b a]|]; reflexivity.
Qed.

Lemma Split_no_sep (s : string) (sep : ascii) :
  hasByte sep s = false -> Split s sep = [s].
Proof. intros H. rewrite Split_cut. apply cut_None in H. rewrite H. reflexivity. Qed.

Lemma Split_pieces (s : string) (sep : ascii) :
  Forall (fun piece => hasByte sep piece = false) (Split s sep).
Proof.
  induction s as [|c rest IH]; simpl.
  - repeat constructor.
  - destruct (Ascii.eqb c sep) eqn:E.
    + constructor; [reflexivity|exact IH].
    + destruct (Split rest sep) as [|piece pieces].
      * repeat constructor. simpl. rewrite E. reflexivity.
      * inversion IH; subst. constructor; [|assumption].
        simpl. rewrite E. assumption.
Qed.

Lemma Split_app (before after : string) (sep : ascii) :
  hasByte sep before = false ->
  Split (before ++ String sep after) sep = before :: Split after sep.
Proof. intros H. rewrite Split_cut, (cut_app _ _ _ H). reflexivity. Qed.

(** Joining pieces that hold no separator and splitting again gives the
    pieces back. *)
Lemma Split_Join (pieces : list string) (sep : ascii) :
  pieces <> [] ->
  Forall (fun piece => hasByte sep piece = false) pieces ->
  Split (Join pieces (String sep EmptyString)) sep = pieces.
Proof.
  induction pieces as [|p rest IH]; [congruence|]. intros _ HF.
  inversion HF as [|? ? Hp Hrest]; subst.
  destruct rest as [|q rest'].
  - simpl. apply Split_no_sep. exact Hp.
  - change (Join (p :: q :: rest') (String sep EmptyString))
      with (p ++ String sep (Join (q :: rest') (String sep EmptyString))).
    rewrite (Split_app _ _ _ Hp). f_equal. apply IH; [discriminate|exact Hrest].
Qed.

(** Splitting loses nothing: joining the pieces gives the text back. *)
Lemma Join_Split (s : string) (sep : ascii) :
  Join (Split s sep) (String sep EmptyString) = s.
Proof.
  induction s as [|c rest IH]; simpl; [reflexivity|].
  destruct (Ascii.eqb c sep) eqn:E.
  - apply Ascii.eqb_eq in E. subst c.
    pose proof (Split_nonempty rest sep) as HN.
    destruct (Split rest sep) as [|q qs] eqn:ES; [congruence|].
    change (Join (EmptyString :: q :: qs) (String sep EmptyString))
      with (String sep (Join (q :: qs) (String sep EmptyString))).
    rewrite IH. reflexivity.
  - pose proof (Split_nonempty rest sep) as HN.
    destruct (Split rest sep) as [|q qs] eqn:ES; [congruence|].
    destruct qs as [|q' qs'].
    + simpl in *. rewrite IH. reflexivity.
    + change (Join (String c q :: q' :: qs') (String sep EmptyString))
        with (String c (q ++ String sep (Join (q' :: qs') (String sep EmptyString)))).
      change (Join (q :: q' :: qs') (String sep EmptyString))
        with (q ++ String sep (Join (q' :: qs') (String sep EmptyString))) in IH.
      rewrite IH. reflexivity.
Qed.

Lemma hasByte_app (sep : ascii) (s t : string) :
  hasByte sep (s ++ t) = (hasByte sep s || hasByte sep t)%bool.
Proof.
  induction s as [|c rest IH]; simpl; [reflexivity|].
  rewrite IH. apply orb_assoc.
Qed.

(** ** Masking *)

(** What the design asks of one comma-separated entry: the part before its
    first colon stays, the password segment after it becomes seven
    asterisks; an entry with no colon is left as it is. *)
Definition maskPair (entry : string) : string :=
  match cut entry ":" with
  | Some (accountId, _) => accountId ++ ":" ++ "*******"
  | None => entry
  end.

Lemma maskPair_no_colon (entry : string) :
  hasByte ":" entry = false -> maskPair entry = entry.
Proof. intros H. unfold maskPair. apply cut_None in H. rewrite H. reflexivity. Qed.

Lemma maskPair_pair (accountId password : string) :
  hasByte ":" accountId = false ->
  maskPair (accountId ++ ":" ++ password) = accountId ++ ":*******".
Proof.
  intros H. unfold maskPair.
  change (":" ++ password) with (String ":" password).
  rewrite (cut_app _ _ _ H). reflexivity.
Qed.

Lemma maskPair_no_comma (entry : string) :
  hasByte "," entry = false -> hasByte "," (maskPair entry) = false.
Proof.
  intros H. unfold maskPair.
  destruct (cut entry ":") as [[accountId after]|] eqn:E; [|exact H].
  apply cut_Some in E as [-> _]. rewrite hasByte_app in *.
  apply orb_false_iff in H as [H1 _]. rewrite H1. reflexivity.
Qed.

(** The loop body of [maskAccountString] is [maskPair]. *)
Lemma mask_body_is_maskPair (account : string) :
  match Split account ":" with
  | part0 :: _ :: _ => part0 ++ ":*******"
  | _ => account
  end = maskPair account.
Proof.
  unfold maskPair. rewrite Split_cut.
  destruct (cut account ":") as [[before after]|]; [|reflexivity].
  pose proof (Split_nonempty after ":") as HN.
  destruct (Split after ":"); [congruence|reflexivity].
Qed.

(** C7: the comma-separated entries of the masked string are, one for one
    and in order, the entries of the input with each password segment
    replaced by seven asterisks; entries with no colon are unchanged. *)
Theorem maskAccountString_masks_each_pair (accountStr : string) :
  Split (maskAccountString accountStr) "," = map maskPair (Split accountStr ",")
  /\ maskAccountString "alice:secret,bob:hunter2" = "alice:*******,bob:*******".
Proof.
  split; [|reflexivity].
  unfold maskAccountString.
  destruct (String.eqb accountStr EmptyString) eqn:E.
  - apply String.eqb_eq in E. subst. reflexivity.
  - rewrite (map_ext _ maskPair) by apply mask_body_is_maskPair.
    apply Split_Join.
    + pose proof (Split_nonempty accountStr ",").
      destruct (Split accountStr ","); [congruence|discriminate].
    + apply Forall_map. eapply Forall_impl; [apply Split_pieces|].
      intros piece. apply maskPair_no_comma.
Qed.

(** ** Parsing the configured accounts *)

(** The guard for the empty text: it yields no account, where splitting
    on commas would give one empty piece.  No caller passes the empty
    text: [GetAllAccountsWithCredentials] reads a variable into
    [parseAccountsString] only after testing that it is not empty. *)
Lemma parseAccountsString_empty_guard :
  parseAccountsString EmptyString = [] /\ Split EmptyString "," = [EmptyString].
Proof. split; reflexivity. Qed.

(** Off the JSON path nothing is lost: joining the parsed accounts with
    commas gives the text back. *)
Lemma parseAccountsString_comma_path (accountsStr : string) :
  accountsStr <> EmptyString ->
  Json.Unmarshal accountsStr = None ->
  Join (parseAccountsString accountsStr) "," = accountsStr.
Proof.
  intros Hne HJ. unfold parseAccountsString.
  destruct (String.eqb accountsStr EmptyString) eqn:E;
    [apply String.eqb_eq in E; congruence|].
  rewrite HJ. destruct (HasPrefix _ _); apply Join_Split.
Qed.

(** *** JSON arrays of plain account strings *)

(** A byte that a JSON string literal holds as it is: printable ASCII other
    than the double quote and the backslash. *)
Definition plainByte (c : ascii) : bool :=
  let b := byte_of c in
  ((32 <=? b) && (b <? 128) && negb (b =? 34) && negb (b =? 92))%N.

Fixpoint plain (s : string) : bool :=
  match s with
  | EmptyString => true
  | String c rest => plainByte c && plain rest
  end.

Definition quoted (account : string) : string := dq ++ account ++ dq.

(** The JSON text of an array of plain strings, without white space. *)
Definition jsonArray (accounts : list string) : string :=
  "[" ++ Join (map quoted accounts) "," ++ "]".

Lemma string_app_cons (c : ascii) (s t : string) :
  String c s ++ t = String c (s ++ t).
Proof. reflexivity. Qed.

Lemma string_app_assoc (s t u : string) : (s ++ t) ++ u = s ++ (t ++ u).
Proof.
  induction s as [|c s IH]; [reflexivity|].
  rewrite !string_app_cons, IH. reflexivity.
Qed.

Lemma string_app_length (s t : string) :
  String.length (s ++ t) = (String.length s + String.length t)%nat.
Proof.
  induction s as [|c s IH]; [reflexivity|].
  rewrite string_app_cons. cbn [String.length]. rewrite IH. reflexivity.
Qed.

Lemma unquoteBody_plain (account tail : string) (fuel : nat) :
  plain account = true ->
  (String.length account < fuel)%nat ->
  Json.unquoteBody fuel (account ++ String "034" tail) = Some (account, tail).
Proof.
  revert fuel. induction account as [|c rest IH]; intros fuel Hp Hf.
  - destruct fuel; [cbn in Hf; lia|]. reflexivity.
  - destruct fuel; [cbn in Hf; lia|].
    cbn [plain] in Hp. apply andb_true_iff in Hp as [Hc Hrest].
    unfold plainByte in Hc. cbv zeta in Hc.
    apply andb_true_iff in Hc as [Hc H92]. apply andb_true_iff in Hc as [Hc H34].
    apply andb_true_iff in Hc as [H32 H128].
    change (String c rest ++ String "034" tail)
      with (String c (rest ++ String "034" tail)).
    cbn [Json.unquoteBody]. cbv zeta.
    apply negb_true_iff in H34, H92. rewrite H34, H92.
    replace (byte_of c <? 32)%N with false by lia. rewrite H128.
    rewrite IH by (cbn in Hf; try assumption; lia). reflexivity.
Qed.

Lemma skipWS_nonspace (c : ascii) (s : string) :
  Json.isJsonSpace c = false -> Json.skipWS (String c s) = String c s.
Proof. intros H. cbn [Json.skipWS]. rewrite H. reflexivity. Qed.

Lemma Join_quoted_head (account : string) (accounts : list string) (tail : string) :
  exists t, Join (map quoted (account :: accounts)) "," ++ tail = String "034" t.
Proof. destruct accounts; eexists; reflexivity. Qed.

Lemma skipWS_Join_quoted (account : string) (accounts : list string) (tail : string) :
  Json.skipWS (Join (map quoted (account :: accounts)) "," ++ tail)
  = Join (map quoted (account :: accounts)) "," ++ tail.
Proof.
  destruct (Join_quoted_head account accounts tail) as [t ->].
  apply skipWS_nonspace. reflexivity.
Qed.

Lemma parseElements_S (fuel : nat) (s : string) :
  Json.parseElements (S fuel) s
  = match Json.parseElement s with
    | None => None
    | Some (v, rest) =>
        match Json.skipWS rest with
        | String "," rest' =>
            match Json.parseElements fuel (Json.skipWS rest') with
            | Some (vs, r) => Some (v :: vs, r)
            | None => None
            end
        | String "]" rest' => Some ([v], rest')
        | _ => None
        end
    end.
Proof. reflexivity. Qed.

Lemma parseElement_quoted (account tail : string) :
  plain account = true ->
  Json.parseElement (quoted account ++ tail) = Some (account, tail).
Proof.
  intros Hp. unfold quoted. rewrite !string_app_assoc.
  change (dq ++ account ++ dq ++ tail)
    with (String "034" (account ++ String "034" tail)).
  cbn [Json.parseElement].
  apply unquoteBody_plain; [exact Hp|].
  cbn [String.length]. rewrite string_app_length. lia.
Qed.

Lemma parseElements_quoted (accounts : list string) (account tail : string) (fuel : nat) :
  Forall (fun a => plain a = true) (account :: accounts) ->
  (length accounts < fuel)%nat ->
  Json.parseElements fuel (Join (map quoted (account :: accounts)) "," ++ "]" ++ tail)
  = Some (account :: accounts, tail).
Proof.
  revert account fuel. induction accounts as [|next rest IH]; intros account fuel HF Hf.
  - destruct fuel; [lia|]. inversion HF as [|? ? Ha _]; subst.
    change (Join (map quoted [account]) ",") with (quoted account).
    rewrite parseElements_S, (parseElement_quoted _ _ Ha). reflexivity.
  - destruct fuel; [cbn in Hf; lia|]. inversion HF as [|? ? Ha HF']; subst.
    change (Join (map quoted (account :: next :: rest)) ",")
      with (quoted account ++ "," ++ Join (map quoted (next :: rest)) ",").
    rewrite !string_app_assoc.
    rewrite parseElements_S, (parseElement_quoted _ _ Ha).
    change ("," ++ Join (map quoted (next :: rest)) "," ++ "]" ++ tail)
      with (String "," (Join (map quoted (next :: rest)) "," ++ "]" ++ tail)).
    rewrite (skipWS_nonspace ",") by reflexivity.
    rewrite skipWS_Join_quoted.
    rewrite (IH next fuel HF') by (cbn in Hf; lia). reflexivity.
Qed.

Lemma Join_quoted_length (accounts : list string) :
  (length accounts <= String.length (Join (map quoted accounts) ","))%nat.
Proof.
  induction accounts as [|a l IH]; [cbn; lia|].
  destruct l as [|b l].
  - change (Join (map quoted [a]) ",") with (dq ++ a ++ dq).
    rewrite !string_app_length. cbn. lia.
  - change (Join (map quoted (a :: b :: l)) ",")
      with (quoted a ++ "," ++ Join (map quoted (b :: l)) ",").
    rewrite !string_app_length. cbn [length] in *. cbn [String.length]. lia.
Qed.

(** Decoding the JSON text of an array of plain strings gives the array. *)
Lemma Unmarshal_jsonArray (accounts : list string) :
  Forall (fun a => plain a = true) accounts ->
  Json.Unmarshal (jsonArray accounts) = Some accounts.
Proof.
  intros HF. destruct accounts as [|account rest]; [reflexivity|].
  unfold jsonArray, Json.Unmarshal.
  change ("[" ++ Join (map quoted (account :: rest)) "," ++ "]")
    with (String "[" (Join (map quoted (account :: rest)) "," ++ "]")).
  rewrite (skipWS_nonspace "[") by reflexivity.
  rewrite skipWS_Join_quoted.
  destruct (Join_quoted_head account rest "]") as [t Ht].
  rewrite Ht. cbv beta iota. rewrite <- Ht.
  change (Join (map quoted (account :: rest)) "," ++ "]")
    with (Join (map quoted (account :: rest)) "," ++ "]" ++ EmptyString).
  rewrite parseElements_quoted; [reflexivity|exact HF|].
  rewrite string_app_length. pose proof (Join_quoted_length (account :: rest)) as Hlen.
  cbn [length] in *. cbn [String.length]. lia.
Qed.

Lemma rev_app_rev_app (s t u : string) :
  String.rev_app (String.rev_app s t) u = String.rev_app t (s ++ u).
Proof.
  revert t. induction s as [|a s IH]; intros t; [reflexivity|].
  cbn [String.rev_app]. rewrite IH. reflexivity.
Qed.

Lemma rev_app_app (s t u : string) :
  String.rev_app (s ++ t) u = String.rev_app t (String.rev_app s u).
Proof.
  revert u. induction s as [|a s IH]; intros u; [reflexivity|].
  rewrite string_app_cons. cbn [String.rev_app]. apply IH.
Qed.

Lemma string_app_nil_r (s : string) : s ++ EmptyString = s.
Proof.
  induction s as [|a s IH]; [reflexivity|]. rewrite string_app_cons, IH. reflexivity.
Qed.

Lemma rev_rev (s : string) : String.rev (String.rev s) = s.
Proof. unfold String.rev. rewrite rev_app_rev_app. apply string_app_nil_r. Qed.

Lemma spaceWidth_bracket (rest : string) : spaceWidth (String "[" rest) = 0%nat.
Proof. destruct rest as [|c2 [|c3 r3]]; reflexivity. Qed.

Lemma spaceWidthRev_bracket (rest : string) : spaceWidthRev (String "]" rest) = 0%nat.
Proof.
  destruct rest as [|c2 [|c3 r3]]; [reflexivity| |];
    unfold spaceWidthRev, spaceWidth; cbv zeta;
    change (asciiSpace "]") with false; cbv iota;
    change (byte_of "]") with 93%N;
    generalize (byte_of c2); intros b2;
    try (generalize (byte_of c3); intros b3);
    change (inRange 128 138 93) with false;
    change (93 =? 133)%N with false; change (93 =? 160)%N with false;
    change (93 =? 128)%N with false; change (93 =? 168)%N with false;
    change (93 =? 169)%N with false; change (93 =? 175)%N with false;
    change (93 =? 159)%N with false;
    cbn [orb]; rewrite ?andb_false_r;
    destruct (asciiSpace c2); try destruct (asciiSpace c3);
    try destruct ((b3 =? 194)%N && ((b2 =? 133)%N || (b2 =? 160)%N))%bool;
    reflexivity.
Qed.

Lemma trimWith_zero (width : string -> nat) (fuel : nat) (s : string) :
  width s = 0%nat -> trimWith width fuel s = s.
Proof. intros H. destruct fuel; cbn [trimWith]; [reflexivity|]. rewrite H. reflexivity. Qed.

(** A text in brackets has no white space to trim. *)
Lemma TrimSpace_bracketed (body : string) :
  TrimSpace (String "[" (body ++ "]")) = String "[" (body ++ "]").
Proof.
  unfold TrimSpace, TrimLeftSpace.
  rewrite (trimWith_zero _ _ _ (spaceWidth_bracket _)).
  unfold TrimRightSpace.
  assert (Hrev : String.rev (String "[" (body ++ "]"))
                 = String "]" (String.rev (String "[" body))).
  { unfold String.rev. rewrite <- string_app_cons, rev_app_app. reflexivity. }
  rewrite Hrev, (trimWith_zero _ _ _ (spaceWidthRev_bracket _)), <- Hrev.
  apply rev_rev.
Qed.

(** The JSON encoding: an array of plain account strings written as a JSON
    array is parsed into that array. *)
Lemma parseAccountsString_json_array (accounts : list string) :
  Forall (fun a => plain a = true) accounts ->
  parseAccountsString (jsonArray accounts) = accounts.
Proof.
  intros HF. unfold parseAccountsString.
  rewrite (Unmarshal_jsonArray _ HF).
  unfold jsonArray.
  change ("[" ++ Join (map quoted accounts) "," ++ "]")
    with (String "[" (Join (map quoted accounts) "," ++ "]")).
  rewrite TrimSpace_bracketed.
  assert (Hp : forall s, HasPrefix (String "[" s) "[" = true)
    by (intros s; destruct s; reflexivity).
  rewrite Hp. reflexivity.
Qed.

(** C6: [parseAccountsString] accepts two encodings, on every text it is
    given (its callers pass no empty text).  When the text, trimmed of
    white space, starts with a bracket and parses as a JSON array of
    strings ([json.Unmarshal] into a [[]string] returns no error), the
    result is that array; otherwise, also when a bracketed text fails to
    parse, it is the text split on commas, and joining the result with
    commas gives the text back.  The JSON array text of any list of plain
    strings is read back as that list.  The bracketed text
    ["u1:p1","u2:p2"] and the text u1:p1,u2:p2 both yield the two
    accounts, and the text [not json yields itself as one entry. *)
Theorem parseAccountsString_two_encodings (accountsStr : string) :
  accountsStr <> EmptyString ->
  (forall jsonAccounts,
      HasPrefix (TrimSpace accountsStr) "[" = true ->
      Json.Unmarshal accountsStr = Some jsonAccounts ->
      parseAccountsString accountsStr = jsonAccounts)
  /\ (HasPrefix (TrimSpace accountsStr) "[" = false
      \/ Json.Unmarshal accountsStr = None ->
      parseAccountsString accountsStr = Split accountsStr ","
      /\ Join (parseAccountsString accountsStr) "," = accountsStr)
  /\ (forall accounts,
         Forall (fun a => plain a = true) accounts ->
         parseAccountsString (jsonArray accounts) = accounts)
  /\ parseAccountsString
       ("[" ++ dq ++ "u1:p1" ++ dq ++ "," ++ dq ++ "u2:p2" ++ dq ++ "]")
     = ["u1:p1"; "u2:p2"]
  /\ parseAccountsString "u1:p1,u2:p2" = ["u1:p1"; "u2:p2"]
  /\ parseAccountsString "[not json" = ["[not json"].
Proof.
  intros Hne.
  assert (E : String.eqb accountsStr EmptyString = false)
    by (apply String.eqb_neq; exact Hne).
  split; [|split; [|split; [|repeat split; reflexivity]]].
  - intros jsonAccounts HP HU. unfold parseAccountsString.
    rewrite E, HP, HU. reflexivity.
  - intros H.
    assert (HS : parseAccountsString accountsStr = Split accountsStr ",").
    { unfold parseAccountsString. rewrite E.
      destruct H as [HP|HU]; [rewrite HP; reflexivity|].
      rewrite HU. destruct (HasPrefix _ _); reflexivity. }
    split; [exact HS|]. rewrite HS. apply Join_Split.
  - apply parseAccountsString_json_array.
Qed.

Lemma parseAccountsString_two_encodings_holds :
  "u1:p1,u2:p2" <> EmptyString
  /\ parseAccountsString "u1:p1,u2:p2" = Split "u1:p1,u2:p2" ","
  /\ Join (parseAccountsString "u1:p1,u2:p2") "," = "u1:p1,u2:p2".
Proof.
  assert (H : "u1:p1,u2:p2" <> EmptyString) by discriminate.
  split; [exact H|].
  exact (proj1 (proj2 (parseAccountsString_two_encodings "u1:p1,u2:p2" H))
               (or_introl eq_refl)).
Defined.

(** ** The asynchronous submission *)

Lemma GetAllAccountsWithCredentials_unset (env : Env) :
  env "ETC_CORP_ACCOUNTS" = EmptyString ->
  env "ETC_CORPORATE_ACCOUNTS" = EmptyString ->
  env "ETC_PERSONAL_ACCOUNTS" = EmptyString ->
  GetAllAccountsWithCredentials env = [].
Proof.
  intros H1 H2 H3. unfold GetAllAccountsWithCredentials.
  rewrite H1, H2, H3. reflexivity.
Qed.

(** The identifiers are one per configured account. *)
Lemma GetAllAccountIDs_length (env : Env) :
  length (GetAllAccountIDs env) = length (GetAllAccountsWithCredentials env).
Proof.
  unfold GetAllAccountIDs.
  induction (GetAllAccountsWithCredentials env) as [|a rest IH]; [reflexivity|].
  simpl. pose proof (Split_nonempty (TrimSpace a) ":") as HN.
  destruct (Split (TrimSpace a) ":"); [congruence|]. simpl. rewrite IH. reflexivity.
Qed.

Section Submission.
Variable formatDate : Time -> string.
Variable oneMonthBefore : Time -> Time.

(** C5: with no account in the request and none configured,
    [DownloadAsync] answers with an empty job id and status failed, makes
    no call of [ProcessAsync] and leaves the store as it was, so that on
    a new service every status query finds nothing; otherwise it answers
    with the generated identifier and status pending, and the job is
    registered under that identifier with the accounts of the request, or
    with the configured ones when the request names none. *)
Theorem DownloadAsync_failed_or_pending
        (env : Env) (req : Pb.DownloadRequest) (now tStart : Time)
        (uuid : string) (st : ServiceState) :
  let '(resp, call) := DownloadAsync formatDate oneMonthBefore env req now uuid in
  if ((length (Pb.Accounts req) =? 0)
      && (length (GetAllAccountsWithCredentials env) =? 0))%nat
  then
    Pb.JobId resp = EmptyString /\ Pb.Status resp = "failed"
    /\ call = None
    /\ afterDownloadAsync st call tStart = st
    /\ (forall jobId,
          Facade.GetJobStatus (afterDownloadAsync NewDownloadService call tStart) jobId
          = None)
  else
    Pb.JobId resp = uuid /\ Pb.Status resp = "pending"
    /\ (exists fromDate toDate,
           call = Some (mkProcessAsyncCall uuid
                          (if (length (Pb.Accounts req) =? 0)%nat
                           then GetAllAccountsWithCredentials env
                           else Pb.Accounts req)
                          fromDate toDate))
    /\ Services.GetJobStatus (jobs (afterDownloadAsync st call tStart)) uuid
       = Some (mkDownloadJob uuid "processing" 0 0 EmptyString tStart None).
Proof.
  unfold DownloadAsync.
  destruct (setDefaultDates formatDate oneMonthBefore now (Pb.FromDate req)
              (Pb.ToDate req)) as [fromDate toDate].
  destruct (length (Pb.Accounts req) =? 0)%nat eqn:E1; simpl.
  - destruct (length (GetAllAccountsWithCredentials env) =? 0)%nat eqn:E2; simpl.
    + repeat split. 
    + repeat split; [eauto|]. unfold Services.GetJobStatus, registerJob.
      apply lookup_insert_eq.
  - repeat split; [eauto|]. unfold Services.GetJobStatus, registerJob.
    apply lookup_insert_eq.
Qed.

(** With accounts in the request the two copies of [DownloadAsync] do the
    same, and they fail on the same environments. *)
Lemma DownloadAsync_copies_agree_on_explicit
      (env : Env) (req : Pb.DownloadRequest) (now : Time) (uuid : string) :
  Pb.Accounts req <> [] ->
  DownloadAsync_grpc formatDate oneMonthBefore env req now uuid
  = DownloadAsync formatDate oneMonthBefore env req now uuid.
Proof.
  intros H. unfold DownloadAsync, DownloadAsync_grpc.
  destruct (Pb.Accounts req); [congruence|]. reflexivity.
Qed.

Lemma DownloadAsync_copies_same_response
      (env : Env) (req : Pb.DownloadRequest) (now : Time) (uuid : string) :
  fst (DownloadAsync_grpc formatDate oneMonthBefore env req now uuid)
  = fst (DownloadAsync formatDate oneMonthBefore env req now uuid).
Proof.
  unfold DownloadAsync, DownloadAsync_grpc.
  destruct (setDefaultDates _ _ _ _ _) as [fromDate toDate].
  destruct (length (Pb.Accounts req) =? 0)%nat; [|reflexivity].
  rewrite GetAllAccountIDs_length.
  destruct (length (GetAllAccountsWithCredentials env) =? 0)%nat; reflexivity.
Qed.

(** C10: the two copies of [DownloadAsync] are not the same function.
    With [ETC_CORP_ACCOUNTS=u1:p1] and a request that names no account,
    the copy with the log buffer hands [ProcessAsync] the credential
    [u1:p1], the copy in [download_service_grpc.go] hands it the bare
    identifier [u1], which [downloadAccountData] then refuses as an
    invalid account format. *)
Theorem DownloadAsync_copies_differ_on_defaults (now : Time) (uuid folder : string) :
  let env := envOf [("ETC_CORP_ACCOUNTS", "u1:p1")] in
  let req := Pb.mkDownloadRequest [] "2024-01-01" "2024-01-31" in
  snd (DownloadAsync formatDate oneMonthBefore env req now uuid)
  = Some (mkProcessAsyncCall uuid ["u1:p1"] "2024-01-01" "2024-01-31")
  /\ snd (DownloadAsync_grpc formatDate oneMonthBefore env req now uuid)
     = Some (mkProcessAsyncCall uuid ["u1"] "2024-01-01" "2024-01-31")
  /\ accountConfig env "u1" folder
     = inl "invalid account format: u1 (expected accountID:password)"
  /\ DownloadAsync_grpc formatDate oneMonthBefore env req now uuid
     <> DownloadAsync formatDate oneMonthBefore env req now uuid.
Proof.
  cbv zeta. repeat split. discriminate.
Qed.

End Submission.

(** ** Credentials of one account *)

(** The password handed to the scraper stops at the second colon. *)
Example accountConfig_three_segments :
  accountConfig (envOf []) "id:pa:ss" "./downloads/s"
  = inr (mkScraperConfig "id" "pa" "./downloads" "./downloads/s" true 30000 3).
Proof. reflexivity. Qed.

(** C4: the password handed to the scraper is cut at the second colon.
    For the account [id:pa:ss] the text after the first colon is [pa:ss],
    the password segment that [maskAccountString] hides and that the
    format [accountID:password] of the code's comment and error text
    names; [downloadAccountData] hands the scraper [pa].  In general the
    account string is split on every colon and the second part is taken:
    the password is the text after the first colon only when that text
    holds no colon; with no colon at all the account is refused. *)
Lemma accountConfig_password_not_remainder :
  (exists config,
      accountConfig (envOf []) "id:pa:ss" "./downloads/s" = inr config
      /\ UserID config = "id" /\ Password config = "pa"
      /\ Password config <> "pa:ss")
  /\ cut "id:pa:ss" ":" = Some ("id", "pa:ss")
  /\ maskAccountString "id:pa:ss" = "id:*******"
  /\ (forall env account folder,
         accountConfig env account folder
         = match cut account ":" with
           | Some (accountId, rest) =>
               inr (mkScraperConfig accountId
                      (match cut rest ":" with
                       | Some (password, _) => password
                       | None => rest
                       end)
                      "./downloads" folder (getHeadlessMode env) 30000 3)
           | None =>
               inl ("invalid account format: " ++ account
                    ++ " (expected accountID:password)")
           end).
Proof.
  split; [|split; [reflexivity|split; [reflexivity|]]].
  - eexists. split; [apply accountConfig_three_segments|].
    repeat split. discriminate.
  - intros env account folder. unfold accountConfig. rewrite Split_cut.
    destruct (cut account ":") as [[accountId rest]|]; [|reflexivity].
    rewrite Split_cut.
    destruct (cut rest ":") as [[password after]|]; reflexivity.
Qed.

Section Credentials.
Variable env : Env.
Variable factory : ScraperFactory.

Lemma accountConfig_no_colon (account folder : string) :
  hasByte ":" account = false ->
  accountConfig env account folder
  = inl ("invalid account format: " ++ account ++ " (expected accountID:password)").
Proof.
  intros H. unfold accountConfig. rewrite (Split_no_sep _ _ H). reflexivity.
Qed.

(** The account string is split on every colon.  For [accountId:rest] the
    scraper gets [accountId] and the part of [rest] before its first
    colon, which is all of [rest] when [rest] holds no colon; an account
    string with no colon is an error for that account, logged, and the
    loop goes on with the next account. *)
Theorem accountConfig_first_two_parts
        (accountId rest account folder jobID fromDate toDate : string)
        (totalAccounts i : Z) (others : list string) :
  hasByte ":" accountId = false ->
  hasByte ":" account = false ->
  accountConfig env (accountId ++ ":" ++ rest) folder
  = inr (mkScraperConfig accountId
           (match cut rest ":" with Some (password, _) => password | None => rest end)
           "./downloads" folder (getHeadlessMode env) 30000 3)
  /\ downloadAccountData env factory account fromDate toDate folder
     = ([], Errors ("invalid account format: " ++ account
                    ++ " (expected accountID:password)"))
  /\ accountLoop env factory jobID fromDate toDate folder totalAccounts i
                 (account :: others)
     = (let '(steps, p) :=
          accountLoop env factory jobID fromDate toDate folder totalAccounts
                      (i + 1) others in
        (ActProgress jobID (progressOf i totalAccounts)
         :: ActLog ("Error downloading data for account " ++ account
                    ++ ": invalid account format: " ++ account
                    ++ " (expected accountID:password)")
         :: ActSleep :: steps, p)).
Proof.
  intros Hid Hacc. split; [|split].
  - unfold accountConfig.
    change (":" ++ rest) with (String ":" rest).
    rewrite (Split_app _ _ _ Hid), Split_cut.
    destruct (cut rest ":") as [[password after]|]; reflexivity.
  - unfold downloadAccountData. rewrite (accountConfig_no_colon _ _ Hacc). reflexivity.
  - cbn [accountLoop]. unfold loopBody, downloadAccountData.
    rewrite (accountConfig_no_colon _ _ Hacc). cbn.
    destruct (accountLoop env factory jobID fromDate toDate folder totalAccounts
                (i + 1) others) as [steps p].
    reflexivity.
Qed.

End Credentials.

Lemma accountConfig_first_two_parts_holds :
  hasByte ":" "id" = false /\ hasByte ":" "nocolon" = false
  /\ accountConfig (envOf []) ("id" ++ ":" ++ "pa:ss") "f"
     = inr (mkScraperConfig "id" "pa" "./downloads" "f" true 30000 3).
Proof.
  split; [reflexivity|]. split; [reflexivity|].
  exact (proj1 (accountConfig_first_two_parts (envOf []) (fun _ => Errors "none")
                  "id" "pa:ss" "nocolon" "f" "job" "from" "to" 1 0 []
                  eq_refl eq_refl)).
Defined.

(** ** The job store *)

Lemma run_app (acts1 acts2 : list Action) (st : ServiceState) :
  run (acts1 ++ acts2) st = run acts2 (run acts1 st).
Proof. apply fold_left_app. Qed.

Lemma run_cons (a : Action) (acts : list Action) (st : ServiceState) :
  run (a :: acts) st = run acts (perform st a).
Proof. reflexivity. Qed.

Lemma trace_last (acts : list Action) (st : ServiceState) :
  last (trace acts st) = Some (run acts st).
Proof.
  revert st. induction acts as [|a acts IH]; intros st; [reflexivity|].
  cbn [trace]. rewrite run_cons, <- IH.
  destruct (trace acts (perform st a)) eqn:E; [|reflexivity].
  destruct acts; discriminate.
Qed.

(** What a step writes into the progress of job [jobID], if anything. *)
Definition progressWritten (jobID : string) (a : Action) : option Z :=
  match a with
  | ActRegister j _ => if String.eqb j jobID then Some 0 else None
  | ActProgress j progress => if String.eqb j jobID then Some progress else None
  | ActStatus j _ progress _ _ => if String.eqb j jobID then Some progress else None
  | ActComplete j _ => if String.eqb j jobID then Some 100 else None
  | ActLog _ | ActLoggerPrintf _ | ActSleep => None
  end.

(** The progress a status query for [jobID] reports. *)
Definition observe (jobID : string) (st : ServiceState) : option Z :=
  Progress <$> Services.GetJobStatus (jobs st) jobID.

Lemma observe_perform (jobID : string) (st : ServiceState) (a : Action) (p0 : Z) :
  observe jobID st = Some p0 ->
  observe jobID (perform st a) = Some (default p0 (progressWritten jobID a)).
Proof.
  unfold observe, Services.GetJobStatus. intros H.
  destruct (jobs st !! jobID) as [job|] eqn:EJ; [|discriminate].
  injection H as <-.
  destruct a as [j now|msg|msg|j progress|j status progress errorMsg now|j now|];
    cbn [perform jobs progressWritten]; try (rewrite EJ; reflexivity);
    (destruct (String.eqb j jobID) eqn:E;
     [apply String.eqb_eq in E; subst j
     |apply String.eqb_neq in E]).
  - unfold registerJob. rewrite lookup_insert_eq. reflexivity.
  - unfold registerJob. rewrite lookup_insert_ne, EJ by exact E. reflexivity.
  - unfold updateJobProgress. rewrite EJ, lookup_insert_eq. reflexivity.
  - unfold updateJobProgress. destruct (jobs st !! j);
      rewrite ?lookup_insert_ne by exact E; rewrite EJ; reflexivity.
  - unfold updateJobStatus. rewrite EJ, lookup_insert_eq. reflexivity.
  - unfold updateJobStatus. destruct (jobs st !! j);
      rewrite ?lookup_insert_ne by exact E; rewrite EJ; reflexivity.
  - unfold completeJob. rewrite EJ, lookup_insert_eq. reflexivity.
  - unfold completeJob. destruct (jobs st !! j);
      rewrite ?lookup_insert_ne by exact E; rewrite EJ; reflexivity.
Qed.

(** The progress values seen along a run: the value before, then after each
    step the value it wrote, or the one before it. *)
Fixpoint seen (p0 : Z) (written : list (option Z)) : list Z :=
  match written with
  | [] => [p0]
  | w :: rest => p0 :: seen (default p0 w) rest
  end.

Lemma observe_trace (jobID : string) (acts : list Action) (st : ServiceState) (p0 : Z) :
  observe jobID st = Some p0 ->
  map (observe jobID) (trace acts st)
  = map Some (seen p0 (map (progressWritten jobID) acts)).
Proof.
  revert st p0. induction acts as [|a acts IH]; intros st p0 H; cbn.
  - rewrite H. reflexivity.
  - rewrite H. f_equal. apply IH. apply observe_perform. exact H.
Qed.

(** A run is non-decreasing when the values written are. *)
Lemma seen_sorted (p0 : Z) (written : list (option Z)) :
  StronglySorted Z.le (p0 :: omap id written) ->
  StronglySorted Z.le (seen p0 written).
Proof.
  revert p0. induction written as [|w rest IH]; intros p0 HS; cbn.
  - repeat constructor.
  - assert (HT : StronglySorted Z.le (default p0 w :: omap id rest)).
    { destruct w as [p|]; cbn in *; [|exact HS].
      inversion HS; subst. assumption. }
    specialize (IH _ HT).
    constructor; [exact IH|].
    assert (Hle : p0 <= default p0 w).
    { destruct w as [p|]; cbn in *; [|lia].
      inversion HS as [|? ? _ HF]; subst. inversion HF; subst. assumption. }
    assert (HA : forall q l, StronglySorted Z.le (q :: l) -> Forall (Z.le q) l).
    { intros q l Hs. inversion Hs; assumption. }
    destruct rest as [|w' rest']; cbn in *.
    + repeat constructor. exact Hle.
    + constructor; [exact Hle|].
      inversion IH as [|? ? _ HF]; subst.
      eapply Forall_impl; [exact HF|]. cbn. intros; lia.
Qed.

(** The invariant of a job record. *)
Definition stamped (job : DownloadJob) : Prop :=
  CompletedAt job <> None <-> (Status job = "completed" \/ Status job = "failed").

(** The store steps the program takes: [updateJobStatus] has one call site,
    the recovery of the asynchronous unit, which passes a terminal status. *)
Definition issued (a : Action) : Prop :=
  match a with
  | ActStatus _ status _ _ _ => isTerminal status = true
  | _ => True
  end.

Lemma isTerminal_spec (status : string) :
  isTerminal status = true <-> (status = "completed" \/ status = "failed").
Proof.
  unfold isTerminal. rewrite orb_true_iff, !String.eqb_eq. reflexivity.
Qed.

Lemma stamped_insert (js : gmap string DownloadJob) (jobID : string) (job : DownloadJob) :
  map_Forall (fun _ j => stamped j) js -> stamped job ->
  map_Forall (fun _ j => stamped j) (<[jobID := job]> js).
Proof. intros H Hj. apply map_Forall_insert_2; assumption. Qed.

Lemma perform_stamped (st : ServiceState) (a : Action) :
  issued a ->
  map_Forall (fun _ j => stamped j) (jobs st) ->
  map_Forall (fun _ j => stamped j) (jobs (perform st a)).
Proof.
  intros Hi H.
  destruct a as [j now|msg|msg|j progress|j status progress errorMsg now|j now|];
    cbn [perform jobs]; try exact H.
  - apply stamped_insert; [exact H|]. unfold stamped. cbn. split.
    + congruence.
    + intros [?|?]; discriminate.
  - unfold updateJobProgress. destruct (jobs st !! j) as [job|] eqn:E; [|exact H].
    apply stamped_insert; [exact H|]. exact (H _ _ E).
  - unfold updateJobStatus. destruct (jobs st !! j) as [job|] eqn:E; [|exact H].
    apply stamped_insert; [exact H|]. cbn in Hi. unfold stamped. cbn.
    rewrite Hi. apply isTerminal_spec in Hi. split; [intros _; exact Hi|discriminate].
  - unfold completeJob. destruct (jobs st !! j) as [job|] eqn:E; [|exact H].
    apply stamped_insert; [exact H|]. unfold stamped. cbn. split; [auto|discriminate].
Qed.

Lemma accountLoop_issued (env : Env) (factory : ScraperFactory)
      (jobID fromDate toDate folder : string) (total i : Z) (accounts : list string) :
  Forall issued (fst (accountLoop env factory jobID fromDate toDate folder total i accounts)).
Proof.
  revert i. induction accounts as [|account rest IH]; intros i; cbn [accountLoop].
  - constructor.
  - unfold loopBody.
    destruct (downloadAccountData env factory account fromDate toDate folder)
      as [lines result].
    assert (HL : Forall issued (map ActLog lines)).
    { apply Forall_map. apply Forall_forall. intros; exact I. }
    specialize (IH (i + 1)).
    destruct (accountLoop env factory jobID fromDate toDate folder total (i + 1) rest)
      as [steps' p'].
    destruct result; cbn [fst].
    + rewrite <- !app_comm_cons. constructor; [exact I|].
      rewrite <- app_assoc. apply Forall_app. split; [exact HL|].
      constructor; [exact I|exact IH].
    + rewrite <- !app_comm_cons. constructor; [exact I|].
      rewrite <- app_assoc. apply Forall_app. split; [exact HL|].
      repeat (constructor; [exact I|]). exact IH.
    + constructor; [exact I|exact HL].
Qed.

(** Every step [ProcessAsync] takes is one of the issued steps. *)
Lemma ProcessAsync_issued (env : Env) (factory : ScraperFactory)
      (jobID : string) (accounts : list string) (fromDate toDate : string)
      (tStart : Time) (folder : string) (tEnd : Time) :
  Forall issued (ProcessAsync env factory jobID accounts fromDate toDate tStart folder tEnd).
Proof.
  unfold ProcessAsync, asyncUnit.
  pose proof (accountLoop_issued env factory jobID fromDate toDate folder
                (Z.of_nat (length accounts)) 0 accounts) as HL.
  destruct (accountLoop env factory jobID fromDate toDate folder
              (Z.of_nat (length accounts)) 0 accounts) as [steps p].
  constructor; [exact I|]. constructor; [exact I|].
  apply Forall_app. split; [exact HL|].
  destruct p; repeat (constructor; try exact I).
Qed.

Lemma run_stamped (acts : list Action) (st : ServiceState) :
  Forall issued acts ->
  map_Forall (fun _ j => stamped j) (jobs st) ->
  map_Forall (fun _ j => stamped j) (jobs (run acts st)).
Proof.
  revert st. induction acts as [|a acts IH]; intros st HI H0; [exact H0|].
  inversion HI; subst. rewrite run_cons. apply IH; [assumption|].
  apply perform_stamped; assumption.
Qed.

(** [updateJobStatus] by itself keeps the invariant when the status it
    writes is terminal or the job has no [CompletedAt] yet; it does not
    clear [CompletedAt], so moving a finished job back to a status that is
    not terminal would leave the stamp behind.  No call does that. *)
Lemma updateJobStatus_stamped (js : gmap string DownloadJob) (j status : string)
      (progress : Z) (errorMsg : string) (now : Time) :
  map_Forall (fun _ job => stamped job) js ->
  (isTerminal status = true
   \/ forall job, js !! j = Some job -> CompletedAt job = None) ->
  map_Forall (fun _ job => stamped job)
             (updateJobStatus js j status progress errorMsg now).
Proof.
  intros H Hok. unfold updateJobStatus.
  destruct (js !! j) as [job|] eqn:E; [|exact H].
  apply stamped_insert; [exact H|]. unfold stamped. cbn.
  destruct (isTerminal status) eqn:ET.
  - apply isTerminal_spec in ET. split; [intros _; exact ET|discriminate].
  - destruct Hok as [Hok|Hok]; [discriminate|]. rewrite (Hok job eq_refl).
    split; [congruence|]. intros HT. apply isTerminal_spec in HT. congruence.
Qed.

Example updateJobStatus_keeps_stamp :
  updateJobStatus
    {["j" := mkDownloadJob "j" "failed" 0 0 "Internal error: x" 1 (Some 2)]}
    "j" "processing" 50 EmptyString 3 !! "j"
  = Some (mkDownloadJob "j" "processing" 50 0 "Internal error: x" 1 (Some 2)).
Proof. vm_compute. reflexivity. Qed.

(** C2: in every store reached from a new service by steps the program
    takes (registrations by [ProcessAsync], [updateJobProgress], the
    [updateJobStatus] of the recovery, completion writes, in any number and
    order), each job has [CompletedAt] set exactly when its status is
    completed or failed; a registered job is processing with no
    [CompletedAt]; and [updateJobStatus] with a terminal status and the
    completion write both stamp it. *)
Theorem CompletedAt_iff_terminal (acts : list Action) (jobID : string) (job : DownloadJob) :
  Forall issued acts ->
  Services.GetJobStatus (jobs (run acts NewDownloadService)) jobID = Some job ->
  (CompletedAt job <> None <-> (Status job = "completed" \/ Status job = "failed"))
  /\ (forall js now,
         registerJob js jobID now !! jobID
         = Some (mkDownloadJob jobID "processing" 0 0 EmptyString now None))
  /\ (forall js j status progress errorMsg now job',
         isTerminal status = true ->
         updateJobStatus js j status progress errorMsg now !! j = Some job' ->
         CompletedAt job' = Some now)
  /\ (forall js j now job',
         completeJob js j now !! j = Some job' ->
         CompletedAt job' = Some now /\ Status job' = "completed").
Proof.
  intros HI HJ. split; [|split; [|split]].
  - assert (HA : map_Forall (fun _ j => stamped j) (jobs (run acts NewDownloadService))).
    { apply run_stamped; [exact HI|]. apply map_Forall_empty. }
    exact (HA _ _ HJ).
  - intros js now. unfold registerJob. apply lookup_insert_eq.
  - intros js j status progress errorMsg now job' HT. unfold updateJobStatus.
    destruct (js !! j) as [old|] eqn:E.
    + rewrite lookup_insert_eq, HT. intros [= <-]. reflexivity.
    + rewrite E. discriminate.
  - intros js j now job'. unfold completeJob.
    destruct (js !! j) as [old|] eqn:E.
    + rewrite lookup_insert_eq. intros [= <-]. split; reflexivity.
    + rewrite E. discriminate.
Qed.

(** ** A run of the asynchronous unit *)

(** What a step does to the record of job [jobID], once it is there. *)
Definition effect (jobID : string) (a : Action) (job : DownloadJob) : DownloadJob :=
  match a with
  | ActRegister j now =>
      if String.eqb j jobID
      then mkDownloadJob j "processing" 0 0 EmptyString now None else job
  | ActProgress j progress =>
      if String.eqb j jobID then withProgress job progress else job
  | ActStatus j status progress errorMsg now =>
      if String.eqb j jobID
      then mkDownloadJob (ID job) status progress (TotalRecords job)
             (if nonEmpty errorMsg then errorMsg else ErrorMessage job)
             (StartedAt job)
             (if isTerminal status then Some now else CompletedAt job)
      else job
  | ActComplete j now =>
      if String.eqb j jobID
      then mkDownloadJob (ID job) "completed" 100 (TotalRecords job)
             (ErrorMessage job) (StartedAt job) (Some now)
      else job
  | ActLog _ | ActLoggerPrintf _ | ActSleep => job
  end.

Lemma perform_job (jobID : string) (st : ServiceState) (a : Action) (job : DownloadJob) :
  jobs st !! jobID = Some job ->
  jobs (perform st a) !! jobID = Some (effect jobID a job).
Proof.
  intros EJ.
  destruct a as [j now|msg|msg|j progress|j status progress errorMsg now|j now|];
    cbn [perform jobs effect]; try exact EJ;
    (destruct (String.eqb j jobID) eqn:E;
     [apply String.eqb_eq in E; subst j
     |apply String.eqb_neq in E]).
  - unfold registerJob. apply lookup_insert_eq.
  - unfold registerJob. rewrite lookup_insert_ne by exact E. exact EJ.
  - unfold updateJobProgress. rewrite EJ. apply lookup_insert_eq.
  - unfold updateJobProgress. destruct (jobs st !! j);
      rewrite ?lookup_insert_ne by exact E; exact EJ.
  - unfold updateJobStatus. rewrite EJ. apply lookup_insert_eq.
  - unfold updateJobStatus. destruct (jobs st !! j);
      rewrite ?lookup_insert_ne by exact E; exact EJ.
  - unfold completeJob. rewrite EJ. apply lookup_insert_eq.
  - unfold completeJob. destruct (jobs st !! j);
      rewrite ?lookup_insert_ne by exact E; exact EJ.
Qed.

Lemma run_job (jobID : string) (acts : list Action) (st : ServiceState) (job : DownloadJob) :
  jobs st !! jobID = Some job ->
  jobs (run acts st) !! jobID = Some (fold_left (fun j a => effect jobID a j) acts job).
Proof.
  revert st job. induction acts as [|a acts IH]; intros st job H; [exact H|].
  rewrite run_cons. cbn [fold_left]. apply IH. apply perform_job. exact H.
Qed.

(** The steps of a turn that does not panic: progress writes for the job,
    log lines and the pause. *)
Definition benign (jobID : string) (a : Action) : Prop :=
  match a with
  | ActProgress j _ => j = jobID
  | ActLog _ | ActSleep => True
  | _ => False
  end.

Lemma effect_benign (jobID : string) (acts : list Action) (job : DownloadJob) :
  Forall (benign jobID) acts ->
  exists progress,
    fold_left (fun j a => effect jobID a j) acts job
    = withProgress job progress.
Proof.
  revert job. induction acts as [|a acts IH]; intros job HF.
  - exists (Progress job). destruct job; reflexivity.
  - inversion HF as [|? ? Ha Hrest]; subst. cbn [fold_left].
    destruct (IH (effect jobID a job) Hrest) as [p Hp]. rewrite Hp.
    destruct a; cbn in Ha; try contradiction; cbn [effect]; eauto.
    subst. rewrite (String.eqb_refl jobID). exists p. destruct job; reflexivity.
Qed.

(** A record that shows no failure. *)
Definition unfailed (job : DownloadJob) : Prop :=
  ErrorMessage job = EmptyString
  /\ (Status job = "processing" \/ Status job = "completed").

Definition calm (a : Action) : Prop :=
  match a with
  | ActStatus _ _ _ _ _ => False
  | _ => True
  end.

Lemma effect_unfailed (jobID : string) (a : Action) (job : DownloadJob) :
  calm a -> unfailed job -> unfailed (effect jobID a job).
Proof.
  intros Hc [He Hs]. unfold unfailed.
  destruct a; cbn in Hc; try contradiction; cbn [effect];
    try (destruct (String.eqb _ jobID)); cbn; auto.
Qed.

Lemma trace_unfailed (jobID : string) (acts : list Action) (st : ServiceState)
      (job : DownloadJob) :
  Forall calm acts -> jobs st !! jobID = Some job -> unfailed job ->
  Forall (fun s => exists j, jobs s !! jobID = Some j /\ unfailed j) (trace acts st).
Proof.
  revert st job. induction acts as [|a acts IH]; intros st job HF HJ HU; cbn [trace].
  - repeat constructor. eauto.
  - inversion HF; subst. constructor; [eauto|].
    eapply IH; [assumption|apply perform_job; exact HJ|].
    apply effect_unfailed; assumption.
Qed.

(** The lines handed to [logMessage] by a list of steps. *)
Definition logLine (a : Action) : option string :=
  match a with ActLog msg => Some msg | _ => None end.

Lemma logged_run (acts : list Action) (st : ServiceState) :
  logged (run acts st) = (logged st ++ omap logLine acts)%list.
Proof.
  revert st. induction acts as [|a acts IH]; intros st.
  - cbn. rewrite app_nil_r. reflexivity.
  - rewrite run_cons, IH. destruct a; cbn; try reflexivity.
    rewrite <- app_assoc. reflexivity.
Qed.

Lemma omap_cons_eq {A B : Type} (f : A -> option B) (a : A) (l : list A) :
  omap f (a :: l) = match f a with
                    | Some b => b :: omap f l
                    | None => omap f l
                    end.
Proof. reflexivity. Qed.

Section AsyncUnit.
Variable env : Env.
Variable factory : ScraperFactory.
Variables jobID fromDate toDate folder : string.
Variable total : Z.

Let loop := accountLoop env factory jobID fromDate toDate folder total.
Let download (account : string) :=
  downloadAccountData env factory account fromDate toDate folder.

(** A loop that ends without a panic took only benign steps, wrote the
    progress of each account in turn, and logged each account error. *)
Lemma accountLoop_completed (accounts : list string) (i : Z) :
  snd (loop i accounts) = None ->
  Forall (benign jobID) (fst (loop i accounts))
  /\ omap (progressWritten jobID) (fst (loop i accounts))
     = map (fun k => progressOf k total) (seqZ i (Z.of_nat (length accounts)))
  /\ (forall account err,
         In account accounts ->
         snd (download account) = Errors err ->
         In (ActLog ("Error downloading data for account " ++ account ++ ": " ++ err))
            (fst (loop i accounts))).
Proof.
  revert i. induction accounts as [|account rest IH]; intros i; subst loop download.
  - cbn. intros _. repeat split; [constructor|]. intros ? ? [].
  - cbn [accountLoop]. unfold loopBody.
    destruct (downloadAccountData env factory account fromDate toDate folder)
      as [lines result] eqn:ED.
    specialize (IH (i + 1)).
    destruct (accountLoop env factory jobID fromDate toDate folder total (i + 1) rest)
      as [steps' p'].
    assert (HL : Forall (benign jobID) (map ActLog lines)).
    { apply Forall_map. apply Forall_forall. intros; exact I. }
    assert (HW : omap (progressWritten jobID) (map ActLog lines) = []).
    { clear. induction lines; [reflexivity|]. cbn. exact IHlines. }
    replace (Z.of_nat (length (account :: rest)))
      with (Z.succ (Z.of_nat (length rest))) by (cbn [length]; lia).
    rewrite seqZ_cons by lia. rewrite Z.pred_succ. cbn [map].
    destruct result as [u|err0|v]; cbn [fst snd]; intros Hp;
      [| |discriminate]; destruct (IH Hp) as [IH1 [IH2 IH3]]; clear IH.
    + split; [|split].
      * rewrite <- !app_comm_cons. constructor; [reflexivity|].
        rewrite <- app_assoc. apply Forall_app. split; [exact HL|].
        constructor; [exact I|exact IH1].
      * rewrite <- !app_comm_cons, omap_cons_eq. cbn [progressWritten].
        rewrite (String.eqb_refl jobID). f_equal.
        rewrite <- app_assoc, omap_app, HW. cbn [app].
        rewrite !omap_cons_eq. cbn [progressWritten].
        rewrite <- Z.add_1_r. exact IH2.
      * intros account' err [<-|Hin] He.
        -- cbn in He. rewrite ED in He. discriminate.
        -- apply in_or_app. right. apply IH3; assumption.
    + split; [|split].
      * rewrite <- !app_comm_cons. constructor; [reflexivity|].
        rewrite <- app_assoc. apply Forall_app. split; [exact HL|].
        repeat (constructor; [exact I|]). exact IH1.
      * rewrite <- !app_comm_cons, omap_cons_eq. cbn [progressWritten].
        rewrite (String.eqb_refl jobID). f_equal.
        rewrite <- app_assoc, omap_app, HW. cbn [app].
        rewrite !omap_cons_eq. cbn [progressWritten].
        rewrite <- Z.add_1_r. exact IH2.
      * intros account' err [<-|Hin] He.
        -- cbn in He. rewrite ED in He. cbn in He. injection He as <-.
           apply in_or_app. left. apply in_or_app. right. left. reflexivity.
        -- apply in_or_app. right. apply IH3; assumption.
Qed.

(** Account errors never end the loop: only a panic does. *)
Lemma accountLoop_only_panics_stop (accounts : list string) (i : Z) :
  Forall (fun account => forall v, snd (download account) <> Panics v) accounts ->
  snd (loop i accounts) = None.
Proof.
  revert i. induction accounts as [|account rest IH]; intros i HF; subst loop download.
  - reflexivity.
  - inversion HF as [|? ? Ha Hrest]; subst. cbn [accountLoop]. unfold loopBody.
    specialize (IH (i + 1) Hrest). cbn beta in Ha.
    destruct (downloadAccountData env factory account fromDate toDate folder)
      as [lines result].
    destruct (accountLoop env factory jobID fromDate toDate folder total (i + 1) rest)
      as [steps' p'].
    destruct result; cbn in *; try exact IH.
    exfalso. eapply Ha. reflexivity.
Qed.

End AsyncUnit.

(** ** Binary64 rounding

    The progress of an account is computed in [float64].  What follows
    shows, from the definitions of [SpecFloat], that conversion, division
    and multiplication round to a nearest binary64 value when no overflow
    or underflow is near, and concludes that the progress does not go down
    from one account to the next and reaches 100 at the last one. *)
Module Binary64.

(** The rational [2^e], and the value [m * 2^e] of a mantissa and an
    exponent. *)
Definition pow2 (e : Z) : Q := (2 ^ e)%Q.

Definition F2Q (m e : Z) : Q := (inject_Z m * pow2 e)%Q.

Lemma pow2_pos (e : Z) : (0 < pow2 e)%Q.
Proof. apply Qpower_0_lt. reflexivity. Qed.

Lemma pow2_add (a b : Z) : (pow2 (a + b) == pow2 a * pow2 b)%Q.
Proof. apply Qpower_plus. discriminate. Qed.

Lemma pow2_succ (e : Z) : (pow2 (e + 1) == 2 * pow2 e)%Q.
Proof. rewrite pow2_add. unfold pow2 at 2. simpl. ring. Qed.

Lemma pow2_Z (k : Z) : 0 <= k -> (pow2 k == inject_Z (2 ^ k))%Q.
Proof. intros H. unfold pow2. rewrite Zpower_Qpower by exact H. reflexivity. Qed.

Lemma pow2_le (a b : Z) : a <= b -> (pow2 a <= pow2 b)%Q.
Proof. intros H. apply Qpower_le_compat_l; [exact H|]. discriminate. Qed.

Lemma F2Q_le (a b e : Z) : a <= b -> (F2Q a e <= F2Q b e)%Q.
Proof.
  intros H. unfold F2Q. apply Qmult_le_compat_r.
  - rewrite <- Zle_Qle. exact H.
  - apply Qlt_le_weak, pow2_pos.
Qed.

Lemma F2Q_shift (m e k : Z) : 0 <= k -> (F2Q m (e + k) == F2Q (m * 2 ^ k) e)%Q.
Proof.
  intros H. unfold F2Q. rewrite pow2_add, (pow2_Z k H), inject_Z_mult. ring.
Qed.

(** [digits2_pos p] is the number of bits of [p]. *)
Lemma digits2_pos_spec (p : positive) :
  2 ^ (Zpos (digits2_pos p) - 1) <= Zpos p < 2 ^ Zpos (digits2_pos p).
Proof.
  induction p as [p IH|p IH|]; cbn [digits2_pos].
  - rewrite Pos2Z.inj_succ. replace (Z.succ (Zpos (digits2_pos p)) - 1) with (Z.succ (Zpos (digits2_pos p) - 1)) by lia.
    rewrite !Z.pow_succ_r by lia. lia.
  - rewrite Pos2Z.inj_succ. replace (Z.succ (Zpos (digits2_pos p)) - 1) with (Z.succ (Zpos (digits2_pos p) - 1)) by lia.
    rewrite !Z.pow_succ_r by lia. lia.
  - cbn. lia.
Qed.

Lemma digits_unique (m d : Z) :
  2 ^ (d - 1) <= m < 2 ^ d -> 0 < d -> 0 < m -> Zdigits2 m = d.
Proof.
  intros H Hd Hm. destruct m as [|p|p]; try lia. cbn [Zdigits2].
  pose proof (digits2_pos_spec p) as Hs.
  set (d' := Zpos (digits2_pos p)) in *.
  assert (Hd' : 0 < d') by (subst d'; lia).
  destruct (Z.lt_trichotomy d d') as [Hlt|[Heq|Hgt]]; [exfalso| congruence |exfalso].
  - assert (2 ^ d <= 2 ^ (d' - 1)) by (apply Z.pow_le_mono_r; lia). lia.
  - assert (2 ^ d' <= 2 ^ (d - 1)) by (apply Z.pow_le_mono_r; lia). lia.
Qed.

Lemma F2Q_scale (k m e : Z) : (F2Q (k * m) e == inject_Z k * F2Q m e)%Q.
Proof. unfold F2Q. rewrite inject_Z_mult. ring. Qed.

Lemma F2Q_up (m e : Z) : (F2Q m (e + 1) == 2 * F2Q m e)%Q.
Proof. unfold F2Q. rewrite pow2_succ. ring. Qed.

(** [x] lies in the slot of width [2^e] that starts at [m * 2^e], at the
    place the round bit [r] and the sticky bit [s] say: on the lower end,
    strictly below the middle, on the middle, or strictly above it. *)
Definition located (x : Q) (m e : Z) (r s : bool) : Prop :=
  (F2Q m e <= x /\ x < F2Q (m + 1) e)%Q
  /\ match r, s with
     | false, false => (x == F2Q m e)%Q
     | false, true => (F2Q m e < x /\ 2 * x < F2Q (2 * m + 1) e)%Q
     | true, false => (2 * x == F2Q (2 * m + 1) e)%Q
     | true, true => (F2Q (2 * m + 1) e < 2 * x)%Q
     end.

(** One step of [shr] halves the mantissa, moves its last bit into the
    round bit and folds the old round bit into the sticky bit. *)
Lemma shr_1_eq (m : Z) (r s : bool) :
  0 <= m ->
  shr_1 (Build_shr_record m r s) = Build_shr_record (m / 2) (Z.odd m) (r || s).
Proof.
  intros Hm.
  assert (Hdiv : forall p b, 0 <= b < 2 -> p = (2 * p + b) / 2).
  { intros p b Hb. apply (Z.div_unique _ 2 p b); lia. }
  destruct m as [|[p|p|]|p]; try lia; cbn [shr_1]; f_equal.
  - rewrite Pos2Z.inj_xI. apply Hdiv. lia.
  - rewrite (Pos2Z.inj_xO p). apply (Hdiv (Z.pos p) 0). lia.
Qed.

Lemma F2Q_lin (a b q e : Z) :
  (F2Q (a * q + b) e == inject_Z a * F2Q q e + inject_Z b * pow2 e)%Q.
Proof. unfold F2Q. rewrite inject_Z_plus, inject_Z_mult. ring. Qed.

Lemma F2Q_lin_up (a b q e : Z) :
  (F2Q (a * q + b) (e + 1)
   == 2 * (inject_Z a * F2Q q e + inject_Z b * pow2 e))%Q.
Proof. rewrite F2Q_up, F2Q_lin. reflexivity. Qed.

(** The step keeps [x] located, in the slot twice as wide. *)
Lemma shr_1_located (x : Q) (m e : Z) (r s : bool) :
  0 <= m -> located x m e r s ->
  located x (m / 2) (e + 1) (Z.odd m) (r || s).
Proof.
  intros Hm [[Hlo Hhi] Hloc].
  pose proof (pow2_pos e) as HT.
  pose proof (Z.div2_odd m) as Hm2. rewrite Z.div2_div in Hm2.
  set (q := m / 2) in *. unfold located.
  clearbody q. clear Hm.
  pose proof (F2Q_lin_up 1 0 q e) as U0.
  pose proof (F2Q_lin_up 1 1 q e) as U1.
  pose proof (F2Q_lin_up 2 1 q e) as U2.
  replace (1 * q + 0) with q in U0 by lia.
  replace (1 * q + 1) with (q + 1) in U1 by lia.
  unfold inject_Z in U0, U1, U2.
  destruct (Z.odd m); cbn [Z.b2z] in Hm2; subst m.
  - pose proof (F2Q_lin 2 1 q e) as L1.
    pose proof (F2Q_lin 2 2 q e) as L2.
    pose proof (F2Q_lin 4 3 q e) as L3.
    replace (2 * q + 1 + 1) with (2 * q + 2) in * by lia.
    replace (2 * (2 * q + 1) + 1) with (4 * q + 3) in * by lia.
    unfold inject_Z in L1, L2, L3.
    destruct r, s; cbn [orb]; (split; [split|]); lra.
  - pose proof (F2Q_lin 2 0 q e) as L1.
    pose proof (F2Q_lin 2 1 q e) as L2.
    pose proof (F2Q_lin 4 1 q e) as L3.
    replace (2 * (2 * q + 0) + 1) with (4 * q + 1) in * by lia.
    replace (2 * q + 0 + 1) with (2 * q + 1) in * by lia.
    unfold inject_Z in L1, L2, L3.
    destruct r, s; cbn [orb]; (split; [split|]); lra.
Qed.

Lemma iter_shr_located (k : positive) :
  forall (x : Q) (m e : Z) (r s : bool),
    0 <= m -> located x m e r s ->
    let rec' := SpecFloat.iter_pos shr_1 k (Build_shr_record m r s) in
    located x (shr_m rec') (e + Zpos k) (shr_r rec') (shr_s rec')
    /\ shr_m rec' = m / 2 ^ Zpos k.
Proof.
  assert (Hstep : forall x m e r s, 0 <= m -> located x m e r s ->
            let rec' := shr_1 (Build_shr_record m r s) in
            located x (shr_m rec') (e + 1) (shr_r rec') (shr_s rec')
            /\ shr_m rec' = m / 2 ^ 1).
  { intros x m e r s Hm HL. cbv zeta. rewrite (shr_1_eq _ _ _ Hm).
    cbn [shr_m shr_r shr_s]. split; [apply shr_1_located; assumption|reflexivity]. }
  assert (Hnn : forall m j, 0 <= m -> 0 <= m / 2 ^ Zpos j).
  { intros m j Hm. apply Z.div_pos; [exact Hm|]. apply Z.pow_pos_nonneg; lia. }
  assert (Hdd : forall m a b, 0 <= m -> 0 < a -> 0 < b ->
            m / 2 ^ a / 2 ^ b = m / 2 ^ (a + b)).
  { intros m a b Hm Ha Hb. rewrite Z.div_div, <- Z.pow_add_r by
      (try apply Z.pow_pos_nonneg; lia). reflexivity. }
  induction k as [k IH|k IH|]; intros x m e r s Hm HL; cbn [SpecFloat.iter_pos].
  - destruct (Hstep x m e r s Hm HL) as [H1 E1].
    destruct (shr_1 (Build_shr_record m r s)) as [m1 r1 s1]. cbn [shr_m shr_r shr_s] in *.
    assert (Hm1 : 0 <= m1) by (subst m1; apply Z.div_pos; lia).
    destruct (IH x m1 (e + 1) r1 s1 Hm1 H1) as [H2 E2].
    destruct (SpecFloat.iter_pos shr_1 k (Build_shr_record m1 r1 s1)) as [m2 r2 s2].
    cbn [shr_m shr_r shr_s] in *.
    assert (Hm2 : 0 <= m2) by (subst m2; apply Hnn; exact Hm1).
    destruct (IH x m2 (e + 1 + Zpos k) r2 s2 Hm2 H2) as [H3 E3].
    cbv zeta. split.
    + replace (e + Zpos k~1) with (e + 1 + Zpos k + Zpos k) by lia. exact H3.
    + rewrite E3, E2, E1. rewrite !Hdd by (try apply Z.div_pos; lia).
      f_equal. f_equal. lia.
  - destruct (IH x m e r s Hm HL) as [H2 E2].
    destruct (SpecFloat.iter_pos shr_1 k (Build_shr_record m r s)) as [m2 r2 s2].
    cbn [shr_m shr_r shr_s] in *.
    assert (Hm2 : 0 <= m2) by (subst m2; apply Hnn; exact Hm).
    destruct (IH x m2 (e + Zpos k) r2 s2 Hm2 H2) as [H3 E3].
    cbv zeta. split.
    + replace (e + Zpos k~0) with (e + Zpos k + Zpos k) by lia. exact H3.
    + rewrite E3, E2. rewrite !Hdd by lia. f_equal. f_equal. lia.
  - apply Hstep; assumption.
Qed.

Lemma shr_located (x : Q) (m e n : Z) (r s : bool) :
  0 <= n -> 0 <= m -> located x m e r s ->
  exists m' r' s',
    shr (Build_shr_record m r s) e n = (Build_shr_record m' r' s', e + n)
    /\ located x m' (e + n) r' s' /\ m' = m / 2 ^ n.
Proof.
  intros Hn Hm HL. destruct n as [|k|k]; try lia.
  - exists m, r, s. cbn [shr]. rewrite Z.add_0_r, Z.div_1_r. auto.
  - cbn [shr]. destruct (iter_shr_located k x m e r s Hm HL) as [H E].
    destruct (SpecFloat.iter_pos shr_1 k (Build_shr_record m r s)) as [m' r' s'].
    exists m', r', s'. auto.
Qed.

(** [v] is as near to [x] as any value with a mantissa of at most 53
    bits, whatever its exponent. *)
Definition nearest (x v : Q) : Prop :=
  forall mg eg, 0 <= mg < 2 ^ 53 ->
    ((F2Q mg eg <= x -> v - x <= x - F2Q mg eg /\ x - v <= x - F2Q mg eg)
     /\ (x <= F2Q mg eg -> v - x <= F2Q mg eg - x /\ x - v <= F2Q mg eg - x))%Q.

(** No value with a 53-bit mantissa lies strictly inside the slot of a
    full mantissa [m1]. *)
Lemma gap (m1 e1 mg eg : Z) :
  2 ^ 52 <= m1 -> 0 <= mg < 2 ^ 53 ->
  (F2Q mg eg <= F2Q m1 e1 \/ F2Q (m1 + 1) e1 <= F2Q mg eg)%Q.
Proof.
  intros H1 Hg. destruct (Z_le_gt_dec e1 eg) as [Hle|Hgt].
  - replace eg with (e1 + (eg - e1)) by lia.
    rewrite (F2Q_shift mg e1 (eg - e1)) by lia.
    destruct (Z_le_gt_dec (mg * 2 ^ (eg - e1)) m1).
    + left. apply F2Q_le. assumption.
    + right. apply F2Q_le. lia.
  - left. replace e1 with (eg + (e1 - eg)) by lia.
    rewrite (F2Q_shift m1 eg (e1 - eg)) by lia. apply F2Q_le.
    assert (2 ^ 1 <= 2 ^ (e1 - eg)) by (apply Z.pow_le_mono_r; lia).
    change (2 ^ 53) with (2 ^ 52 * 2 ^ 1) in Hg. nia.
Qed.

Lemma nearest_of_slot (x : Q) (m1 e1 : Z) (v : Q) :
  2 ^ 52 <= m1 ->
  (F2Q m1 e1 <= x)%Q -> (x < F2Q (m1 + 1) e1)%Q ->
  (v == F2Q m1 e1 \/ v == F2Q (m1 + 1) e1)%Q ->
  (2 * (v - x) <= pow2 e1)%Q -> (2 * (x - v) <= pow2 e1)%Q ->
  nearest x v.
Proof.
  intros Hm Hlo Hhi Hv Hd1 Hd2 mg eg Hg.
  pose proof (F2Q_lin 1 1 m1 e1) as L. replace (1 * m1 + 1) with (m1 + 1) in L by lia.
  unfold inject_Z in L.
  destruct (gap m1 e1 mg eg Hm Hg) as [G|G]; destruct Hv as [Hv|Hv];
    split; intros Hc; split; lra.
Qed.

(** Rounding to nearest keeps the order. *)
Lemma nearest_monotone (x y v w : Q) (mv ev mw ew : Z) :
  nearest x v -> nearest y w ->
  (v == F2Q mv ev)%Q -> 0 <= mv < 2 ^ 53 ->
  (w == F2Q mw ew)%Q -> 0 <= mw < 2 ^ 53 ->
  (x < y)%Q -> (v <= w)%Q.
Proof.
  intros Nx Ny Ev Hv Ew Hw Hxy.
  destruct (Nx mw ew Hw) as [A1 A2]. destruct (Ny mv ev Hv) as [B1 B2].
  destruct (Qlt_le_dec w v) as [Hlt|Hle]; [exfalso|exact Hle].
  destruct (Qlt_le_dec x (F2Q mw ew)) as [C|C].
  - destruct A2 as [A2 _]; lra.
  - destruct (A1 C) as [A1' _].
    destruct (Qlt_le_dec (F2Q mv ev) y) as [D|D].
    + destruct B1 as [_ B1]; lra.
    + destruct (B2 D) as [_ B2']. lra.
Qed.

(** Rounding to nearest leaves a representable value as it is. *)
Lemma nearest_exact (x v : Q) (mg eg : Z) :
  nearest x v -> (x == F2Q mg eg)%Q -> 0 <= mg < 2 ^ 53 -> (v == x)%Q.
Proof.
  intros N E Hg. destruct (N mg eg Hg) as [A _].
  destruct A as [A1 A2]; lra.
Qed.

Lemma F2Q_normal_inj_le (m e m' e' : Z) :
  2 ^ 52 <= m < 2 ^ 53 -> 2 ^ 52 <= m' < 2 ^ 53 ->
  (F2Q m e == F2Q m' e')%Q -> e <= e' -> m = m' /\ e = e'.
Proof.
  intros Hm Hm' E Hle.
  replace e' with (e + (e' - e)) in E by lia.
  rewrite (F2Q_shift m' e (e' - e)) in E by lia.
  assert (Heq : m = m' * 2 ^ (e' - e)).
  { destruct (Z.lt_trichotomy m (m' * 2 ^ (e' - e))) as [H|[H|H]];
      [exfalso|exact H|exfalso].
    - assert (F2Q m e < F2Q (m' * 2 ^ (e' - e)) e)%Q.
      { unfold F2Q. apply Qmult_lt_compat_r; [apply pow2_pos|].
        rewrite <- Zlt_Qlt. exact H. }
      lra.
    - assert (F2Q (m' * 2 ^ (e' - e)) e < F2Q m e)%Q.
      { unfold F2Q. apply Qmult_lt_compat_r; [apply pow2_pos|].
        rewrite <- Zlt_Qlt. exact H. }
      lra. }
  destruct (Z.eq_dec e e') as [->|Hne].
  - rewrite Z.sub_diag in Heq. cbn in Heq. lia.
  - exfalso. assert (2 ^ 1 <= 2 ^ (e' - e)) by (apply Z.pow_le_mono_r; lia).
    change (2 ^ 53) with (2 ^ 52 * 2 ^ 1) in *. nia.
Qed.

Lemma F2Q_normal_inj (m e m' e' : Z) :
  2 ^ 52 <= m < 2 ^ 53 -> 2 ^ 52 <= m' < 2 ^ 53 ->
  (F2Q m e == F2Q m' e')%Q -> m = m' /\ e = e'.
Proof.
  intros Hm Hm' E. destruct (Z_le_gt_dec e e').
  - apply F2Q_normal_inj_le; assumption.
  - destruct (F2Q_normal_inj_le m' e' m e Hm' Hm) as [-> ->];
      [symmetry; exact E|lia|]. split; reflexivity.
Qed.

(** The round and sticky bits of a location. *)
Definition roundBit (l : location) : bool :=
  match l with loc_Inexact Eq | loc_Inexact Gt => true | _ => false end.

Definition stickyBit (l : location) : bool :=
  match l with loc_Inexact Lt | loc_Inexact Gt => true | _ => false end.

Lemma shr_record_of_loc_bits (m : Z) (l : location) :
  shr_record_of_loc m l = Build_shr_record m (roundBit l) (stickyBit l).
Proof. destruct l as [|[| |]]; reflexivity. Qed.

Lemma fexp_normal (e : Z) : -1074 <= e - 53 -> fexp 53 1024 e = e - 53.
Proof. intros H. unfold fexp, emin. lia. Qed.

Lemma digits_bounds (m : Z) :
  0 < m -> 2 ^ (Zdigits2 m - 1) <= m < 2 ^ Zdigits2 m /\ 0 < Zdigits2 m.
Proof.
  intros Hm. destruct m as [|p|p]; try lia. cbn [Zdigits2].
  split; [apply digits2_pos_spec|lia].
Qed.

Lemma digits_ge (m k : Z) : 0 <= k -> 2 ^ k <= m -> k < Zdigits2 m.
Proof.
  intros Hk H. assert (Hm : 0 < m) by (pose proof (Z.pow_pos_nonneg 2 k); lia).
  destruct (digits_bounds m Hm) as [[_ Hu] Hd].
  destruct (Z_lt_le_dec k (Zdigits2 m)) as [Hlt|Hle]; [exact Hlt|exfalso].
  assert (2 ^ Zdigits2 m <= 2 ^ k) by (apply Z.pow_le_mono_r; lia). lia.
Qed.

Lemma digits_le (m k : Z) : 0 < m < 2 ^ k -> 0 <= k -> Zdigits2 m <= k.
Proof.
  intros Hm Hk. destruct (digits_bounds m) as [[Hl _] Hd]; [lia|].
  destruct (Z_le_gt_dec (Zdigits2 m) k) as [Hle|Hgt]; [exact Hle|exfalso].
  assert (2 ^ k <= 2 ^ (Zdigits2 m - 1)) by (apply Z.pow_le_mono_r; lia). lia.
Qed.

(** [binary_round_aux], the rounding step of every operation, returns a
    nearest value with a full mantissa when given at least 53 bits and an
    exponent in the normal range. *)
Theorem round_aux_nearest (x : Q) (mx ex : Z) (lx : location) :
  2 ^ 52 <= mx ->
  located x mx ex (roundBit lx) (stickyBit lx) ->
  -1074 <= ex -> Zdigits2 mx + ex <= 1023 ->
  exists m e,
    binary_round_aux 53 1024 false mx ex lx = S754_finite false m e
    /\ 2 ^ 52 <= Zpos m < 2 ^ 53
    /\ ex <= e <= Zdigits2 mx + ex - 52
    /\ nearest x (F2Q (Zpos m) e).
Proof.
  intros Hmx HL Hex Hov.
  assert (Hpos : 0 < mx) by lia.
  destruct (digits_bounds mx Hpos) as [[Hdl Hdu] Hd0].
  pose proof (digits_ge mx 52 ltac:(lia) Hmx) as Hd.
  set (d := Zdigits2 mx) in *.
  unfold binary_round_aux, shr_fexp. fold d.
  rewrite (fexp_normal (d + ex)) by lia.
  rewrite shr_record_of_loc_bits.
  destruct (shr_located x mx ex (d + ex - 53 - ex) _ _ ltac:(lia) ltac:(lia) HL)
    as [m1 [r1 [s1 [E1 [L1 Em1]]]]].
  rewrite E1. clear E1.
  replace (ex + (d + ex - 53 - ex)) with (d + ex - 53) in * by lia.
  replace (d + ex - 53 - ex) with (d - 53) in Em1 by lia.
  set (e1 := d + ex - 53) in *.
  assert (Hm1 : 2 ^ 52 <= m1 < 2 ^ 53).
  { assert (Hp : 0 < 2 ^ (d - 53)) by (apply Z.pow_pos_nonneg; lia).
    assert (Hs1 : 2 ^ (d - 1) = 2 ^ 52 * 2 ^ (d - 53)).
    { rewrite <- Z.pow_add_r by lia. f_equal. lia. }
    assert (Hs2 : 2 ^ d = 2 ^ 53 * 2 ^ (d - 53)).
    { rewrite <- Z.pow_add_r by lia. f_equal. lia. }
    subst m1. split.
    - apply Z.div_le_lower_bound; [exact Hp|]. lia.
    - apply Z.div_lt_upper_bound; [exact Hp|]. lia. }
  clear Em1.
  set (m2 := round_nearest_even (shr_m (Build_shr_record m1 r1 s1))
               (loc_of_shr_record (Build_shr_record m1 r1 s1))).
  pose proof (pow2_pos e1) as HT.
  pose proof (F2Q_lin 1 1 m1 e1) as Lhi.
  replace (1 * m1 + 1) with (m1 + 1) in Lhi by lia.
  pose proof (F2Q_lin 2 1 m1 e1) as Lmid.
  unfold inject_Z in Lhi, Lmid.
  assert (Hm2 : (m2 = m1 \/ m2 = m1 + 1)
                /\ (2 * (F2Q m2 e1 - x) <= pow2 e1)%Q
                /\ (2 * (x - F2Q m2 e1) <= pow2 e1)%Q).
  { destruct L1 as [[Hlo Hhi] Hloc]. subst m2.
    destruct r1, s1; cbn [loc_of_shr_record round_nearest_even shr_m].
    - split; [right; reflexivity|]. split; lra.
    - destruct (Z.even m1); (split; [auto|split; lra]).
    - split; [left; reflexivity|]. split; lra.
    - split; [left; reflexivity|]. split; lra. }
  clearbody m2. destruct Hm2 as [Hm2 [Hd1 Hd2]].
  destruct L1 as [[Hlo Hhi] _].
  destruct (Z_lt_le_dec m2 (2 ^ 53)) as [Hlt|Hge].
  - assert (Hdig : Zdigits2 m2 = 53) by (apply digits_unique; lia).
    rewrite Hdig, (fexp_normal (53 + e1)) by lia.
    replace (53 + e1 - 53 - e1) with 0 by lia. cbn [shr shr_record_of_loc shr_m].
    destruct m2 as [|p2|p2]; try lia.
    replace (e1 <=? 1024 - 53) with true by lia.
    exists p2, e1. split; [reflexivity|]. split; [lia|]. split; [lia|].
    apply (nearest_of_slot x m1 e1); try assumption; try lia.
    destruct Hm2 as [->| ->]; [left|right]; reflexivity.
  - assert (Em2 : m2 = 2 ^ 53) by lia.
    assert (Hdig : Zdigits2 m2 = 54) by (rewrite Em2; reflexivity).
    rewrite Hdig, (fexp_normal (54 + e1)) by lia.
    replace (54 + e1 - 53 - e1) with 1 by lia. rewrite Em2.
    cbn [shr shr_record_of_loc SpecFloat.iter_pos].
    change (shr_1 (Build_shr_record (2 ^ 53) false false))
      with (Build_shr_record (2 ^ 52) false false).
    cbn [shr_m]. change (2 ^ 52) with (Zpos (2 ^ 52)).
    replace (e1 + 1 <=? 1024 - 53) with true by lia.
    exists (2 ^ 52)%positive, (e1 + 1). split; [reflexivity|].
    split; [lia|]. split; [lia|].
    assert (Ev : (F2Q (Zpos (2 ^ 52)) (e1 + 1) == F2Q m2 e1)%Q).
    { rewrite Em2, F2Q_up. change (2 ^ 53) with (2 * Zpos (2 ^ 52)).
      rewrite F2Q_scale. reflexivity. }
    apply (nearest_of_slot x m1 e1); try assumption; try lia.
    + right. rewrite Ev. destruct Hm2 as [->| ->]; [lia|reflexivity].
    + rewrite Ev. exact Hd1.
    + rewrite Ev. exact Hd2.
Qed.

(** A positive binary64 value with a full 53-bit mantissa and its exponent
    between [elo] and [ehi]. *)
Definition normal (f : spec_float) (elo ehi : Z) (v : Q) : Prop :=
  exists m e, f = S754_finite false m e
              /\ 2 ^ 52 <= Zpos m < 2 ^ 53 /\ elo <= e <= ehi
              /\ (v == F2Q (Zpos m) e)%Q.

Lemma F2Q_lt (a b e : Z) : a < b -> (F2Q a e < F2Q b e)%Q.
Proof.
  intros H. unfold F2Q. apply Qmult_lt_compat_r; [apply pow2_pos|].
  rewrite <- Zlt_Qlt. exact H.
Qed.

Lemma F2Q_0 (m : Z) : (F2Q m 0 == inject_Z m)%Q.
Proof. unfold F2Q, pow2. simpl. ring. Qed.

Lemma located_exact (m e : Z) : located (F2Q m e) m e false false.
Proof.
  unfold located. split; [split|reflexivity]; [apply Qle_refl|apply F2Q_lt; lia].
Qed.

Lemma located_ext (x y : Q) (m e : Z) (r s : bool) :
  (x == y)%Q -> located x m e r s -> located y m e r s.
Proof.
  intros E [[A B] C]. unfold located.
  split; [split; lra|]. destruct r, s; lra.
Qed.

Lemma pos_iter_xO (p k : positive) : Zpos (Pos.iter xO p k) = Zpos p * 2 ^ Zpos k.
Proof.
  induction k as [|k IH] using Pos.peano_ind.
  - cbn [Pos.iter]. rewrite Pos2Z.inj_xO. change (2 ^ 1) with 2. lia.
  - rewrite Pos.iter_succ, Pos2Z.inj_xO, IH, Pos2Z.inj_succ, Z.pow_succ_r by lia. lia.
Qed.

(** [float64(n)] is the binary64 value nearest to [n]. *)
Lemma ofInt_nearest (n : Z) :
  0 < n < 2 ^ 63 ->
  exists v, normal (Float64.ofInt n) (-52) 11 v /\ nearest (inject_Z n) v.
Proof.
  intros Hn. destruct n as [|p|p]; try lia.
  unfold Float64.ofInt, binary_normalize, binary_round, Float64.prec, Float64.emax.
  pose proof (digits2_pos_spec p) as Hd.
  set (d := Zpos (digits2_pos p)) in *.
  assert (Hd0 : 0 < d) by (subst d; lia).
  assert (Hd63 : d <= 63).
  { change d with (Zdigits2 (Zpos p)). apply digits_le; lia. }
  rewrite Z.add_0_r, (fexp_normal d) by lia.
  unfold shl_align. rewrite Z.sub_0_r.
  destruct (d - 53) as [|k|k] eqn:Ek.
  - destruct (round_aux_nearest (inject_Z (Zpos p)) (Zpos p) 0 loc_Exact)
      as [m [e [E [Hm [He N]]]]].
    + replace (2 ^ 52) with (2 ^ (d - 1)) by (f_equal; lia). lia.
    + cbn [roundBit stickyBit].
      apply (located_ext _ _ _ _ _ _ (F2Q_0 (Zpos p))), located_exact.
    + lia.
    + change (Zdigits2 (Zpos p)) with d. lia.
    + rewrite E. change (Zdigits2 (Zpos p)) with d in He.
      exists (F2Q (Zpos m) e). split; [|exact N].
      exists m, e. split; [reflexivity|]. split; [lia|]. split; [lia|reflexivity].
  - destruct (round_aux_nearest (inject_Z (Zpos p)) (Zpos p) 0 loc_Exact)
      as [m [e [E [Hm [He N]]]]].
    + assert (2 ^ 52 <= 2 ^ (d - 1)) by (apply Z.pow_le_mono_r; lia). lia.
    + cbn [roundBit stickyBit].
      apply (located_ext _ _ _ _ _ _ (F2Q_0 (Zpos p))), located_exact.
    + lia.
    + change (Zdigits2 (Zpos p)) with d. lia.
    + rewrite E. change (Zdigits2 (Zpos p)) with d in He.
      exists (F2Q (Zpos m) e). split; [|exact N].
      exists m, e. split; [reflexivity|]. split; [lia|]. split; [lia|reflexivity].
  - assert (Hk : Zpos k = 53 - d) by lia.
    assert (Hmz : Zpos (Pos.iter xO p k) = Zpos p * 2 ^ (53 - d))
      by (rewrite pos_iter_xO, Hk; reflexivity).
    assert (Hs : 2 ^ 53 = 2 ^ d * 2 ^ (53 - d)).
    { rewrite <- Z.pow_add_r by lia. f_equal. lia. }
    assert (Hs' : 2 ^ 52 = 2 ^ (d - 1) * 2 ^ (53 - d)).
    { rewrite <- Z.pow_add_r by lia. f_equal. lia. }
    assert (Hp2 : 0 < 2 ^ (53 - d)) by (apply Z.pow_pos_nonneg; lia).
    assert (Hb : 2 ^ 52 <= Zpos (Pos.iter xO p k) < 2 ^ 53) by (rewrite Hmz; nia).
    assert (Hdig : Zdigits2 (Zpos (Pos.iter xO p k)) = 53)
      by (apply digits_unique; [exact Hb|lia|lia]).
    destruct (round_aux_nearest (inject_Z (Zpos p)) (Zpos (Pos.iter xO p k)) (Z.neg k)
                loc_Exact) as [m [e [E [Hm [He N]]]]].
    + lia.
    + cbn [roundBit stickyBit].
      assert (Ex : (inject_Z (Zpos p) == F2Q (Zpos (Pos.iter xO p k)) (Z.neg k))%Q).
      { rewrite Hmz, <- F2Q_shift by lia.
        replace (Z.neg k + (53 - d)) with 0 by lia. rewrite F2Q_0. reflexivity. }
      apply (located_ext (F2Q (Zpos (Pos.iter xO p k)) (Z.neg k)));
        [symmetry; exact Ex|apply located_exact].
    + lia.
    + rewrite Hdig. lia.
    + rewrite E. rewrite Hdig in He.
      exists (F2Q (Zpos m) e). split; [|exact N].
      exists m, e. split; [reflexivity|]. split; [lia|]. split; [lia|reflexivity].
Qed.

(** The place of the remainder [r] of a division by [n] in its slot. *)
Lemma new_location_bits (n r : Z) :
  0 < n -> 0 <= r < n ->
  let l := new_location n r in
  match roundBit l, stickyBit l with
  | false, false => r = 0
  | false, true => 0 < r /\ 2 * r < n
  | true, false => 2 * r = n
  | true, true => n < 2 * r
  end.
Proof.
  intros Hn Hr. cbv zeta. unfold new_location.
  destruct (Z.even n) eqn:En.
  - unfold new_location_even. destruct (r =? 0) eqn:E0; cbn; [lia|].
    destruct (Z.compare_spec (2 * r) n); cbn; lia.
  - unfold new_location_odd. destruct (r =? 0) eqn:E0; cbn; [lia|].
    assert (Hodd : n <> 2 * r).
    { intros ->. rewrite Z.even_mul in En. discriminate. }
    destruct (Z.compare_spec (2 * r + 1) n); cbn; lia.
Qed.

Lemma F2Q_pos (m e : Z) : 0 < m -> (0 < F2Q m e)%Q.
Proof.
  intros H. unfold F2Q. apply Qmult_lt_0_compat; [|apply pow2_pos].
  change 0%Q with (inject_Z 0). rewrite <- Zlt_Qlt. exact H.
Qed.

(** Division of two normal values rounds the exact quotient to nearest. *)
Lemma div_nearest (fa fb : spec_float) (va vb : Q) :
  normal fa (-60) 20 va -> normal fb (-60) 20 vb ->
  exists v, normal (Float64.div fa fb) (-140) 40 v /\ nearest (va / vb) v.
Proof.
  intros [ma [ea [-> [Hma [Hea Eva]]]]] [mb [eb [-> [Hmb [Heb Evb]]]]].
  unfold Float64.div, SFdiv, SFdiv_core_binary, Float64.prec, Float64.emax.
  rewrite !(digits_unique _ 53) by lia.
  replace (53 + ea - (53 + eb)) with (ea - eb) by lia.
  rewrite (fexp_normal (ea - eb)) by lia.
  replace (Z.min (ea - eb - 53) (ea - eb)) with (ea - eb - 53) by lia.
  replace (ea - eb - (ea - eb - 53)) with 53 by lia.
  rewrite Z.shiftl_mul_pow2 by lia.
  pose proof (Z_div_mod (Zpos ma * 2 ^ 53) (Zpos mb) ltac:(lia)) as Hdm.
  destruct (Z.div_eucl (Zpos ma * 2 ^ 53) (Zpos mb)) as [q r].
  destruct Hdm as [Hdm Hr].
  set (e' := ea - eb - 53) in *.
  assert (Hq : 2 ^ 52 <= q < 2 ^ 54).
  { split.
    - assert (2 ^ 52 * Zpos mb < Zpos mb * (q + 1)) by nia. nia.
    - assert (Zpos mb * q < 2 ^ 54 * Zpos mb) by nia. nia. }
  assert (Hx : (va / vb * inject_Z (Zpos mb) == inject_Z (Zpos mb * q + r) * pow2 e')%Q).
  { rewrite <- Hdm, Eva, Evb. unfold F2Q.
    replace ea with (e' + 53 + eb) at 1 by (subst e'; lia).
    rewrite !pow2_add, (pow2_Z 53) by lia. rewrite inject_Z_mult.
    field. split.
    - pose proof (pow2_pos eb). lra.
    - change 0%Q with (inject_Z 0). rewrite inject_Z_injective. lia. }
  set (x := (va / vb)%Q) in *.
  assert (HM : (0 < inject_Z (Zpos mb))%Q).
  { change 0%Q with (inject_Z 0). rewrite <- Zlt_Qlt. lia. }
  pose proof (pow2_pos e') as HT.
  assert (HL : located x q e' (roundBit (new_location (Zpos mb) r))
                 (stickyBit (new_location (Zpos mb) r))).
  { pose proof (new_location_bits (Zpos mb) r ltac:(lia) Hr) as Hb.
    cbv zeta in Hb.
    set (y := (x - F2Q q e')%Q).
    assert (Hy : (y * inject_Z (Zpos mb) == inject_Z r * pow2 e')%Q).
    { subst y. unfold F2Q.
      rewrite inject_Z_plus, inject_Z_mult in Hx. lra. }
    pose proof (F2Q_lin 1 1 q e') as L1. replace (1 * q + 1) with (q + 1) in L1 by lia.
    pose proof (F2Q_lin 2 1 q e') as L2. unfold inject_Z in L1, L2.
    assert (Hr0 : (0 <= inject_Z r)%Q)
      by (change 0%Q with (inject_Z 0); rewrite <- Zle_Qle; lia).
    assert (Hr1 : (inject_Z r < inject_Z (Zpos mb))%Q) by (rewrite <- Zlt_Qlt; lia).
    assert (Hy0 : (0 <= y)%Q).
    { destruct (Qlt_le_dec y 0) as [Hn|Hn]; [exfalso|exact Hn].
      assert (y * inject_Z (Zpos mb) < 0)%Q by nra.
      assert (0 <= inject_Z r * pow2 e')%Q by nra. lra. }
    assert (Hy1 : (y < pow2 e')%Q).
    { destruct (Qlt_le_dec y (pow2 e')) as [Hn|Hn]; [exact Hn|exfalso].
      assert (pow2 e' * inject_Z (Zpos mb) <= y * inject_Z (Zpos mb))%Q by nra.
      assert (inject_Z r * pow2 e' < inject_Z (Zpos mb) * pow2 e')%Q by nra.
      lra. }
    assert (Hcmp : forall c : comparison,
               Z.compare (2 * r) (Zpos mb) = c ->
               match c with
               | Lt => (2 * y < pow2 e')%Q
               | Eq => (2 * y == pow2 e')%Q
               | Gt => (pow2 e' < 2 * y)%Q
               end).
    { intros c Hc. destruct (Z.compare_spec (2 * r) (Zpos mb)) as [H|H|H]; subst c.
      - assert (2 * inject_Z r == inject_Z (Zpos mb))%Q.
        { rewrite <- H, inject_Z_mult. reflexivity. }
        assert ((2 * y - pow2 e') * inject_Z (Zpos mb) == 0)%Q by nra.
        destruct (Qlt_le_dec (2 * y) (pow2 e')); [nra|].
        destruct (Qlt_le_dec (pow2 e') (2 * y)); [nra|lra].
      - assert (2 * inject_Z r < inject_Z (Zpos mb))%Q.
        { change 2%Q with (inject_Z 2). rewrite <- inject_Z_mult, <- Zlt_Qlt. exact H. }
        destruct (Qlt_le_dec (2 * y) (pow2 e')) as [Hn|Hn]; [exact Hn|exfalso].
        assert (pow2 e' * inject_Z (Zpos mb) <= 2 * y * inject_Z (Zpos mb))%Q by nra.
        assert (2 * inject_Z r * pow2 e' < inject_Z (Zpos mb) * pow2 e')%Q by nra.
        lra.
      - assert (inject_Z (Zpos mb) < 2 * inject_Z r)%Q.
        { change 2%Q with (inject_Z 2). rewrite <- inject_Z_mult, <- Zlt_Qlt. exact H. }
        destruct (Qlt_le_dec (pow2 e') (2 * y)) as [Hn|Hn]; [exact Hn|exfalso].
        assert (2 * y * inject_Z (Zpos mb) <= pow2 e' * inject_Z (Zpos mb))%Q by nra.
        assert (inject_Z (Zpos mb) * pow2 e' < 2 * inject_Z r * pow2 e')%Q by nra.
        lra. }
    unfold located. subst y.
    split; [split; lra|].
    destruct (roundBit _), (stickyBit _).
    + specialize (Hcmp Gt). rewrite Z.compare_gt_iff in Hcmp.
      specialize (Hcmp ltac:(lia)). cbn in Hcmp. lra.
    + specialize (Hcmp Eq). rewrite Z.compare_eq_iff in Hcmp.
      specialize (Hcmp ltac:(lia)). cbn in Hcmp. lra.
    + specialize (Hcmp Lt). rewrite Z.compare_lt_iff in Hcmp.
      specialize (Hcmp ltac:(lia)). cbn in Hcmp.
      destruct Hb as [Hb0 _].
      assert (0 < inject_Z r)%Q
        by (change 0%Q with (inject_Z 0); rewrite <- Zlt_Qlt; lia).
      split; [|lra].
      destruct (Qlt_le_dec (F2Q q e') x) as [Hn|Hn]; [exact Hn|exfalso].
      assert ((x - F2Q q e') * inject_Z (Zpos mb) <= 0)%Q by nra.
      assert (0 < inject_Z r * pow2 e')%Q by nra. lra.
    + subst r. rewrite Z.add_0_r in *.
      assert ((x - F2Q q e') * inject_Z (Zpos mb) == 0)%Q.
      { rewrite Hy. unfold inject_Z at 1. lra. }
      destruct (Qlt_le_dec (x - F2Q q e') 0); [nra|].
      destruct (Qlt_le_dec 0 (x - F2Q q e')); [nra|lra]. }
  assert (Hdq : Zdigits2 q <= 54) by (apply digits_le; lia).
  destruct (round_aux_nearest x q e' _ ltac:(lia) HL ltac:(lia) ltac:(lia))
    as [m [e [E [Hm [He N]]]]].
  cbn [xorb]. rewrite E. exists (F2Q (Zpos m) e). split; [|exact N].
  exists m, e. split; [reflexivity|]. split; [lia|]. split; [lia|reflexivity].
Qed.

(** Multiplication of two normal values rounds the exact product to
    nearest. *)
Lemma mul_nearest (fa fb : spec_float) (va vb : Q) :
  normal fa (-140) 40 va -> normal fb (-60) 20 vb ->
  exists v, normal (Float64.mul fa fb) (-200) 120 v /\ nearest (va * vb) v.
Proof.
  intros [ma [ea [-> [Hma [Hea Eva]]]]] [mb [eb [-> [Hmb [Heb Evb]]]]].
  unfold Float64.mul, SFmul, Float64.prec, Float64.emax. cbn [xorb].
  rewrite Pos2Z.inj_mul.
  assert (Hp : 2 ^ 104 <= Zpos ma * Zpos mb < 2 ^ 106).
  { change (2 ^ 104) with (2 ^ 52 * 2 ^ 52). change (2 ^ 106) with (2 ^ 53 * 2 ^ 53). nia. }
  assert (Hd : Zdigits2 (Zpos ma * Zpos mb) <= 106) by (apply digits_le; lia).
  assert (Ex : (va * vb == F2Q (Zpos ma * Zpos mb) (ea + eb))%Q).
  { rewrite Eva, Evb. unfold F2Q. rewrite pow2_add, inject_Z_mult. ring. }
  destruct (round_aux_nearest (va * vb) (Zpos ma * Zpos mb) (ea + eb) loc_Exact)
    as [m [e [E [Hm [He N]]]]].
  - assert (2 ^ 52 <= 2 ^ 104) by (apply Z.pow_le_mono_r; lia). lia.
  - cbn [roundBit stickyBit].
    apply (located_ext (F2Q (Zpos ma * Zpos mb) (ea + eb)));
      [symmetry; exact Ex|apply located_exact].
  - lia.
  - lia.
  - rewrite E. exists (F2Q (Zpos m) e). split; [|exact N].
    exists m, e. split; [reflexivity|]. split; [lia|]. split; [lia|reflexivity].
Qed.

Lemma normal_weaken (f : spec_float) (elo ehi elo' ehi' : Z) (v : Q) :
  normal f elo ehi v -> elo' <= elo -> ehi <= ehi' -> normal f elo' ehi' v.
Proof.
  intros [m [e [-> [Hm [He Ev]]]]] Hl Hh.
  exists m, e. split; [reflexivity|]. split; [lia|]. split; [lia|exact Ev].
Qed.

Lemma normal_pos (f : spec_float) (elo ehi : Z) (v : Q) :
  normal f elo ehi v -> (0 < v)%Q.
Proof.
  intros [m [e [-> [Hm [He Ev]]]]]. rewrite Ev. apply F2Q_pos. lia.
Qed.

Lemma normal_mantissa (f : spec_float) (elo ehi : Z) (v : Q) :
  normal f elo ehi v -> exists m e, (v == F2Q m e)%Q /\ 0 <= m < 2 ^ 53.
Proof.
  intros [m [e [-> [Hm [He Ev]]]]]. exists (Zpos m), e. split; [exact Ev|lia].
Qed.

(** Two normal values that are equal as numbers are the same float. *)
Lemma normal_unique (f f' : spec_float) (elo ehi elo' ehi' : Z) (v v' : Q) :
  normal f elo ehi v -> normal f' elo' ehi' v' -> (v == v')%Q -> f = f'.
Proof.
  intros [m [e [-> [Hm [He Ev]]]]] [m' [e' [-> [Hm' [He' Ev']]]]] E.
  destruct (F2Q_normal_inj (Zpos m) e (Zpos m') e' Hm Hm') as [Em Ee].
  - rewrite <- Ev, <- Ev'. exact E.
  - injection Em as ->. subst. reflexivity.
Qed.

Lemma normal_value_unique (f : spec_float) (elo ehi elo' ehi' : Z) (v v' : Q) :
  normal f elo ehi v -> normal f elo' ehi' v' -> (v == v')%Q.
Proof.
  intros [m [e [-> [Hm [He Ev]]]]] [m' [e' [E' [Hm' [He' Ev']]]]].
  injection E' as <- <-. rewrite Ev, Ev'. reflexivity.
Qed.

(** [int(f)] of a normal value is its integer part. *)
Lemma toInt_floor (f : spec_float) (elo ehi : Z) (v : Q) :
  normal f elo ehi v ->
  (inject_Z (Float64.toInt f) <= v /\ v < inject_Z (Float64.toInt f + 1))%Q.
Proof.
  intros [m [e [-> [Hm [He Ev]]]]]. unfold Float64.toInt.
  destruct (0 <=? e) eqn:E0.
  - rewrite Z.shiftl_mul_pow2 by lia.
    assert (Ex : (v == inject_Z (Zpos m * 2 ^ e))%Q).
    { rewrite Ev, <- F2Q_0, <- F2Q_shift by lia. rewrite Z.add_0_l. reflexivity. }
    rewrite Ex, <- Zle_Qle, <- Zlt_Qlt. lia.
  - rewrite Z.shiftr_div_pow2 by lia.
    set (k := - e). assert (Hk : 0 < k) by (subst k; lia).
    assert (Hp : 0 < 2 ^ k) by (apply Z.pow_pos_nonneg; lia).
    set (z := Zpos m / 2 ^ k).
    pose proof (Z.div_mod (Zpos m) (2 ^ k) ltac:(lia)) as Hdm.
    pose proof (Z.mod_pos_bound (Zpos m) (2 ^ k) Hp) as Hmod.
    fold z in Hdm.
    assert (Ez : forall t, (inject_Z t == F2Q (t * 2 ^ k) e)%Q).
    { intros t. rewrite <- F2Q_shift by lia.
      replace (e + k) with 0 by (subst k; lia). rewrite F2Q_0. reflexivity. }
    rewrite Ev, (Ez z), (Ez (z + 1)). split.
    + apply F2Q_le. lia.
    + apply F2Q_lt. lia.
Qed.

(** The float of which [progressOf] takes the integer part. *)
Definition scaled (a n : Z) : spec_float :=
  Float64.mul (Float64.div (Float64.ofInt a) (Float64.ofInt n)) (Float64.ofInt 100).

Lemma hundred_normal : normal (Float64.ofInt 100) (-60) 20 100.
Proof.
  exists 7036874417766400%positive, (-46). split; [reflexivity|].
  split; [lia|]. split; [lia|]. reflexivity.
Qed.

(** The scaled ratio is a normal value, and it does not go down when the
    numerator goes up. *)
Lemma scaled_monotone (a b n : Z) :
  0 < a <= b -> b < 2 ^ 63 -> 0 < n < 2 ^ 63 ->
  exists va vb,
    normal (scaled a n) (-200) 120 va /\ normal (scaled b n) (-200) 120 vb
    /\ (va <= vb)%Q.
Proof.
  intros Hab Hb Hn.
  destruct (ofInt_nearest a ltac:(lia)) as [va [Na Ra]].
  destruct (ofInt_nearest b ltac:(lia)) as [vb [Nb Rb]].
  destruct (ofInt_nearest n Hn) as [vn [Nn Rn]].
  apply (normal_weaken _ _ _ (-60) 20) in Na, Nb, Nn; try lia.
  pose proof (normal_pos _ _ _ _ Nn) as Hvn.
  destruct (div_nearest _ _ _ _ Na Nn) as [wa [Nqa Rqa]].
  destruct (div_nearest _ _ _ _ Nb Nn) as [wb [Nqb Rqb]].
  destruct (mul_nearest _ _ _ _ Nqa hundred_normal) as [ua [Npa Rpa]].
  destruct (mul_nearest _ _ _ _ Nqb hundred_normal) as [ub [Npb Rpb]].
  exists ua, ub. split; [exact Npa|]. split; [exact Npb|].
  assert (Hsame : forall f f' : spec_float, f = f' ->
            forall u u', normal (Float64.mul f (Float64.ofInt 100)) (-200) 120 u ->
                         normal (Float64.mul f' (Float64.ofInt 100)) (-200) 120 u' ->
                         (u <= u')%Q).
  { intros f f' <- u u' Hu Hu'. rewrite (normal_value_unique _ _ _ _ _ _ _ Hu Hu').
    apply Qle_refl. }
  assert (Hab' : (va <= vb)%Q).
  { destruct (Z.eq_dec a b) as [->|Hne].
    - rewrite (normal_value_unique _ _ _ _ _ _ _ Na Nb). apply Qle_refl.
    - destruct (normal_mantissa _ _ _ _ Na) as [m1 [e1 [E1 H1]]].
      destruct (normal_mantissa _ _ _ _ Nb) as [m2 [e2 [E2 H2]]].
      apply (nearest_monotone (inject_Z a) (inject_Z b) va vb m1 e1 m2 e2);
        try assumption.
      rewrite <- Zlt_Qlt. lia. }
  destruct (Qlt_le_dec va vb) as [Hlt|Hge].
  - assert (Hq : (wa <= wb)%Q).
    { destruct (normal_mantissa _ _ _ _ Nqa) as [m1 [e1 [E1 H1]]].
      destruct (normal_mantissa _ _ _ _ Nqb) as [m2 [e2 [E2 H2]]].
      apply (nearest_monotone (va / vn) (vb / vn) wa wb m1 e1 m2 e2); try assumption.
      unfold Qdiv. apply Qmult_lt_compat_r; [|exact Hlt].
      apply Qinv_lt_0_compat. exact Hvn. }
    destruct (Qlt_le_dec wa wb) as [Hlt'|Hge'].
    + destruct (normal_mantissa _ _ _ _ Npa) as [m1 [e1 [E1 H1]]].
      destruct (normal_mantissa _ _ _ _ Npb) as [m2 [e2 [E2 H2]]].
      apply (nearest_monotone (wa * 100) (wb * 100) ua ub m1 e1 m2 e2); try assumption.
      lra.
    + apply (Hsame _ _ (normal_unique _ _ _ _ _ _ _ _ Nqa Nqb ltac:(lra)));
        assumption.
  - assert (Ef : Float64.ofInt a = Float64.ofInt b)
      by (apply (normal_unique _ _ _ _ _ _ _ _ Na Nb); lra).
    apply (Hsame (Float64.div (Float64.ofInt a) (Float64.ofInt n))
                 (Float64.div (Float64.ofInt b) (Float64.ofInt n)));
      [rewrite Ef; reflexivity|assumption|assumption].
Qed.

(** At the last account the scaled ratio is exactly 100. *)
Lemma scaled_full (n : Z) :
  0 < n < 2 ^ 63 -> normal (scaled n n) (-200) 120 100.
Proof.
  intros Hn.
  destruct (ofInt_nearest n Hn) as [vn [Nn Rn]].
  apply (normal_weaken _ _ _ (-60) 20) in Nn; try lia.
  pose proof (normal_pos _ _ _ _ Nn) as Hvn.
  destruct (div_nearest _ _ _ _ Nn Nn) as [w [Nq Rq]].
  destruct (mul_nearest _ _ _ _ Nq hundred_normal) as [u [Np Rp]].
  assert (Ew : (w == 1)%Q).
  { assert (E1 : (vn / vn == F2Q 1 0)%Q) by (rewrite F2Q_0; field; lra).
    rewrite (nearest_exact _ _ 1 0 Rq E1) by lia. rewrite E1, F2Q_0. reflexivity. }
  assert (Eu : (u == 100)%Q).
  { assert (E1 : (w * 100 == F2Q 100 0)%Q) by (rewrite F2Q_0, Ew; reflexivity).
    rewrite (nearest_exact _ _ 100 0 Rp E1) by lia. rewrite E1, F2Q_0. reflexivity. }
  destruct Np as [m [e [E [Hm [He Ev]]]]].
  exists m, e. split; [exact E|]. split; [exact Hm|]. split; [exact He|].
  rewrite <- Ev. symmetry. exact Eu.
Qed.

(** The progress is not negative and does not go down from one account to
    a later one. *)
Lemma progressOf_monotone (i j n : Z) :
  0 <= i <= j -> j < n -> n < 2 ^ 63 ->
  0 <= progressOf i n <= progressOf j n.
Proof.
  intros Hij Hj Hn.
  destruct (scaled_monotone (i + 1) (j + 1) n ltac:(lia) ltac:(lia) ltac:(lia))
    as [va [vb [Na [Nb Hle]]]].
  pose proof (toInt_floor _ _ _ _ Na) as [A1 A2].
  pose proof (toInt_floor _ _ _ _ Nb) as [B1 B2].
  pose proof (normal_pos _ _ _ _ Na) as Hpos.
  change (Float64.toInt (scaled (i + 1) n)) with (progressOf i n) in *.
  change (Float64.toInt (scaled (j + 1) n)) with (progressOf j n) in *.
  split.
  - assert (H : (inject_Z 0 < inject_Z (progressOf i n + 1))%Q)
      by (change (inject_Z 0) with 0%Q; lra).
    rewrite <- Zlt_Qlt in H. lia.
  - assert (H : (inject_Z (progressOf i n) < inject_Z (progressOf j n + 1))%Q) by lra.
    rewrite <- Zlt_Qlt in H. lia.
Qed.

(** The progress of the last account is 100. *)
Lemma progressOf_final (n : Z) :
  0 < n < 2 ^ 63 -> progressOf (n - 1) n = 100.
Proof.
  intros Hn. pose proof (scaled_full n Hn) as N.
  pose proof (toInt_floor _ _ _ _ N) as [A1 A2].
  unfold progressOf. replace (n - 1 + 1) with n by lia.
  change (Float64.toInt (Float64.mul (Float64.div (Float64.ofInt n) (Float64.ofInt n))
                           (Float64.ofInt 100)))
    with (Float64.toInt (scaled n n)).
  change 100%Q with (inject_Z 100) in A1, A2.
  rewrite <- Zle_Qle in A1. rewrite <- Zlt_Qlt in A2. lia.
Qed.

End Binary64.

(** ** Completion and progress of a job *)

Lemma sorted_map_seqZ (f : Z -> Z) (len : nat) (i : Z) :
  (forall a b, i <= a <= b -> b < i + Z.of_nat len -> f a <= f b) ->
  StronglySorted Z.le (map f (seqZ i (Z.of_nat len))).
Proof.
  revert i. induction len as [|len IH]; intros i Hf.
  - cbn. constructor.
  - replace (Z.of_nat (S len)) with (Z.succ (Z.of_nat len)) by lia.
    rewrite seqZ_cons by lia. rewrite Z.pred_succ. cbn [map].
    constructor.
    + apply IH. intros a b Ha Hb. apply Hf; lia.
    + apply Forall_forall. intros y Hy. apply list_elem_of_In, in_map_iff in Hy as [k [<- Hk]].
      apply list_elem_of_In, elem_of_seqZ in Hk. apply Hf; lia.
Qed.

Lemma sorted_between (lo hi : Z) (l : list Z) :
  StronglySorted Z.le l -> Forall (fun x => lo <= x <= hi) l -> lo <= hi ->
  StronglySorted Z.le (lo :: l ++ [hi]).
Proof.
  intros HS HF Hle. constructor.
  - induction HS as [|x l HS IH Hx]; cbn.
    + repeat constructor.
    + inversion HF as [|? ? Hx' HF']; subst. constructor; [apply IH; exact HF'|].
      apply Forall_app. split; [exact Hx|]. repeat constructor. lia.
  - apply Forall_app. split.
    + eapply Forall_impl; [exact HF|]. cbn. intros; lia.
    + repeat constructor. exact Hle.
Qed.

Lemma last_cons_default {A : Type} (x : A) (l : list A) :
  last (x :: l) = Some (default x (last l)).
Proof.
  revert x. induction l as [|y l IH]; intros x; [reflexivity|].
  rewrite last_cons_cons, IH. reflexivity.
Qed.

Lemma seen_last (p0 : Z) (written : list (option Z)) :
  last (seen p0 written) = Some (default p0 (last (omap id written))).
Proof.
  revert p0. induction written as [|w rest IH]; intros p0; [reflexivity|].
  cbn [seen]. rewrite last_cons_default, IH, omap_cons_eq. cbn [default].
  destruct w as [p|]; cbn [id default]; [|reflexivity].
  rewrite last_cons_default. reflexivity.
Qed.

Lemma omap_id_map {A B : Type} (f : A -> option B) (l : list A) :
  omap id (map f l) = omap f l.
Proof.
  induction l as [|a l IH]; [reflexivity|].
  cbn [map]. rewrite !omap_cons_eq, IH. reflexivity.
Qed.

(** Whatever steps run, a poller sees the progress values the steps write
    for the job, each held until the next write. *)
Lemma observed_of_writes (jobID : string) (steps : list Action) (st : ServiceState)
      (p0 : Z) (ws : list Z) :
  observe jobID st = Some p0 ->
  omap (progressWritten jobID) steps = ws ->
  StronglySorted Z.le (p0 :: ws) ->
  exists values,
    map (observe jobID) (trace steps st) = map Some values
    /\ StronglySorted Z.le values
    /\ last values = last (p0 :: ws).
Proof.
  intros H0 Hw HS.
  exists (seen p0 (map (progressWritten jobID) steps)).
  split; [apply observe_trace; exact H0|]. split.
  - apply seen_sorted. rewrite omap_id_map, Hw. exact HS.
  - rewrite seen_last, omap_id_map, Hw, last_cons_default. reflexivity.
Qed.

(** The progress values of a run are in order. *)
Lemma progress_writes_sorted (total : Z) :
  0 <= total < 2 ^ 63 ->
  StronglySorted Z.le
    (0 :: map (fun k => progressOf k total) (seqZ 0 total) ++ [100]).
Proof.
  intros Ht.
  assert (Hmono : forall i j, 0 <= i <= j -> j < total ->
            0 <= progressOf i total <= progressOf j total)
    by (intros; apply Binary64.progressOf_monotone; lia).
  assert (Hlast : forall i, 0 <= i < total -> progressOf i total <= 100).
  { intros i Hi. rewrite <- (Binary64.progressOf_final total) by lia. apply Hmono; lia. }
  apply sorted_between; [| |lia].
  - replace (seqZ 0 total) with (seqZ 0 (Z.of_nat (Z.to_nat total)))
      by (rewrite Z2Nat.id; [reflexivity|lia]).
    apply (sorted_map_seqZ (fun k => progressOf k total)).
    intros a b Ha Hb. apply Hmono; lia.
  - apply Forall_forall. intros y Hy.
    apply list_elem_of_In, in_map_iff in Hy as [k [<- Hk]].
    apply list_elem_of_In, elem_of_seqZ in Hk.
    split; [apply (Hmono k k); lia|apply Hlast; lia].
Qed.

Section JobRun.
Variable env : Env.
Variable factory : ScraperFactory.
Variables jobID fromDate toDate folder : string.
Variable accounts : list string.
Variables tStart tEnd : Time.

Let total := Z.of_nat (length accounts).
Let unit := asyncUnit env factory jobID accounts fromDate toDate folder tEnd.
Let fresh := mkDownloadJob jobID "processing" 0 0 EmptyString tStart None.

Hypothesis loop_completes :
  snd (accountLoop env factory jobID fromDate toDate folder total 0 accounts) = None.

Lemma registered_job (st : ServiceState) :
  jobs (perform st (ActRegister jobID tStart)) !! jobID = Some fresh.
Proof. subst fresh. cbn. unfold registerJob. apply lookup_insert_eq. Qed.

(** The steps of a unit whose loop completes. *)
Lemma asyncUnit_completed :
  exists steps,
    unit = (ActLog ("Starting download job " ++ jobID ++ " for " ++ pretty total
                    ++ " accounts from " ++ fromDate ++ " to " ++ toDate)
            :: steps ++ [ActComplete jobID tEnd;
                         ActLog ("Completed download job " ++ jobID)])%list
    /\ Forall (benign jobID) steps
    /\ omap (progressWritten jobID) steps
       = map (fun k => progressOf k total) (seqZ 0 total)
    /\ (forall account err,
           In account accounts ->
           snd (downloadAccountData env factory account fromDate toDate folder)
           = Errors err ->
           In (ActLog ("Error downloading data for account " ++ account
                       ++ ": " ++ err)) steps).
Proof.
  destruct (accountLoop_completed env factory jobID fromDate toDate folder total
              accounts 0 loop_completes) as [HB [HW HE]].
  subst unit. unfold asyncUnit. fold total.
  destruct (accountLoop env factory jobID fromDate toDate folder total 0 accounts)
    as [steps p] eqn:EL.
  cbn [fst snd] in *. subst p. exists steps. auto.
Qed.

Lemma asyncUnit_writes :
  omap (progressWritten jobID) unit
  = (map (fun k => progressOf k total) (seqZ 0 total) ++ [100])%list.
Proof.
  destruct asyncUnit_completed as [steps [-> [_ [HW _]]]].
  rewrite omap_cons_eq. cbn [progressWritten].
  rewrite omap_app, HW, !omap_cons_eq. cbn [progressWritten].
  rewrite (String.eqb_refl jobID). reflexivity.
Qed.

Lemma asyncUnit_final_job (st : ServiceState) :
  Services.GetJobStatus
    (jobs (run unit (perform st (ActRegister jobID tStart)))) jobID
  = Some (mkDownloadJob jobID "completed" 100 0 EmptyString tStart (Some tEnd)).
Proof.
  destruct asyncUnit_completed as [steps [-> [HB _]]].
  unfold Services.GetJobStatus.
  rewrite (run_job jobID _ _ _ (registered_job st)).
  cbn [fold_left effect]. rewrite fold_left_app.
  destruct (effect_benign jobID steps fresh HB) as [progress ->].
  cbn [fold_left effect]. rewrite (String.eqb_refl jobID). reflexivity.
Qed.

(** C3: when the account loop runs to its end without a panic, the job
    ends completed at progress 100 with [CompletedAt] stamped, however
    many accounts returned an error; at no moment of the run does the
    record carry an error message or a status other than processing or
    completed; each account error is a line of the log. *)
Theorem job_completed_whatever_accounts_fail (st : ServiceState) :
  let registered := perform st (ActRegister jobID tStart) in
  Services.GetJobStatus (jobs (run unit registered)) jobID
  = Some (mkDownloadJob jobID "completed" 100 0 EmptyString tStart (Some tEnd))
  /\ Forall (fun s => exists job,
                 Services.GetJobStatus (jobs s) jobID = Some job
                 /\ ErrorMessage job = EmptyString
                 /\ (Status job = "processing" \/ Status job = "completed"))
            (trace unit registered)
  /\ (forall account err,
         In account accounts ->
         snd (downloadAccountData env factory account fromDate toDate folder)
         = Errors err ->
         In ("Error downloading data for account " ++ account ++ ": " ++ err)
            (logged (run unit registered))).
Proof.
  cbv zeta. split; [apply asyncUnit_final_job|].
  destruct asyncUnit_completed as [steps [EU [HB [_ HE]]]]. split.
  - eapply trace_unfailed; [|apply registered_job|split; auto].
    rewrite EU. constructor; [exact I|]. apply Forall_app. split.
    + eapply Forall_impl; [exact HB|]. intros a. destruct a; cbn; tauto.
    + repeat constructor.
  - intros account err Hin He. rewrite logged_run. apply in_or_app. right.
    apply list_elem_of_In. apply list_elem_of_omap.
    exists (ActLog ("Error downloading data for account " ++ account ++ ": " ++ err)).
    split; [|reflexivity]. apply list_elem_of_In. rewrite EU.
    right. apply in_or_app. left. apply HE; assumption.
Qed.

(** C1, amended for the recovery path: in a run that does not panic, the
    progress values a poller can see, from registration on, never go
    down, and the job ends completed at 100.  The store itself does not
    keep progress from going down: [updateJobProgress] and
    [updateJobStatus] write whatever progress they are given. *)
Theorem progress_nondecreasing_without_panic (st : ServiceState) :
  total < 2 ^ 63 ->
  let registered := perform st (ActRegister jobID tStart) in
  (exists values,
      map (observe jobID) (trace unit registered) = map Some values
      /\ StronglySorted Z.le values
      /\ last values = Some 100)
  /\ (exists job,
         Services.GetJobStatus (jobs (run unit registered)) jobID = Some job
         /\ Status job = "completed" /\ Progress job = 100)
  /\ (forall js j progress job,
         js !! j = Some job ->
         Progress <$> (updateJobProgress js j progress !! j) = Some progress)
  /\ (forall js j status progress msg now job,
         js !! j = Some job ->
         Progress <$> (updateJobStatus js j status progress msg now !! j)
         = Some progress).
Proof.
  intros Hn. cbv zeta. split; [|split; [|split]].
  - destruct (observed_of_writes jobID unit (perform st (ActRegister jobID tStart)) 0
                _ ltac:(unfold observe, Services.GetJobStatus;
                        rewrite registered_job; reflexivity)
                asyncUnit_writes) as [values [Hv [Hs Hl]]].
    + apply progress_writes_sorted. subst total. lia.
    + exists values. split; [exact Hv|]. split; [exact Hs|].
      rewrite Hl, app_comm_cons, last_snoc. reflexivity.
  - eexists. split; [apply asyncUnit_final_job|]. split; reflexivity.
  - intros js j progress job H. unfold updateJobProgress.
    rewrite H, lookup_insert_eq. reflexivity.
  - intros js j status progress msg now job H. unfold updateJobStatus.
    rewrite H, lookup_insert_eq. reflexivity.
Qed.

(** The same holds while other jobs run: whatever steps on other jobs
    and log lines are interleaved with the unit's own, the values seen
    for this job are the same and stay in order. *)
Lemma progress_nondecreasing_interleaved (schedule : list Action) (st : ServiceState) :
  total < 2 ^ 63 ->
  omap (progressWritten jobID) schedule = omap (progressWritten jobID) unit ->
  exists values,
    map (observe jobID) (trace schedule (perform st (ActRegister jobID tStart)))
    = map Some values
    /\ StronglySorted Z.le values
    /\ last values = Some 100.
Proof.
  intros Hn Hsame.
  destruct (observed_of_writes jobID schedule (perform st (ActRegister jobID tStart)) 0
              _ ltac:(unfold observe, Services.GetJobStatus;
                      rewrite registered_job; reflexivity)
              (eq_trans Hsame asyncUnit_writes)) as [values [Hv [Hs Hl]]].
  - apply progress_writes_sorted. subst total. lia.
  - exists values. split; [exact Hv|]. split; [exact Hs|].
    rewrite Hl, app_comm_cons, last_snoc. reflexivity.
Qed.

End JobRun.

(** ** Two concrete runs *)

(** A scraper factory that serves the account [good] and finds no browser
    for any other. *)
Definition flakyFactory : ScraperFactory :=
  fun config =>
    if String.eqb (UserID config) "good"
    then Returns (mkETCScraper (Returns tt) (Returns tt)
                    (fun _ _ => Returns "meisai.csv") (Returns tt))
    else Errors "browser not found".

(** A scraper factory that panics, as a nil factory does. *)
Definition panickingFactory : ScraperFactory :=
  fun _ => Panics "nil pointer dereference".

Definition demoAccounts : list string := ["good:pw"; "other:pw"; "malformed"].

Definition demoUnit (factory : ScraperFactory) (accounts : list string) : list Action :=
  asyncUnit (envOf []) factory "job-1" accounts "2024-01-01" "2024-01-31"
            "./downloads/s" 2.

Definition demoRegistered : ServiceState :=
  perform NewDownloadService (ActRegister "job-1" 1).

Example demo_progress_values :
  map (observe "job-1") (trace (demoUnit flakyFactory demoAccounts) demoRegistered)
  = map Some [0; 0; 33; 33; 33; 66; 66; 66; 100; 100; 100; 100; 100].
Proof. vm_compute. reflexivity. Qed.

Example demo_log :
  logged (run (demoUnit flakyFactory demoAccounts) demoRegistered)
  = ["Starting download job job-1 for 3 accounts from 2024-01-01 to 2024-01-31";
     "Successfully downloaded data for account good: meisai.csv";
     "Error downloading data for account other:pw: failed to create scraper: browser not found";
     "Error downloading data for account malformed: invalid account format: malformed (expected accountID:password)";
     "Completed download job job-1"].
Proof. vm_compute. reflexivity. Qed.

(** C1 as stated fails when the unit panics: with one account and a
    factory that panics, a poller sees the progress go 0, 100, 0, and the
    job ends failed at progress 0, not 100: the recovery calls
    [updateJobStatus] with progress 0. *)
Lemma progress_lowered_by_recovery :
  map (observe "job-1") (trace (demoUnit panickingFactory ["a:b"]) demoRegistered)
  = [Some 0; Some 0; Some 100; Some 100; Some 0]
  /\ Services.GetJobStatus
       (jobs (run (demoUnit panickingFactory ["a:b"]) demoRegistered)) "job-1"
     = Some (mkDownloadJob "job-1" "failed" 0 0
               "Internal error: nil pointer dereference" 1 (Some 2))
  /\ ~ StronglySorted Z.le [0; 0; 100; 100; 0].
Proof.
  split; [vm_compute; reflexivity|]. split; [vm_compute; reflexivity|].
  intros H. inversion H as [|? ? H1 _]; subst. inversion H1 as [|? ? H2 _]; subst.
  inversion H2 as [|? ? _ H3]; subst. inversion H3 as [|? ? _ H4]; subst.
  inversion H4 as [|? ? H5 _]; subst. lia.
Qed.

Lemma progress_nondecreasing_without_panic_holds :
  snd (accountLoop (envOf []) flakyFactory "job-1" "2024-01-01" "2024-01-31"
         "./downloads/s" (Z.of_nat (length demoAccounts)) 0 demoAccounts) = None
  /\ Z.of_nat (length demoAccounts) < 2 ^ 63
  /\ exists values,
      map (observe "job-1") (trace (demoUnit flakyFactory demoAccounts) demoRegistered)
      = map Some values
      /\ StronglySorted Z.le values
      /\ last values = Some 100.
Proof.
  assert (H1 : snd (accountLoop (envOf []) flakyFactory "job-1" "2024-01-01"
                      "2024-01-31" "./downloads/s"
                      (Z.of_nat (length demoAccounts)) 0 demoAccounts) = None)
    by (vm_compute; reflexivity).
  assert (H2 : Z.of_nat (length demoAccounts) < 2 ^ 63) by reflexivity.
  split; [exact H1|]. split; [exact H2|].
  exact (proj1 (progress_nondecreasing_without_panic (envOf []) flakyFactory "job-1"
                  "2024-01-01" "2024-01-31" "./downloads/s" demoAccounts 1 2 H1
                  NewDownloadService H2)).
Defined.

Lemma job_completed_whatever_accounts_fail_holds :
  snd (accountLoop (envOf []) flakyFactory "job-1" "2024-01-01" "2024-01-31"
         "./downloads/s" (Z.of_nat (length demoAccounts)) 0 demoAccounts) = None
  /\ Services.GetJobStatus
       (jobs (run (demoUnit flakyFactory demoAccounts) demoRegistered)) "job-1"
     = Some (mkDownloadJob "job-1" "completed" 100 0 EmptyString 1 (Some 2)).
Proof.
  assert (H1 : snd (accountLoop (envOf []) flakyFactory "job-1" "2024-01-01"
                      "2024-01-31" "./downloads/s"
                      (Z.of_nat (length demoAccounts)) 0 demoAccounts) = None)
    by (vm_compute; reflexivity).
  split; [exact H1|].
  exact (proj1 (job_completed_whatever_accounts_fail (envOf []) flakyFactory "job-1"
                  "2024-01-01" "2024-01-31" "./downloads/s" demoAccounts 1 2 H1
                  NewDownloadService)).
Defined.

Definition demoProcessAsync : list Action :=
  ProcessAsync (envOf []) panickingFactory "job-1" ["a:b"] "2024-01-01" "2024-01-31"
               1 "./downloads/s" 2.

Lemma CompletedAt_iff_terminal_holds :
  Forall issued demoProcessAsync
  /\ Services.GetJobStatus (jobs (run demoProcessAsync NewDownloadService)) "job-1"
     = Some (mkDownloadJob "job-1" "failed" 0 0
               "Internal error: nil pointer dereference" 1 (Some 2))
  /\ (Some 2 <> None <-> ("failed" = "completed" \/ "failed" = "failed")).
Proof.
  assert (H1 : Forall issued demoProcessAsync) by (vm_compute; repeat constructor).
  assert (H2 : Services.GetJobStatus (jobs (run demoProcessAsync NewDownloadService))
                 "job-1"
               = Some (mkDownloadJob "job-1" "failed" 0 0
                         "Internal error: nil pointer dereference" 1 (Some 2)))
    by (vm_compute; reflexivity).
  split; [exact H1|]. split; [exact H2|].
  exact (proj1 (CompletedAt_iff_terminal demoProcessAsync "job-1" _ H1 H2)).
Defined.

(* ===================================================================== *)
(** * Further properties of the store, the orchestrator and the facade *)
(* ===================================================================== *)

(** ** Which jobs a store holds *)

(** Whether a step is the registration of job [jobID]. *)
Definition registers (jobID : string) (a : Action) : bool :=
  match a with
  | ActRegister j _ => String.eqb j jobID
  | _ => false
  end.

Lemma perform_is_Some (jobID : string) (st : ServiceState) (a : Action) :
  is_Some (jobs (perform st a) !! jobID)
  <-> is_Some (jobs st !! jobID) \/ registers jobID a = true.
Proof.
  destruct a as [j now|msg|msg|j progress|j status progress errorMsg now|j now|];
    cbn [perform jobs registers];
    try (split; [auto|intros [H|H]; [exact H|discriminate]]).
  - unfold registerJob. destruct (String.eqb j jobID) eqn:E.
    + apply String.eqb_eq in E. subst j. rewrite lookup_insert_eq.
      split; [auto|intros _; eauto].
    + apply String.eqb_neq in E. rewrite lookup_insert_ne by exact E.
      split; [auto|intros [H|H]; [exact H|discriminate]].
  - unfold updateJobProgress. destruct (jobs st !! j) as [job|] eqn:EJ.
    + destruct (decide (j = jobID)) as [->|Hne].
      * rewrite lookup_insert_eq, EJ. split; [eauto|intros _; eauto].
      * rewrite lookup_insert_ne by exact Hne.
        split; [auto|intros [H|H]; [exact H|discriminate]].
    + split; [auto|intros [H|H]; [exact H|discriminate]].
  - unfold updateJobStatus. destruct (jobs st !! j) as [job|] eqn:EJ.
    + destruct (decide (j = jobID)) as [->|Hne].
      * rewrite lookup_insert_eq, EJ. split; [eauto|intros _; eauto].
      * rewrite lookup_insert_ne by exact Hne.
        split; [auto|intros [H|H]; [exact H|discriminate]].
    + split; [auto|intros [H|H]; [exact H|discriminate]].
  - unfold completeJob. destruct (jobs st !! j) as [job|] eqn:EJ.
    + destruct (decide (j = jobID)) as [->|Hne].
      * rewrite lookup_insert_eq, EJ. split; [eauto|intros _; eauto].
      * rewrite lookup_insert_ne by exact Hne.
        split; [auto|intros [H|H]; [exact H|discriminate]].
    + split; [auto|intros [H|H]; [exact H|discriminate]].
Qed.

Lemma run_is_Some (jobID : string) (acts : list Action) (st : ServiceState) :
  is_Some (jobs (run acts st) !! jobID)
  <-> is_Some (jobs st !! jobID) \/ existsb (registers jobID) acts = true.
Proof.
  revert st. induction acts as [|a acts IH]; intros st.
  - cbn. split; [auto|intros [H|H]; [exact H|discriminate]].
  - rewrite run_cons, IH, perform_is_Some. cbn [existsb].
    rewrite orb_true_iff. tauto.
Qed.

(** X1: a status query finds a job exactly when a [ProcessAsync] has
    registered that identifier.  Progress, status and completion writes
    addressed to an identifier that is not in the store create nothing,
    and no step ever removes a job from the store. *)
Theorem job_found_iff_registered (acts : list Action) (jobID : string) :
  is_Some (Services.GetJobStatus (jobs (run acts NewDownloadService)) jobID)
  <-> existsb (registers jobID) acts = true.
Proof.
  unfold Services.GetJobStatus. rewrite run_is_Some. cbn [NewDownloadService jobs].
  rewrite lookup_empty. split; [intros [[x H]|H]; [discriminate|exact H]|auto].
Qed.

(** ** Jobs do not interfere *)

(** Whether a step reads or writes the record of job [jobID]. *)
Definition addresses (jobID : string) (a : Action) : bool :=
  match a with
  | ActRegister j _ | ActProgress j _ | ActStatus j _ _ _ _ | ActComplete j _ =>
      String.eqb j jobID
  | ActLog _ | ActLoggerPrintf _ | ActSleep => false
  end.

Lemma perform_elsewhere (jobID : string) (st : ServiceState) (a : Action) :
  addresses jobID a = false ->
  jobs (perform st a) !! jobID = jobs st !! jobID.
Proof.
  destruct a as [j now|msg|msg|j progress|j status progress errorMsg now|j now|];
    cbn [perform jobs addresses]; intros H; try reflexivity;
    apply String.eqb_neq in H.
  - unfold registerJob. apply lookup_insert_ne. exact H.
  - unfold updateJobProgress. destruct (jobs st !! j); [|reflexivity].
    apply lookup_insert_ne. exact H.
  - unfold updateJobStatus. destruct (jobs st !! j); [|reflexivity].
    apply lookup_insert_ne. exact H.
  - unfold completeJob. destruct (jobs st !! j); [|reflexivity].
    apply lookup_insert_ne. exact H.
Qed.

(** The record a step leaves for a job depends on the store only through
    the record the job had. *)
Lemma perform_local (jobID : string) (st st' : ServiceState) (a : Action) :
  jobs st !! jobID = jobs st' !! jobID ->
  jobs (perform st a) !! jobID = jobs (perform st' a) !! jobID.
Proof.
  intros H. destruct (addresses jobID a) eqn:E.
  - destruct (jobs st !! jobID) as [job|] eqn:EJ.
    + rewrite (perform_job jobID st a job EJ).
      symmetry. apply perform_job. symmetry. exact H.
    + destruct a as [j now|msg|msg|j progress|j status progress errorMsg now|j now|];
        cbn [addresses] in E; try discriminate;
        apply String.eqb_eq in E; subst j; cbn [perform jobs].
      * unfold registerJob. rewrite !lookup_insert_eq. reflexivity.
      * unfold updateJobProgress. rewrite <- H, EJ. congruence.
      * unfold updateJobStatus. rewrite <- H, EJ. congruence.
      * unfold completeJob. rewrite <- H, EJ. congruence.
  - rewrite !perform_elsewhere by exact E. exact H.
Qed.

Lemma run_local (jobID : string) (acts : list Action) (st st' : ServiceState) :
  jobs st !! jobID = jobs st' !! jobID ->
  jobs (run acts st) !! jobID = jobs (run acts st') !! jobID.
Proof.
  revert st st'. induction acts as [|a acts IH]; intros st st' H; [exact H|].
  rewrite !run_cons. apply IH. apply perform_local. exact H.
Qed.

(** X2: jobs do not interfere.  What a status query for a job returns
    after any schedule of steps is what it returns after the steps of the
    schedule that address this job, taken alone and in the same order:
    steps on other jobs, log lines and pauses change nothing of it. *)
Theorem jobs_do_not_interfere (acts : list Action) (st : ServiceState) (jobID : string) :
  Services.GetJobStatus (jobs (run acts st)) jobID
  = Services.GetJobStatus
      (jobs (run (List.filter (addresses jobID) acts) st)) jobID.
Proof.
  unfold Services.GetJobStatus.
  revert st. induction acts as [|a acts IH]; intros st; [reflexivity|].
  cbn [List.filter]. destruct (addresses jobID a) eqn:E.
  - rewrite !run_cons. apply IH.
  - rewrite run_cons, IH. apply run_local. apply perform_elsewhere. exact E.
Qed.

(** ** What a status report can hold *)

(** The store steps as the program issues them: the account loop writes a
    percentage, and the recovery writes status failed with progress 0 and
    the panic value as the error message. *)
Definition programStep (a : Action) : Prop :=
  match a with
  | ActProgress _ progress => 0 <= progress <= 100
  | ActStatus _ status progress errorMsg _ =>
      status = "failed" /\ progress = 0
      /\ exists v, errorMsg = "Internal error: " ++ v
  | _ => True
  end.

(** A well-formed record of the job stored under [key]. *)
Definition sound (key : string) (job : DownloadJob) : Prop :=
  ID job = key /\ TotalRecords job = 0 /\ 0 <= Progress job <= 100
  /\ (Services.Status job = "processing" \/ Services.Status job = "completed"
      \/ Services.Status job = "failed")
  /\ (ErrorMessage job = EmptyString
      \/ exists v, ErrorMessage job = "Internal error: " ++ v)
  /\ (Services.Status job = "failed" -> ErrorMessage job <> EmptyString).

Lemma perform_sound (st : ServiceState) (a : Action) :
  programStep a ->
  map_Forall sound (jobs st) -> map_Forall sound (jobs (perform st a)).
Proof.
  intros Hp H.
  destruct a as [j now|msg|msg|j progress|j status progress errorMsg now|j now|];
    cbn [perform jobs]; try exact H.
  - apply map_Forall_insert_2; [|exact H]. unfold sound. cbn.
    repeat split; auto; try lia; try discriminate.
  - unfold updateJobProgress. destruct (jobs st !! j) as [job|] eqn:E; [|exact H].
    apply map_Forall_insert_2; [|exact H].
    destruct (H _ _ E) as [H1 [H2 [H3 [H4 [H5 H6]]]]]. cbn in Hp.
    unfold sound. cbn. auto 7.
  - unfold updateJobStatus. destruct (jobs st !! j) as [job|] eqn:E; [|exact H].
    apply map_Forall_insert_2; [|exact H].
    destruct (H _ _ E) as [H1 [H2 [H3 [H4 [H5 H6]]]]]. cbn in Hp.
    destruct Hp as [-> [-> [v ->]]].
    assert (HN : nonEmpty ("Internal error: " ++ v) = true) by reflexivity.
    unfold sound. cbn. rewrite HN.
    repeat split; auto; try lia; try discriminate; try (right; eauto).
  - unfold completeJob. destruct (jobs st !! j) as [job|] eqn:E; [|exact H].
    apply map_Forall_insert_2; [|exact H].
    destruct (H _ _ E) as [H1 [H2 [H3 [H4 [H5 H6]]]]].
    unfold sound. cbn. repeat split; auto; try lia; try discriminate.
Qed.

Lemma run_sound (acts : list Action) (st : ServiceState) :
  Forall programStep acts ->
  map_Forall sound (jobs st) -> map_Forall sound (jobs (run acts st)).
Proof.
  revert st. induction acts as [|a acts IH]; intros st HF H; [exact H|].
  inversion HF; subst. rewrite run_cons. apply IH; [assumption|].
  apply perform_sound; assumption.
Qed.

(** The percentage of every account of a job lies between 0 and 100. *)
Lemma progressOf_percent (i total : Z) :
  0 <= i < total -> total < 2 ^ 63 -> 0 <= progressOf i total <= 100.
Proof.
  intros Hi Ht. split.
  - apply (Binary64.progressOf_monotone i i total); lia.
  - rewrite <- (Binary64.progressOf_final total) by lia.
    apply (Binary64.progressOf_monotone i (total - 1) total); lia.
Qed.

Lemma accountLoop_programSteps (env : Env) (factory : ScraperFactory)
      (jobID fromDate toDate folder : string) (total : Z)
      (accounts : list string) (i : Z) :
  0 <= i -> i + Z.of_nat (length accounts) <= total -> total < 2 ^ 63 ->
  Forall programStep
    (fst (accountLoop env factory jobID fromDate toDate folder total i accounts)).
Proof.
  revert i. induction accounts as [|account rest IH]; intros i Hi Hlen Ht;
    cbn [accountLoop].
  - constructor.
  - cbn [length] in Hlen. unfold loopBody.
    destruct (downloadAccountData env factory account fromDate toDate folder)
      as [lines result].
    assert (HL : Forall programStep (map ActLog lines)).
    { apply Forall_map. apply Forall_forall. intros; exact I. }
    assert (HP : programStep (ActProgress jobID (progressOf i total)))
      by (apply progressOf_percent; lia).
    specialize (IH (i + 1) ltac:(lia) ltac:(lia) Ht).
    destruct (accountLoop env factory jobID fromDate toDate folder total (i + 1) rest)
      as [steps' p'].
    destruct result; cbn [fst].
    + rewrite <- !app_comm_cons. constructor; [exact HP|].
      rewrite <- app_assoc. apply Forall_app. split; [exact HL|].
      constructor; [exact I|exact IH].
    + rewrite <- !app_comm_cons. constructor; [exact HP|].
      rewrite <- app_assoc. apply Forall_app. split; [exact HL|].
      repeat (constructor; [exact I|]). exact IH.
    + constructor; [exact HP|exact HL].
Qed.

(** Every step [ProcessAsync] takes is one of the program's steps. *)
Lemma ProcessAsync_programSteps (env : Env) (factory : ScraperFactory)
      (jobID : string) (accounts : list string) (fromDate toDate : string)
      (tStart : Time) (folder : string) (tEnd : Time) :
  Z.of_nat (length accounts) < 2 ^ 63 ->
  Forall programStep
    (ProcessAsync env factory jobID accounts fromDate toDate tStart folder tEnd).
Proof.
  intros Ht. unfold ProcessAsync, asyncUnit.
  pose proof (accountLoop_programSteps env factory jobID fromDate toDate folder
                (Z.of_nat (length accounts)) accounts 0 ltac:(lia) ltac:(lia) Ht) as HL.
  destruct (accountLoop env factory jobID fromDate toDate folder
              (Z.of_nat (length accounts)) 0 accounts) as [steps p].
  constructor; [exact I|]. constructor; [exact I|].
  apply Forall_app. split; [exact HL|].
  destruct p; repeat (constructor; try exact I); cbn; eauto.
Qed.

Lemma toInt32_small (x : Z) : - 2 ^ 31 <= x < 2 ^ 31 -> toInt32 x = x.
Proof. intros H. unfold toInt32. rewrite Z.mod_small; lia. Qed.

(** X3: what the [GetJobStatus] call of the facade can report.  In every
    store reached from a new service by steps of [ProcessAsync] runs, in
    any number and interleaving, the report of a job found carries the
    identifier asked for, a status that is processing, completed or failed
    (never the pending of the [DownloadAsync] response), the stored
    progress, which lies between 0 and 100 so that its conversion to
    [int32] loses nothing, and a record count of 0: no step ever writes
    [TotalRecords].  The error message is empty or the
    [Internal error: <panic value>] of a recovery, and a job reported
    failed always carries one. *)
Theorem job_status_report_is_exact (acts : list Action) (jobId : string)
        (report : Pb.JobStatus) :
  Forall programStep acts ->
  Facade.GetJobStatus (run acts NewDownloadService) jobId = Some report ->
  (exists job,
      Services.GetJobStatus (jobs (run acts NewDownloadService)) jobId = Some job
      /\ Pb.StatusJobId report = jobId
      /\ Pb.StatusStatus report = Services.Status job
      /\ Pb.StatusProgress report = Progress job
      /\ Pb.StatusErrorMessage report = ErrorMessage job
      /\ Pb.StatusStartedAt report = StartedAt job
      /\ Pb.StatusCompletedAt report = CompletedAt job)
  /\ (Pb.StatusStatus report = "processing" \/ Pb.StatusStatus report = "completed"
      \/ Pb.StatusStatus report = "failed")
  /\ 0 <= Pb.StatusProgress report <= 100
  /\ Pb.StatusTotalRecords report = 0
  /\ (Pb.StatusErrorMessage report = EmptyString
      \/ exists v, Pb.StatusErrorMessage report = "Internal error: " ++ v)
  /\ (Pb.StatusStatus report = "failed" -> Pb.StatusErrorMessage report <> EmptyString)
  /\ (forall env factory jobID accounts fromDate toDate tStart folder tEnd,
         Z.of_nat (length accounts) < 2 ^ 63 ->
         Forall programStep
           (ProcessAsync env factory jobID accounts fromDate toDate tStart folder tEnd)).
Proof.
  intros HF HR.
  assert (HS : map_Forall sound (jobs (run acts NewDownloadService)))
    by (apply run_sound; [exact HF|apply map_Forall_empty]).
  unfold Facade.GetJobStatus, Services.GetJobStatus in *.
  destruct (jobs (run acts NewDownloadService) !! jobId) as [job|] eqn:EJ;
    [|discriminate].
  destruct (HS _ _ EJ) as [H1 [H2 [H3 [H4 [H5 H6]]]]].
  injection HR as <-. cbn.
  rewrite H2, (toInt32_small (Progress job)) by lia.
  split; [exists job; repeat split; auto|].
  split; [exact H4|]. split; [exact H3|]. split; [reflexivity|].
  split; [exact H5|]. split; [exact H6|].
  intros. apply ProcessAsync_programSteps. assumption.
Qed.

Lemma job_status_report_is_exact_holds :
  Forall programStep demoProcessAsync
  /\ Facade.GetJobStatus (run demoProcessAsync NewDownloadService) "job-1"
     = Some (Pb.mkJobStatus "job-1" "failed" 0 0
               "Internal error: nil pointer dereference" 1 (Some 2))
  /\ Pb.StatusTotalRecords
       (Pb.mkJobStatus "job-1" "failed" 0 0
          "Internal error: nil pointer dereference" 1 (Some 2)) = 0.
Proof.
  assert (H1 : Forall programStep demoProcessAsync)
    by (apply ProcessAsync_programSteps; reflexivity).
  assert (H2 : Facade.GetJobStatus (run demoProcessAsync NewDownloadService) "job-1"
               = Some (Pb.mkJobStatus "job-1" "failed" 0 0
                         "Internal error: nil pointer dereference" 1 (Some 2)))
    by (vm_compute; reflexivity).
  split; [exact H1|]. split; [exact H2|].
  exact (proj1 (proj2 (proj2 (proj2
           (job_status_report_is_exact demoProcessAsync "job-1" _ H1 H2))))).
Defined.

(** ** The end of a run *)

(** The steps that come before the terminal write of a unit: progress
    writes for the job, lines of the log and of the logger, pauses. *)
Definition preliminary (jobID : string) (a : Action) : Prop :=
  match a with
  | ActProgress j _ => j = jobID
  | ActLog _ | ActLoggerPrintf _ | ActSleep => True
  | _ => False
  end.

Lemma benign_preliminary (jobID : string) (a : Action) :
  benign jobID a -> preliminary jobID a.
Proof. destruct a; cbn; auto. Qed.

(** Whatever the accounts do, the account loop takes only benign steps. *)
Lemma accountLoop_benign (env : Env) (factory : ScraperFactory)
      (jobID fromDate toDate folder : string) (total i : Z) (accounts : list string) :
  Forall (benign jobID)
    (fst (accountLoop env factory jobID fromDate toDate folder total i accounts)).
Proof.
  revert i. induction accounts as [|account rest IH]; intros i; cbn [accountLoop].
  - constructor.
  - unfold loopBody.
    destruct (downloadAccountData env factory account fromDate toDate folder)
      as [lines result].
    assert (HL : Forall (benign jobID) (map ActLog lines)).
    { apply Forall_map. apply Forall_forall. intros; exact I. }
    specialize (IH (i + 1)).
    destruct (accountLoop env factory jobID fromDate toDate folder total (i + 1) rest)
      as [steps' p'].
    destruct result; cbn [fst].
    + rewrite <- !app_comm_cons. constructor; [reflexivity|].
      rewrite <- app_assoc. apply Forall_app. split; [exact HL|].
      constructor; [exact I|exact IH].
    + rewrite <- !app_comm_cons. constructor; [reflexivity|].
      rewrite <- app_assoc. apply Forall_app. split; [exact HL|].
      repeat (constructor; [exact I|]). exact IH.
    + constructor; [reflexivity|exact HL].
Qed.

Lemma effect_preliminary (jobID : string) (acts : list Action) (job : DownloadJob) :
  Forall (preliminary jobID) acts ->
  exists progress,
    fold_left (fun j a => effect jobID a j) acts job = withProgress job progress.
Proof.
  revert job. induction acts as [|a acts IH]; intros job HF.
  - exists (Progress job). destruct job; reflexivity.
  - inversion HF as [|? ? Ha Hrest]; subst. cbn [fold_left].
    destruct (IH (effect jobID a job) Hrest) as [p Hp]. rewrite Hp.
    destruct a; cbn in Ha; try contradiction; cbn [effect]; eauto.
    subst. rewrite (String.eqb_refl jobID). exists p. destruct job; reflexivity.
Qed.

(** The shape of the unit: the opening line, the steps of the loop, and
    one of the two endings. *)
Lemma asyncUnit_shape (env : Env) (factory : ScraperFactory) (jobID : string)
      (accounts : list string) (fromDate toDate folder : string) (tEnd : Time) :
  exists before w after,
    asyncUnit env factory jobID accounts fromDate toDate folder tEnd
    = (before ++ w :: after)%list
    /\ Forall (preliminary jobID) before
    /\ (w = ActComplete jobID tEnd /\ after = [ActLog ("Completed download job " ++ jobID)]
        \/ exists v, w = ActStatus jobID "failed" 0 ("Internal error: " ++ v) tEnd
                     /\ after = []).
Proof.
  unfold asyncUnit.
  pose proof (accountLoop_benign env factory jobID fromDate toDate folder
                (Z.of_nat (length accounts)) 0 accounts) as HB.
  destruct (accountLoop env factory jobID fromDate toDate folder
              (Z.of_nat (length accounts)) 0 accounts) as [steps p].
  cbn [fst] in HB.
  assert (HP : Forall (preliminary jobID) steps)
    by (eapply Forall_impl; [exact HB|apply benign_preliminary]).
  set (opening := ActLog _).
  destruct p as [v|].
  - exists (opening :: steps ++ [ActLoggerPrintf ("Panic in download job " ++ jobID
                                                    ++ ": " ++ v)])%list.
    eexists. exists []. split.
    + rewrite <- !app_comm_cons. f_equal. rewrite <- app_assoc. reflexivity.
    + split.
      * constructor; [exact I|]. apply Forall_app. split; [exact HP|].
        repeat constructor.
      * right. exists v. split; reflexivity.
  - exists (opening :: steps)%list. eexists. eexists. split.
    + rewrite <- !app_comm_cons. reflexivity.
    + split; [constructor; [exact I|exact HP]|]. left. split; reflexivity.
Qed.

(** X4: every run of the asynchronous unit makes exactly one terminal write
    and nothing touches the store after it.  Before it come only progress
    writes for the job, log lines and pauses; it is the completion write or
    the status failed of the recovery; after it comes at most the closing
    log line.  So whatever the accounts and the scraper do (return, fail
    or panic), a registered job ends in a terminal status with
    [CompletedAt] at the time of that write and [StartedAt] untouched. *)
Theorem asyncUnit_ends_with_one_terminal_write
        (env : Env) (factory : ScraperFactory) (jobID : string)
        (accounts : list string) (fromDate toDate folder : string)
        (tStart tEnd : Time) (st : ServiceState) :
  let unit := asyncUnit env factory jobID accounts fromDate toDate folder tEnd in
  (exists before w after,
      unit = (before ++ w :: after)%list
      /\ Forall (preliminary jobID) before
      /\ (w = ActComplete jobID tEnd
          \/ exists v, w = ActStatus jobID "failed" 0 ("Internal error: " ++ v) tEnd)
      /\ Forall (fun a => exists msg, a = ActLog msg) after)
  /\ (exists job,
         Services.GetJobStatus
           (jobs (run unit (perform st (ActRegister jobID tStart)))) jobID = Some job
         /\ isTerminal (Services.Status job) = true
         /\ CompletedAt job = Some tEnd
         /\ StartedAt job = tStart).
Proof.
  cbv zeta.
  destruct (asyncUnit_shape env factory jobID accounts fromDate toDate folder tEnd)
    as [before [w [after [EU [HB Hw]]]]].
  split.
  - exists before, w, after. split; [exact EU|]. split; [exact HB|].
    destruct Hw as [[-> ->]|[v [-> ->]]].
    + split; [left; reflexivity|]. repeat constructor. eauto.
    + split; [right; eauto|]. constructor.
  - unfold Services.GetJobStatus.
    assert (HR : jobs (perform st (ActRegister jobID tStart)) !! jobID
                 = Some (mkDownloadJob jobID "processing" 0 0 EmptyString tStart None))
      by (cbn; unfold registerJob; apply lookup_insert_eq).
    rewrite (run_job jobID _ _ _ HR), EU, fold_left_app.
    destruct (effect_preliminary jobID before
                (mkDownloadJob jobID "processing" 0 0 EmptyString tStart None) HB)
      as [progress ->].
    cbn [fold_left].
    destruct Hw as [[-> ->]|[v [-> ->]]]; cbn [fold_left effect];
      rewrite (String.eqb_refl jobID); eexists; (split; [reflexivity|]);
      repeat split.
Qed.

(** ** A run that panics *)




Section PanickingAccount.
Variable env : Env.
Variable factory : ScraperFactory.
Variables jobID fromDate toDate folder : string.
Variable total : Z.

Let loop := accountLoop env factory jobID fromDate toDate folder total.
Let download (account : string) :=
  downloadAccountData env factory account fromDate toDate folder.


End PanickingAccount.



(** ** Account identifiers *)

(** The identifier of a configured account: the text of the trimmed
    account string before its first colon, the whole of it when it holds
    no colon. *)
Definition accountIDOf (account : string) : string :=
  match cut (TrimSpace account) ":" with
  | Some (accountId, _) => accountId
  | None => TrimSpace account
  end.

Lemma accountIDOf_no_colon (account : string) :
  hasByte ":" (accountIDOf account) = false.
Proof.
  unfold accountIDOf.
  destruct (cut (TrimSpace account) ":") as [[accountId after]|] eqn:E.
  - apply cut_Some in E as [_ H]. exact H.
  - apply cut_None. exact E.
Qed.

Lemma GetAllAccountIDs_map (env : Env) :
  GetAllAccountIDs env = map accountIDOf (GetAllAccountsWithCredentials env).
Proof.
  unfold GetAllAccountIDs.
  induction (GetAllAccountsWithCredentials env) as [|a rest IH]; [reflexivity|].
  cbn [flat_map map]. rewrite IH. unfold accountIDOf at 2. rewrite Split_cut.
  destruct (cut (TrimSpace a) ":") as [[accountId after]|]; reflexivity.
Qed.

Lemma GetAllAccountIDs_no_colon (env : Env) :
  Forall (fun accountId => hasByte ":" accountId = false) (GetAllAccountIDs env).
Proof.
  rewrite GetAllAccountIDs_map. apply Forall_map. apply Forall_forall.
  intros account _. apply accountIDOf_no_colon.
Qed.

(** X6: [GetAllAccountIDs] returns one identifier for each configured
    account, in the order of the configuration: the trimmed account string
    up to its first colon.  No identifier holds a colon, so none carries a
    password, and none is accepted as a credential by
    [downloadAccountData]. *)
Theorem GetAllAccountIDs_hold_no_password (env : Env) :
  GetAllAccountIDs env = map accountIDOf (GetAllAccountsWithCredentials env)
  /\ Forall (fun accountId =>
               hasByte ":" accountId = false
               /\ forall env' folder,
                   accountConfig env' accountId folder
                   = inl ("invalid account format: " ++ accountId
                          ++ " (expected accountID:password)"))
            (GetAllAccountIDs env).
Proof.
  split; [apply GetAllAccountIDs_map|].
  eapply Forall_impl; [apply GetAllAccountIDs_no_colon|].
  intros accountId H. split; [exact H|].
  intros env' folder. apply accountConfig_no_colon. exact H.
Qed.

(** ** A job on accounts that hold no colon *)

(** The line logged for an account string that holds no colon. *)
Definition refusal (account : string) : string :=
  "Error downloading data for account " ++ account
  ++ ": invalid account format: " ++ account ++ " (expected accountID:password)".

Lemma accountLoop_refused (env : Env) (factory : ScraperFactory)
      (jobID fromDate toDate folder : string) (total : Z)
      (accounts : list string) (i : Z) :
  Forall (fun account => hasByte ":" account = false) accounts ->
  snd (accountLoop env factory jobID fromDate toDate folder total i accounts) = None
  /\ omap logLine
       (fst (accountLoop env factory jobID fromDate toDate folder total i accounts))
     = map refusal accounts.
Proof.
  revert i. induction accounts as [|account rest IH]; intros i HF.
  - split; reflexivity.
  - inversion HF as [|? ? Ha Hrest]; subst.
    cbn [accountLoop]. unfold loopBody, downloadAccountData.
    rewrite (accountConfig_no_colon env account folder Ha).
    destruct (IH (i + 1) Hrest) as [IH1 IH2].
    destruct (accountLoop env factory jobID fromDate toDate folder total (i + 1) rest)
      as [steps' p'].
    cbn [fst snd] in *. split; [exact IH1|].
    cbn [map app]. rewrite !omap_cons_eq. cbn [logLine].
    rewrite IH2. reflexivity.
Qed.

(** The first and the last line a unit logs. *)
Definition openingLine (jobID : string) (accounts : list string)
           (fromDate toDate : string) : string :=
  "Starting download job " ++ jobID ++ " for " ++ pretty (Z.of_nat (length accounts))
  ++ " accounts from " ++ fromDate ++ " to " ++ toDate.

Definition closingLine (jobID : string) : string := "Completed download job " ++ jobID.

Section DefaultAccounts.
Variable formatDate : Time -> string.
Variable oneMonthBefore : Time -> Time.

(** X7: in the copy of the facade in [download_service_grpc.go], a
    [DownloadAsync] request that names no account never retrieves
    anything.  Either no account is configured and the call fails, or the
    job runs on the bare identifiers of [GetAllAccountIDs]: every account
    is refused as an invalid account format before any scraper is made
    (the log is the opening line, one refusal for each account, and the
    closing line, whatever the scraper factory), and the job still ends
    completed at progress 100. *)
Theorem DownloadAsync_grpc_defaults_never_retrieve
        (env : Env) (req : Pb.DownloadRequest) (now : Time) (uuid : string)
        (factory : ScraperFactory) (folder : string) (tStart tEnd : Time)
        (st : ServiceState) :
  Pb.Accounts req = [] ->
  match snd (DownloadAsync_grpc formatDate oneMonthBefore env req now uuid) with
  | None => GetAllAccountsWithCredentials env = []
  | Some call =>
      let unit :=
        asyncUnit env factory (callJobID call) (callAccounts call)
                  (callFromDate call) (callToDate call) folder tEnd in
      let final := run unit (perform st (ActRegister (callJobID call) tStart)) in
      callAccounts call = GetAllAccountIDs env
      /\ omap logLine unit
         = (openingLine (callJobID call) (callAccounts call)
                        (callFromDate call) (callToDate call)
            :: map refusal (callAccounts call) ++ [closingLine (callJobID call)])%list
      /\ Services.GetJobStatus (jobs final) (callJobID call)
         = Some (mkDownloadJob (callJobID call) "completed" 100 0 EmptyString
                               tStart (Some tEnd))
  end.
Proof.
  intros Hreq. unfold DownloadAsync_grpc.
  destruct (setDefaultDates formatDate oneMonthBefore now (Pb.FromDate req)
              (Pb.ToDate req)) as [fromDate toDate].
  rewrite Hreq. cbn [length Nat.eqb].
  destruct (length (GetAllAccountIDs env) =? 0)%nat eqn:E; cbn [snd].
  - apply Nat.eqb_eq in E. rewrite GetAllAccountIDs_length in E.
    destruct (GetAllAccountsWithCredentials env); [reflexivity|discriminate].
  - cbv zeta. cbn [callJobID callAccounts callFromDate callToDate].
    split; [reflexivity|].
    pose proof (GetAllAccountIDs_no_colon env) as HF.
    destruct (accountLoop_refused env factory uuid fromDate toDate folder
                (Z.of_nat (length (GetAllAccountIDs env)))
                (GetAllAccountIDs env) 0 HF) as [Hp Hlog].
    split.
    + unfold asyncUnit.
      destruct (accountLoop env factory uuid fromDate toDate folder
                  (Z.of_nat (length (GetAllAccountIDs env))) 0 (GetAllAccountIDs env))
        as [steps p].
      cbn [fst snd] in Hp, Hlog. subst p.
      rewrite omap_cons_eq. cbn [logLine]. f_equal.
      rewrite omap_app, Hlog. reflexivity.
    + apply asyncUnit_final_job. exact Hp.
Qed.

End DefaultAccounts.

Lemma DownloadAsync_grpc_defaults_never_retrieve_holds :
  Services.GetJobStatus
    (jobs (run (asyncUnit (envOf [("ETC_CORP_ACCOUNTS", "u1:p1,u2:p2")]) flakyFactory
                  "id-1" ["u1"; "u2"] "2024-01-01" "2024-01-31" "./downloads/s" 2)
               (perform NewDownloadService (ActRegister "id-1" 1)))) "id-1"
  = Some (mkDownloadJob "id-1" "completed" 100 0 EmptyString 1 (Some 2)).
Proof.
  exact (proj2 (proj2
           (DownloadAsync_grpc_defaults_never_retrieve
              (fun _ => "2024-02-01") (fun t => t)
              (envOf [("ETC_CORP_ACCOUNTS", "u1:p1,u2:p2")])
              (Pb.mkDownloadRequest [] "2024-01-01" "2024-01-31") 0 "id-1"
              flakyFactory "./downloads/s" 1 2 NewDownloadService eq_refl))).
Defined.

(** ** The log of a job *)

Section JobLog.
Variable env : Env.
Variable factory : ScraperFactory.
Variables jobID fromDate toDate folder : string.

(** The line the loop logs for an account: an error line that holds the
    account string as it was given, or the success line of
    [downloadAccountData], which names the user only. *)
Definition reported (account line : string) : Prop :=
  (exists err,
      snd (downloadAccountData env factory account fromDate toDate folder) = Errors err
      /\ line = "Error downloading data for account " ++ account ++ ": " ++ err)
  \/ (exists userID password rest csvPath,
         Split account ":" = userID :: password :: rest
         /\ snd (downloadAccountData env factory account fromDate toDate folder) = Returns tt
         /\ line = "Successfully downloaded data for account " ++ userID
                   ++ ": " ++ csvPath).

(** What [downloadAccountData] logs itself: nothing when it returns an
    error, the success line when it returns [nil]. *)
Lemma downloadAccountData_lines (account : string) :
  match snd (downloadAccountData env factory account fromDate toDate folder) with
  | Errors _ => fst (downloadAccountData env factory account fromDate toDate folder) = []
  | Returns _ =>
      exists userID password rest csvPath,
        Split account ":" = userID :: password :: rest
        /\ snd (downloadAccountData env factory account fromDate toDate folder) = Returns tt
        /\ fst (downloadAccountData env factory account fromDate toDate folder)
           = ["Successfully downloaded data for account " ++ userID ++ ": " ++ csvPath]
  | Panics _ => True
  end.
Proof.
  unfold downloadAccountData, accountConfig.
  destruct (Split account ":") as [|userID [|password rest]]; [reflexivity|reflexivity|].
  unfold runScraper. cbn [UserID].
  destruct (factory _) as [sc|err|v]; [|reflexivity|exact I].
  destruct (Initialize sc) as [u|err|v].
  - destruct (Login sc) as [u'|err|v].
    + destruct (DownloadMeisai sc fromDate toDate) as [csvPath|err|v].
      * destruct (Close sc) as [[]|err|v]; cbn; try exact I;
          exists userID, password, rest, csvPath; repeat split.
      * destruct (Close sc); cbn; try exact I; reflexivity.
      * destruct (Close sc); cbn; exact I.
    + destruct (Close sc); cbn; try exact I; reflexivity.
    + destruct (Close sc); cbn; exact I.
  - destruct (Close sc); cbn; try exact I; reflexivity.
  - destruct (Close sc); cbn; exact I.
Qed.

Lemma accountLoop_lines (total : Z) (accounts : list string) (i : Z) :
  snd (accountLoop env factory jobID fromDate toDate folder total i accounts) = None ->
  exists lines,
    omap logLine
      (fst (accountLoop env factory jobID fromDate toDate folder total i accounts))
    = lines
    /\ Forall2 reported accounts lines.
Proof.
  revert i. induction accounts as [|account rest IH]; intros i.
  - intros _. exists []. split; [reflexivity|constructor].
  - cbn [accountLoop]. unfold loopBody.
    pose proof (downloadAccountData_lines account) as HL.
    destruct (downloadAccountData env factory account fromDate toDate folder)
      as [lines result] eqn:ED.
    specialize (IH (i + 1)).
    destruct (accountLoop env factory jobID fromDate toDate folder total (i + 1) rest)
      as [steps' p'].
    assert (HM : forall ls, omap logLine (map ActLog ls) = ls).
    { intros ls. induction ls as [|l ls IHl]; [reflexivity|].
      cbn [map]. rewrite omap_cons_eq. cbn [logLine]. rewrite IHl. reflexivity. }
    cbn [fst snd] in *.
    destruct result as [u|err|v]; cbn [fst snd]; intros Hp; [| |discriminate];
      destruct (IH Hp) as [lines' [El HF]]; clear IH.
    + assert (EO : omap logLine
                       ((ActProgress jobID (progressOf i total) :: map ActLog lines)
                        ++ [ActSleep] ++ steps')%list
                     = (lines ++ lines')%list).
      { rewrite <- !app_comm_cons, omap_cons_eq. cbn [logLine].
        rewrite omap_app, HM. cbn [app]. rewrite omap_cons_eq. cbn [logLine].
        rewrite El. reflexivity. }
      destruct HL as [userID [password [rest' [csvPath [ES [Eu ->]]]]]].
      eexists. split; [exact EO|].
      cbn [app]. constructor; [|exact HF].
      right. exists userID, password, rest', csvPath.
      rewrite ED. cbn [snd]. auto.
    + subst lines. eexists. split.
      * rewrite <- !app_comm_cons, omap_cons_eq. cbn [logLine map app].
        rewrite !omap_cons_eq. cbn [logLine]. rewrite El. reflexivity.
      * constructor; [|exact HF]. left. exists err. rewrite ED. auto.
Qed.

End JobLog.

(** Whether a step is the pause between two accounts. *)
Definition isPause (a : Action) : bool :=
  match a with ActSleep => true | _ => false end.

Lemma accountLoop_pauses (env : Env) (factory : ScraperFactory)
      (jobID fromDate toDate folder : string) (total : Z)
      (accounts : list string) (i : Z) :
  snd (accountLoop env factory jobID fromDate toDate folder total i accounts) = None ->
  length (List.filter isPause
            (fst (accountLoop env factory jobID fromDate toDate folder total i accounts)))
  = length accounts.
Proof.
  revert i. induction accounts as [|account rest IH]; intros i; [reflexivity|].
  cbn [accountLoop]. unfold loopBody.
  destruct (downloadAccountData env factory account fromDate toDate folder)
    as [lines result].
  specialize (IH (i + 1)).
  destruct (accountLoop env factory jobID fromDate toDate folder total (i + 1) rest)
    as [steps' p'].
  assert (HM : List.filter isPause (map ActLog lines) = []).
  { clear. induction lines as [|l ls IHl]; [reflexivity|]. exact IHl. }
  cbn [fst snd] in IH.
  destruct result as [u|err|v]; cbn [fst snd]; intros Hp; [| |discriminate];
    rewrite <- !app_comm_cons; cbn [List.filter isPause];
    rewrite <- app_assoc, List.filter_app, HM; cbn [app List.filter isPause length];
    rewrite (IH Hp); reflexivity.
Qed.

(** X8: the log of a job that does not panic.  Between the opening and
    the closing line the job logs exactly one line for each account, in
    the order of the accounts: the error line, which holds the account
    string as it was given (identifier and password) and the error, or
    the success line, which names the user and the file.  The loop pauses
    once for each account, the last one included. *)
Theorem job_log_has_one_line_per_account
        (env : Env) (factory : ScraperFactory)
        (jobID fromDate toDate folder : string) (accounts : list string)
        (tEnd : Time) :
  snd (accountLoop env factory jobID fromDate toDate folder
         (Z.of_nat (length accounts)) 0 accounts) = None ->
  let unit := asyncUnit env factory jobID accounts fromDate toDate folder tEnd in
  (exists lines,
      omap logLine unit
      = (openingLine jobID accounts fromDate toDate :: lines ++ [closingLine jobID])%list
      /\ Forall2 (reported env factory fromDate toDate folder) accounts lines)
  /\ length (List.filter isPause unit) = length accounts.
Proof.
  intros Hp. cbv zeta.
  destruct (accountLoop_lines env factory jobID fromDate toDate folder
              (Z.of_nat (length accounts)) accounts 0 Hp) as [lines [El HF]].
  pose proof (accountLoop_pauses env factory jobID fromDate toDate folder
                (Z.of_nat (length accounts)) accounts 0 Hp) as HS.
  unfold asyncUnit.
  destruct (accountLoop env factory jobID fromDate toDate folder
              (Z.of_nat (length accounts)) 0 accounts) as [steps p].
  cbn [fst snd] in *. subst p. split.
  - exists lines. split; [|exact HF].
    rewrite omap_cons_eq. cbn [logLine]. f_equal.
    rewrite omap_app, El. reflexivity.
  - cbn [List.filter isPause]. rewrite List.filter_app, length_app, HS.
    cbn. lia.
Qed.

Lemma job_log_has_one_line_per_account_holds :
  length (List.filter isPause (demoUnit flakyFactory demoAccounts))
  = length demoAccounts.
Proof.
  assert (H1 : snd (accountLoop (envOf []) flakyFactory "job-1" "2024-01-01"
                      "2024-01-31" "./downloads/s"
                      (Z.of_nat (length demoAccounts)) 0 demoAccounts) = None)
    by (vm_compute; reflexivity).
  exact (proj2 (job_log_has_one_line_per_account (envOf []) flakyFactory "job-1"
                  "2024-01-01" "2024-01-31" "./downloads/s" demoAccounts 2 H1)).
Defined.

(** ** The percentage *)

Module Percentage.
Import Binary64.

Lemma inject_Z_sub (a b : Z) : (inject_Z (a - b) == inject_Z a - inject_Z b)%Q.
Proof.
  unfold Z.sub. rewrite inject_Z_plus, inject_Z_opp. reflexivity.
Qed.

Lemma pow2_inv (e : Z) : (pow2 e * pow2 (- e) == 1)%Q.
Proof.
  rewrite <- pow2_add. replace (e + - e) with 0 by lia. reflexivity.
Qed.

(** A nearest value is within one unit of any grid fine enough to hold
    the number on 53 bits. *)
Lemma nearest_within (x v : Q) (e : Z) :
  nearest x v -> (0 <= x)%Q -> (x * pow2 (- e) < inject_Z (2 ^ 53))%Q ->
  (- pow2 e < v - x /\ v - x < pow2 e)%Q.
Proof.
  intros HN Hx Hlt.
  pose proof (pow2_pos e) as HP. pose proof (pow2_pos (- e)) as HP'.
  pose proof (pow2_inv e) as HI.
  set (y := (x * pow2 (- e))%Q) in *.
  set (mg := Qfloor y).
  pose proof (Qfloor_le y) as Hlo. pose proof (Qlt_floor y) as Hhi. fold mg in Hlo, Hhi.
  assert (Hy : (0 <= y)%Q) by (subst y; apply Qmult_le_0_compat; lra).
  assert (Hmg0 : 0 <= mg).
  { subst mg. change 0 with (Qfloor 0). apply Qfloor_resp_le. exact Hy. }
  assert (Hmg : mg < 2 ^ 53).
  { rewrite Zlt_Qlt. lra. }
  assert (Hxy : (x == y * pow2 e)%Q).
  { subst y. rewrite <- Qmult_assoc, (Qmult_comm (pow2 (- e))), HI. ring. }
  assert (Hg : (F2Q mg e <= x)%Q).
  { unfold F2Q. rewrite Hxy. apply Qmult_le_compat_r; lra. }
  assert (Hg' : (x < F2Q mg e + pow2 e)%Q).
  { unfold F2Q. rewrite Hxy.
    assert (H : (y * pow2 e < inject_Z (mg + 1) * pow2 e)%Q)
      by (apply Qmult_lt_compat_r; lra).
    rewrite inject_Z_plus in H. change (inject_Z 1) with 1%Q in H. lra. }
  destruct (HN mg e ltac:(lia)) as [H1 _]. destruct (H1 Hg) as [Ha Hb].
  split; lra.
Qed.

Lemma ofInt_exact (n : Z) :
  0 < n < 2 ^ 53 -> normal (Float64.ofInt n) (-60) 20 (inject_Z n).
Proof.
  intros Hn. destruct (ofInt_nearest n ltac:(lia)) as [v [Nv Rv]].
  apply (normal_weaken _ _ _ (-60) 20) in Nv; try lia.
  assert (E : (v == inject_Z n)%Q).
  { apply (nearest_exact _ _ n 0 Rv); [rewrite F2Q_0; reflexivity|lia]. }
  destruct Nv as [m [e [Ef [Hm [He Ev]]]]].
  exists m, e. split; [exact Ef|]. split; [exact Hm|]. split; [exact He|].
  rewrite <- E. exact Ev.
Qed.

(** The scaled ratio of [a] to [n] is within [2^-45] of [100 a / n]. *)
Lemma scaled_close (a n : Z) :
  0 < a < n -> n < 2 ^ 40 ->
  exists u, normal (scaled a n) (-200) 120 u
            /\ (- (1 # 2 ^ 45) < u - inject_Z (100 * a) / inject_Z n
                /\ u - inject_Z (100 * a) / inject_Z n < 1 # 2 ^ 45)%Q.
Proof.
  intros Ha Hn.
  pose proof (ofInt_exact a ltac:(lia)) as Na.
  pose proof (ofInt_exact n ltac:(lia)) as Nn.
  destruct (div_nearest _ _ _ _ Na Nn) as [w [Nw Rw]].
  destruct (mul_nearest _ _ _ _ Nw hundred_normal) as [u [Nu Ru]].
  exists u. split; [exact Nu|].
  assert (Hn0 : (0 < inject_Z n)%Q) by (rewrite <- (Zlt_Qlt 0); lia).
  assert (Ha0 : (0 < inject_Z a)%Q) by (rewrite <- (Zlt_Qlt 0); lia).
  assert (Han : (inject_Z a < inject_Z n)%Q) by (rewrite <- Zlt_Qlt; lia).
  set (x := (inject_Z a / inject_Z n)%Q) in *.
  assert (Hx0 : (0 < x)%Q).
  { subst x. unfold Qdiv. apply Qmult_lt_0_compat; [exact Ha0|].
    apply Qinv_lt_0_compat. exact Hn0. }
  assert (Hx1 : (x < 1)%Q).
  { subst x. apply Qlt_shift_div_r; [exact Hn0|]. lra. }
  assert (E53 : (pow2 53 == inject_Z (2 ^ 53))%Q) by (apply pow2_Z; lia).
  assert (E46 : (pow2 46 == inject_Z (2 ^ 46))%Q) by (apply pow2_Z; lia).
  assert (Em53 : (pow2 (-53) == 1 # 2 ^ 53)%Q) by reflexivity.
  assert (Em46 : (pow2 (-46) == 1 # 2 ^ 46)%Q) by reflexivity.
  assert (I53 : (0 < inject_Z (2 ^ 53))%Q) by reflexivity.
  assert (I46 : (0 < inject_Z (2 ^ 46))%Q) by reflexivity.
  destruct (nearest_within x w (-53) Rw ltac:(lra)) as [W1 W2].
  { change (- -53) with 53. rewrite E53.
    assert (H : (x * inject_Z (2 ^ 53) < 1 * inject_Z (2 ^ 53))%Q)
      by (apply Qmult_lt_compat_r; [exact I53|exact Hx1]).
    lra. }
  rewrite Em53 in W1, W2.
  assert (Hw0 : (0 < w)%Q) by exact (normal_pos _ _ _ _ Nw).
  assert (Hw1 : (w <= 1)%Q).
  { destruct (Rw 1 0 ltac:(lia)) as [_ H]. rewrite F2Q_0 in H.
    change (inject_Z 1) with 1%Q in H. destruct (H ltac:(lra)) as [H1 _]. lra. }
  destruct (nearest_within (w * 100) u (-46) Ru ltac:(lra)) as [U1 U2].
  { change (- -46) with 46. rewrite E46.
    assert (H : (w * 100 * inject_Z (2 ^ 46) <= 1 * 100 * inject_Z (2 ^ 46))%Q).
    { apply Qmult_le_compat_r; [lra|lra]. }
    assert (H' : (1 * 100 * inject_Z (2 ^ 46) < inject_Z (2 ^ 53))%Q) by reflexivity.
    lra. }
  rewrite Em46 in U1, U2.
  assert (Eq : (inject_Z (100 * a) / inject_Z n == 100 * x)%Q).
  { subst x. rewrite inject_Z_mult. change (inject_Z 100) with 100%Q. field. lra. }
  rewrite Eq.
  assert (C46 : ((1 # 2 ^ 46) + 100 * (1 # 2 ^ 53) < 1 # 2 ^ 45)%Q) by reflexivity.
  split; lra.
Qed.

(** The percentage shown for account [i] of [n] is the whole part of
    [100 (i+1) / n], or one below it. *)
Lemma progressOf_close (i n : Z) :
  0 <= i < n -> n < 2 ^ 40 ->
  100 * (i + 1) / n - 1 <= progressOf i n <= 100 * (i + 1) / n.
Proof.
  intros Hi Hn.
  destruct (Z.eq_dec (i + 1) n) as [E|Hne].
  - replace i with (n - 1) by lia. rewrite progressOf_final by lia.
    replace (100 * (n - 1 + 1)) with (100 * n) by lia.
    rewrite Z.div_mul by lia. lia.
  - destruct (scaled_close (i + 1) n ltac:(lia) Hn) as [u [Nu [U1 U2]]].
    pose proof (toInt_floor _ _ _ _ Nu) as [T1 T2].
    change (Float64.toInt (scaled (i + 1) n)) with (progressOf i n) in T1, T2.
    set (p := progressOf i n) in *.
    set (A := 100 * (i + 1)) in *.
    pose proof (Z.div_mod A n ltac:(lia)) as Hdm.
    pose proof (Z.mod_pos_bound A n ltac:(lia)) as Hmod.
    set (fl := A / n) in *. set (r := A mod n) in *.
    assert (Hn0 : (0 < inject_Z n)%Q) by (rewrite <- (Zlt_Qlt 0); lia).
    assert (Eq : (inject_Z A / inject_Z n == inject_Z fl + inject_Z r / inject_Z n)%Q).
    { rewrite Hdm, inject_Z_plus, inject_Z_mult. field. lra. }
    rewrite Eq in U1, U2.
    assert (Hr0 : (0 <= inject_Z r / inject_Z n)%Q).
    { apply Qle_shift_div_l; [exact Hn0|]. rewrite Qmult_0_l.
      rewrite <- (Zle_Qle 0). lia. }
    assert (Hr1 : (inject_Z r / inject_Z n <= 1 - 1 / inject_Z n)%Q).
    { assert (H : (inject_Z r <= inject_Z n - 1)%Q).
      { change 1%Q with (inject_Z 1). rewrite <- inject_Z_sub, <- Zle_Qle. lia. }
      assert (E : (1 - 1 / inject_Z n == (inject_Z n - 1) / inject_Z n)%Q)
        by (field; lra).
      rewrite E. unfold Qdiv. apply Qmult_le_compat_r; [exact H|].
      apply Qlt_le_weak, Qinv_lt_0_compat. exact Hn0. }
    assert (Hinv : ((1 # 2 ^ 45) < 1 / inject_Z n)%Q).
    { apply Qlt_shift_div_l; [exact Hn0|].
      assert (H : (inject_Z n < inject_Z (2 ^ 40))%Q) by (rewrite <- Zlt_Qlt; lia).
      assert (H' : ((1 # 2 ^ 45) * inject_Z (2 ^ 40) < 1)%Q) by reflexivity.
      assert (H'' : ((1 # 2 ^ 45) * inject_Z n <= (1 # 2 ^ 45) * inject_Z (2 ^ 40))%Q).
      { rewrite !(Qmult_comm (1 # 2 ^ 45)). apply Qmult_le_compat_r; [lra|].
        discriminate. }
      lra. }
    split.
    + assert (H : (inject_Z (fl - 1) < inject_Z (p + 1))%Q).
      { rewrite inject_Z_sub. change (inject_Z 1) with 1%Q.
        assert (Hs : ((1 # 2 ^ 45) < 1)%Q) by reflexivity. lra. }
      rewrite <- Zlt_Qlt in H. lia.
    + assert (H : (inject_Z p < inject_Z (fl + 1))%Q).
      { rewrite inject_Z_plus. change (inject_Z 1) with 1%Q. lra. }
      rewrite <- Zlt_Qlt in H. lia.
Qed.

End Percentage.

(** X9: the percentage written for account [i+1] of [n] is the whole part
    of [100 (i+1) / n] or one below it (the binary64 product can fall just
    under a whole number, as for account 29 of 100, which shows 28), and
    it lies between 0 and 100. *)
Theorem progress_is_the_percentage_or_one_below (i n : Z) :
  0 <= i < n -> n < 2 ^ 40 ->
  100 * (i + 1) / n - 1 <= progressOf i n <= 100 * (i + 1) / n
  /\ 0 <= progressOf i n <= 100.
Proof.
  intros Hi Hn. split.
  - apply Percentage.progressOf_close; assumption.
  - apply progressOf_percent; lia.
Qed.

Lemma progress_is_the_percentage_or_one_below_holds :
  100 * (28 + 1) / 100 - 1 <= progressOf 28 100 <= 100 * (28 + 1) / 100.
Proof.
  exact (proj1 (progress_is_the_percentage_or_one_below 28 100
                  ltac:(lia) ltac:(lia))).
Defined.

(** ** Texts that yield no account, and the two encodings *)

(** ** Trimming around a first byte that is not white space *)

(** An ASCII byte that is not white space: it starts no white-space rune
    and is part of none. *)
Definition solid (c : ascii) : bool :=
  (negb (asciiSpace c) && (byte_of c <? 128)%N)%bool.

Lemma spaceWidth_solid (c : ascii) (rest : string) :
  solid c = true -> spaceWidth (String c rest) = 0%nat.
Proof.
  unfold solid. intros H. apply andb_true_iff in H as [Hs Hb].
  apply negb_true_iff in Hs. apply N.ltb_lt in Hb.
  unfold spaceWidth. rewrite Hs. cbv zeta.
  replace (byte_of c =? 194)%N with false by lia.
  replace (byte_of c =? 225)%N with false by lia.
  replace (byte_of c =? 226)%N with false by lia.
  replace (byte_of c =? 227)%N with false by lia.
  cbn [andb]. destruct rest as [|c2 [|c3 r3]]; reflexivity.
Qed.

Lemma spaceWidthRev_le_length (s : string) :
  (spaceWidthRev s <= String.length s)%nat.
Proof.
  unfold spaceWidthRev.
  destruct s as [|c1 [|c2 [|c3 r3]]]; cbn [String.length]; try lia.
  - destruct (asciiSpace c1); lia.
  - destruct (asciiSpace c1); [lia|]. destruct (_ =? 2)%nat; lia.
  - destruct (asciiSpace c1); [lia|]. destruct (_ =? 2)%nat; [lia|].
    destruct (_ =? 3)%nat; lia.
Qed.

(** The white-space rune that ends a text does not reach into a solid
    byte: seen from the end, the rune found stops before it. *)
Lemma spaceWidthRev_before_solid (u : string) (c : ascii) :
  solid c = true ->
  (spaceWidthRev (u ++ String c EmptyString) <= String.length u)%nat.
Proof.
  intros Hc. pose proof (fun rest => spaceWidth_solid c rest Hc) as H0.
  assert (Hs : asciiSpace c = false).
  { unfold solid in Hc. apply andb_true_iff in Hc as [Hs _].
    apply negb_true_iff in Hs. exact Hs. }
  destruct u as [|c1 [|c2 [|c3 r3]]]; rewrite ?string_app_cons;
    change (EmptyString ++ String c EmptyString) with (String c EmptyString);
    cbn [String.length].
  - unfold spaceWidthRev. rewrite Hs. cbv iota. lia.
  - unfold spaceWidthRev. destruct (asciiSpace c1); [lia|].
    rewrite (H0 (String c1 EmptyString)). cbn. lia.
  - unfold spaceWidthRev. destruct (asciiSpace c1); [lia|].
    destruct (_ =? 2)%nat; [lia|].
    rewrite (H0 (String c2 (String c1 EmptyString))). cbn. lia.
  - pose proof (spaceWidthRev_le_length (String c1 (String c2 (String c3 EmptyString)))) as H3.
    unfold spaceWidthRev in *. cbn [String.length] in H3.
    destruct (asciiSpace c1); [lia|].
    destruct (_ =? 2)%nat; [lia|]. destruct (_ =? 3)%nat; lia.
Qed.

Lemma dropBytes_app (n : nat) (u t : string) :
  (n <= String.length u)%nat -> dropBytes n (u ++ t) = dropBytes n u ++ t.
Proof.
  revert u. induction n as [|n IH]; intros u H; [reflexivity|].
  destruct u as [|c u]; [cbn in H; lia|].
  rewrite string_app_cons. cbn [dropBytes]. apply IH. cbn in H. lia.
Qed.

Lemma trimWith_before_solid (fuel : nat) (u : string) (c : ascii) :
  solid c = true ->
  exists u', trimWith spaceWidthRev fuel (u ++ String c EmptyString)
             = u' ++ String c EmptyString.
Proof.
  intros Hc. revert u. induction fuel as [|fuel IH]; intros u; [eauto|].
  cbn [trimWith].
  pose proof (spaceWidthRev_before_solid u c Hc) as Hw.
  destruct (spaceWidthRev (u ++ String c EmptyString)) as [|w] eqn:E; [eauto|].
  rewrite dropBytes_app by exact Hw. apply IH.
Qed.

Lemma string_rev_cons (c : ascii) (s : string) :
  String.rev (String c s) = String.rev s ++ String c EmptyString.
Proof.
  unfold String.rev. cbn [String.rev_app].
  change (String c EmptyString) with (EmptyString ++ String c EmptyString) at 1.
  generalize EmptyString at 1 3. induction s as [|a s IH]; intros acc; [reflexivity|].
  cbn [String.rev_app]. rewrite <- string_app_cons. apply IH.
Qed.

Lemma string_rev_snoc (c : ascii) (s : string) :
  String.rev (s ++ String c EmptyString) = String c (String.rev s).
Proof.
  rewrite <- (rev_rev (String c (String.rev s))). f_equal.
  rewrite string_rev_cons, rev_rev. reflexivity.
Qed.

(** Trimming on the right keeps a solid first byte. *)
Lemma TrimRightSpace_solid (c : ascii) (rest : string) :
  solid c = true -> exists rest', TrimRightSpace (String c rest) = String c rest'.
Proof.
  intros Hc. unfold TrimRightSpace. rewrite string_rev_cons.
  destruct (trimWith_before_solid (String.length (String c rest)) (String.rev rest) c Hc)
    as [u' ->].
  exists (String.rev u'). apply string_rev_snoc.
Qed.

(** A text that starts with a solid byte keeps it through [TrimSpace]. *)
Lemma TrimSpace_solid (c : ascii) (rest : string) :
  solid c = true -> exists rest', TrimSpace (String c rest) = String c rest'.
Proof.
  intros Hc. unfold TrimSpace, TrimLeftSpace.
  rewrite (trimWith_zero _ _ _ (spaceWidth_solid c rest Hc)).
  apply TrimRightSpace_solid. exact Hc.
Qed.

(** White space as JSON has it, all along a text. *)
Fixpoint jsonSpaces (s : string) : bool :=
  match s with
  | EmptyString => true
  | String c rest => (Json.isJsonSpace c && jsonSpaces rest)%bool
  end.

Lemma isJsonSpace_asciiSpace (c : ascii) :
  Json.isJsonSpace c = true -> asciiSpace c = true.
Proof.
  unfold Json.isJsonSpace, asciiSpace, inRange. cbv zeta.
  generalize (byte_of c). intros b H. lia.
Qed.

Lemma trimWith_jsonSpaces (a t : string) (fuel : nat) :
  jsonSpaces a = true -> (String.length a <= fuel)%nat ->
  trimWith spaceWidth fuel (a ++ t) = trimWith spaceWidth (fuel - String.length a) t.
Proof.
  revert fuel. induction a as [|c a IH]; intros fuel Ha Hf.
  - cbn [String.length]. rewrite Nat.sub_0_r. reflexivity.
  - cbn [jsonSpaces] in Ha. apply andb_true_iff in Ha as [Hc Ha].
    destruct fuel as [|fuel]; [cbn in Hf; lia|].
    rewrite string_app_cons. cbn [trimWith spaceWidth].
    rewrite (isJsonSpace_asciiSpace c Hc). cbn [dropBytes String.length Nat.sub].
    apply IH; [exact Ha|]. cbn in Hf. lia.
Qed.

(** JSON white space before a solid byte is trimmed away: the trimmed text
    starts with that byte. *)
Lemma TrimSpace_after_jsonSpaces (a : string) (c : ascii) (rest : string) :
  jsonSpaces a = true -> solid c = true ->
  exists rest', TrimSpace (a ++ String c rest) = String c rest'.
Proof.
  intros Ha Hc. unfold TrimSpace, TrimLeftSpace.
  rewrite trimWith_jsonSpaces; [|exact Ha|rewrite string_app_length; lia].
  rewrite (trimWith_zero _ _ _ (spaceWidth_solid c rest Hc)).
  apply TrimRightSpace_solid. exact Hc.
Qed.

Lemma skipWS_split (s : string) :
  exists a, jsonSpaces a = true /\ s = a ++ Json.skipWS s.
Proof.
  induction s as [|c s [a [Ha Hs]]]; [exists EmptyString; split; reflexivity|].
  cbn [Json.skipWS]. destruct (Json.isJsonSpace c) eqn:E.
  - exists (String c a). split; [cbn; rewrite E, Ha; reflexivity|].
    rewrite string_app_cons, <- Hs. reflexivity.
  - exists EmptyString. split; reflexivity.
Qed.

Lemma skipWS_jsonSpaces (a t : string) :
  jsonSpaces a = true -> Json.skipWS (a ++ t) = Json.skipWS t.
Proof.
  induction a as [|c a IH]; intros Ha; [reflexivity|].
  cbn [jsonSpaces] in Ha. apply andb_true_iff in Ha as [Hc Ha].
  rewrite string_app_cons. cbn [Json.skipWS]. rewrite Hc. apply IH. exact Ha.
Qed.

Lemma skipWS_all_spaces (a : string) :
  jsonSpaces a = true <-> Json.skipWS a = EmptyString.
Proof.
  induction a as [|c a IH]; [split; reflexivity|].
  cbn [jsonSpaces Json.skipWS]. destruct (Json.isJsonSpace c); cbn [andb].
  - exact IH.
  - split; discriminate.
Qed.

Lemma parseElements_nonempty (fuel : nat) (s : string) (r : string) :
  Json.parseElements fuel s <> Some ([], r).
Proof.
  destruct fuel as [|fuel]; [discriminate|]. rewrite parseElements_S.
  destruct (Json.parseElement s) as [[v rest]|]; [|discriminate].
  destruct (Json.skipWS rest) as [|c rest']; [discriminate|].
  destruct (Ascii.eqb c ",") eqn:E1.
  - apply Ascii.eqb_eq in E1. subst c.
    destruct (Json.parseElements fuel (Json.skipWS rest')) as [[vs r']|]; discriminate.
  - destruct (Ascii.eqb c "]") eqn:E2.
    + apply Ascii.eqb_eq in E2. subst c. discriminate.
    + apply Ascii.eqb_neq in E1, E2.
      destruct c as [[] [] [] [] [] [] [] []]; try discriminate; congruence.
Qed.

(** When [Unmarshal] yields the empty slice, the text is an empty array
    or [null], with JSON white space around. *)
Lemma Unmarshal_empty (s : string) :
  Json.Unmarshal s = Some [] ->
  exists a t, jsonSpaces a = true /\ s = a ++ t
    /\ ((exists b c, jsonSpaces b = true /\ jsonSpaces c = true
                     /\ t = "[" ++ b ++ "]" ++ c)
        \/ exists c, t = "null" ++ c).
Proof.
  unfold Json.Unmarshal. destruct (skipWS_split s) as [a [Ha Hs]].
  intros H. exists a, (Json.skipWS s). split; [exact Ha|]. split; [exact Hs|].
  destruct (Json.skipWS s) as [|c0 rest]; [discriminate|].
  destruct (Ascii.eqb c0 "[") eqn:E1.
  - apply Ascii.eqb_eq in E1. subst c0. left.
    destruct (skipWS_split rest) as [b [Hb Hr]].
    destruct (Json.skipWS rest) as [|c1 rest1] eqn:ER.
    + cbn in H. discriminate.
    + destruct (Ascii.eqb c1 "]") eqn:E2.
      * apply Ascii.eqb_eq in E2. subst c1.
        exists b, rest1. split; [exact Hb|]. split.
        -- unfold Json.onlySpaceLeft in H. apply skipWS_all_spaces.
           destruct (Json.skipWS rest1); [reflexivity|discriminate].
        -- rewrite Hr at 1. reflexivity.
      * exfalso.
        assert (HP : match Json.parseElements (String.length (String c1 rest1))
                             (String c1 rest1) with
                     | Some (vs, r) => if Json.onlySpaceLeft r then Some vs else None
                     | None => None
                     end = Some []).
        { apply Ascii.eqb_neq in E2.
          destruct c1 as [[] [] [] [] [] [] [] []]; try exact H; congruence. }
        clear H. destruct (Json.parseElements _ _) as [[vs r]|] eqn:EP; [|discriminate].
        destruct (Json.onlySpaceLeft r); [|discriminate].
        injection HP as ->. exact (parseElements_nonempty _ _ _ EP).
  - right. apply Ascii.eqb_neq in E1.
    destruct c0 as [[] [] [] [] [] [] [] []]; try discriminate; try congruence.
    destruct rest as [|c1 rest]; [discriminate|].
    destruct c1 as [[] [] [] [] [] [] [] []]; try discriminate.
    destruct rest as [|c2 rest]; [discriminate|].
    destruct c2 as [[] [] [] [] [] [] [] []]; try discriminate.
    destruct rest as [|c3 rest]; [discriminate|].
    destruct c3 as [[] [] [] [] [] [] [] []]; try discriminate.
    exists rest. reflexivity.
Qed.

Lemma Unmarshal_empty_array (a b c : string) :
  jsonSpaces a = true -> jsonSpaces b = true -> jsonSpaces c = true ->
  Json.Unmarshal (a ++ "[" ++ b ++ "]" ++ c) = Some [].
Proof.
  intros Ha Hb Hc. unfold Json.Unmarshal.
  rewrite (skipWS_jsonSpaces a _ Ha).
  change ("[" ++ b ++ "]" ++ c) with (String "[" (b ++ String "]" c)).
  rewrite (skipWS_nonspace "[") by reflexivity.
  rewrite (skipWS_jsonSpaces b _ Hb).
  rewrite (skipWS_nonspace "]") by reflexivity.
  unfold Json.onlySpaceLeft. apply skipWS_all_spaces in Hc. rewrite Hc. reflexivity.
Qed.

Lemma HasPrefix_head (c : ascii) (rest : string) (d : ascii) :
  HasPrefix (String c rest) (String d EmptyString) = Ascii.eqb d c.
Proof.
  unfold HasPrefix. cbn [String.prefix].
  destruct (Ascii.eqb_spec d c) as [->|Hne].
  - destruct (ascii_dec c c) as [_|Hn]; [|congruence]. destruct rest; reflexivity.
  - destruct (ascii_dec d c) as [He|_]; [congruence|reflexivity].
Qed.

(** The text of an empty JSON array: an opening and a closing bracket with
    nothing but JSON white space before, between and after them. *)
Definition emptyArrayText (s : string) : Prop :=
  exists a b c,
    jsonSpaces a = true /\ jsonSpaces b = true /\ jsonSpaces c = true
    /\ s = a ++ "[" ++ b ++ "]" ++ c.

(** A text that configures no account. *)
Definition noAccount (s : string) : Prop := s = EmptyString \/ emptyArrayText s.

Lemma parseAccountsString_none (accountsStr : string) :
  parseAccountsString accountsStr = [] <-> noAccount accountsStr.
Proof.
  unfold parseAccountsString, noAccount, emptyArrayText. split.
  - destruct (String.eqb accountsStr EmptyString) eqn:E0;
      [apply String.eqb_eq in E0; auto|].
    intros H. right.
    destruct (HasPrefix (TrimSpace accountsStr) "[") eqn:EP;
      [|exfalso; exact (Split_nonempty _ _ H)].
    destruct (Json.Unmarshal accountsStr) as [jsonAccounts|] eqn:EU;
      [|exfalso; exact (Split_nonempty _ _ H)].
    subst jsonAccounts.
    destruct (Unmarshal_empty _ EU) as [a [t [Ha [Hs [[b [c [Hb [Hc Ht]]]]|[c Ht]]]]]].
    + exists a, b, c. subst t. auto.
    + exfalso. subst t. subst accountsStr.
      change ("null" ++ c) with (String "n" ("ull" ++ c)) in EP.
      destruct (TrimSpace_after_jsonSpaces a "n" ("ull" ++ c) Ha eq_refl) as [rest' Hr].
      rewrite Hr, HasPrefix_head in EP. discriminate.
  - intros [->|[a [b [c [Ha [Hb [Hc ->]]]]]]]; [reflexivity|].
    assert (Hne : String.eqb (a ++ "[" ++ b ++ "]" ++ c) EmptyString = false).
    { apply String.eqb_neq. destruct a; discriminate. }
    rewrite Hne.
    change ("[" ++ b ++ "]" ++ c) with (String "[" (b ++ "]" ++ c)).
    destruct (TrimSpace_after_jsonSpaces a "[" (b ++ "]" ++ c) Ha eq_refl) as [rest' Hr].
    rewrite Hr, HasPrefix_head. cbn [Ascii.eqb Bool.eqb].
    change (String "[" (b ++ "]" ++ c)) with ("[" ++ b ++ "]" ++ c).
    rewrite (Unmarshal_empty_array a b c Ha Hb Hc). reflexivity.
Qed.

(** X10: [parseAccountsString] returns no account on exactly two kinds of
    text: the empty text, and an empty JSON array, that is an opening and
    a closing bracket with nothing but JSON white space before, between
    and after them.  Every other text yields at least one account. *)
Theorem parseAccountsString_none_iff (accountsStr : string) :
  parseAccountsString accountsStr = []
  <-> accountsStr = EmptyString
      \/ exists a b c,
          jsonSpaces a = true /\ jsonSpaces b = true /\ jsonSpaces c = true
          /\ accountsStr = a ++ "[" ++ b ++ "]" ++ c.
Proof. apply parseAccountsString_none. Qed.

(** ** When no account is configured *)

Lemma guarded_parse_none (s : string) :
  (if nonEmpty s then parseAccountsString s else []) = [] <-> noAccount s.
Proof.
  unfold nonEmpty. destruct (String.eqb s EmptyString) eqn:E; cbn [negb].
  - apply String.eqb_eq in E. subst s. split; [left; reflexivity|reflexivity].
  - apply parseAccountsString_none.
Qed.

Lemma GetAllAccountsWithCredentials_none (env : Env) :
  GetAllAccountsWithCredentials env = []
  <-> (if nonEmpty (env "ETC_CORP_ACCOUNTS")
       then noAccount (env "ETC_CORP_ACCOUNTS")
       else noAccount (env "ETC_CORPORATE_ACCOUNTS")
            /\ noAccount (env "ETC_PERSONAL_ACCOUNTS")).
Proof.
  unfold GetAllAccountsWithCredentials. cbv zeta.
  destruct (nonEmpty (env "ETC_CORP_ACCOUNTS")).
  - apply parseAccountsString_none.
  - rewrite <- !guarded_parse_none. split.
    + intros H. apply app_eq_nil in H. exact H.
    + intros [-> ->]. reflexivity.
Qed.

Section NoAccounts.
Variable formatDate : Time -> string.
Variable oneMonthBefore : Time -> Time.

(** X11: when [DownloadAsync] starts no job.  [ETC_CORP_ACCOUNTS], when
    set, is the only variable read: the two older variables count only
    when it is empty.  No account is configured exactly when the variable
    read (or each of the two older ones) is empty or an empty JSON array;
    so [ETC_CORP_ACCOUNTS] set to an empty array hides the accounts of
    the older variables.  Both copies of [DownloadAsync] start no job on
    exactly the requests that name no account in such an environment. *)
Theorem DownloadAsync_starts_no_job_iff
        (env : Env) (req : Pb.DownloadRequest) (now : Time) (uuid : string) :
  let unconfigured :=
    if nonEmpty (env "ETC_CORP_ACCOUNTS")
    then noAccount (env "ETC_CORP_ACCOUNTS")
    else noAccount (env "ETC_CORPORATE_ACCOUNTS")
         /\ noAccount (env "ETC_PERSONAL_ACCOUNTS") in
  (GetAllAccountsWithCredentials env = [] <-> unconfigured)
  /\ (snd (DownloadAsync formatDate oneMonthBefore env req now uuid) = None
      <-> Pb.Accounts req = [] /\ unconfigured)
  /\ (snd (DownloadAsync_grpc formatDate oneMonthBefore env req now uuid) = None
      <-> Pb.Accounts req = [] /\ unconfigured).
Proof.
  cbv zeta. pose proof (GetAllAccountsWithCredentials_none env) as HN.
  split; [exact HN|]. rewrite <- HN. clear HN.
  unfold DownloadAsync, DownloadAsync_grpc.
  destruct (setDefaultDates formatDate oneMonthBefore now (Pb.FromDate req)
              (Pb.ToDate req)) as [fromDate toDate].
  rewrite GetAllAccountIDs_length.
  destruct (Pb.Accounts req) as [|account accounts]; cbn [length Nat.eqb].
  - destruct (GetAllAccountsWithCredentials env) as [|a l]; cbn [length Nat.eqb snd].
    + split; split; auto.
    + split; split; try discriminate; intros [_ H]; discriminate.
  - cbn [snd]. split; split; try discriminate; intros [H _]; discriminate.
Qed.

End NoAccounts.

Lemma Join_head (c : ascii) (rest : string) (others : list string) (sep : string) :
  exists tail, Join (String c rest :: others) sep = String c tail.
Proof. destruct others; eexists; reflexivity. Qed.

(** X12: the two encodings of a list of accounts are read back to the same
    list.  For account strings of printable ASCII with no double quote,
    backslash or comma, the first of which starts with neither white
    space nor a bracket, [parseAccountsString] returns the list itself
    both from its JSON array text and from its comma-separated text. *)
Theorem parseAccountsString_encodings_agree
        (c : ascii) (rest : string) (others : list string) :
  solid c = true -> c <> "["%char ->
  Forall (fun a => plain a = true /\ hasByte "," a = false) (String c rest :: others) ->
  parseAccountsString (jsonArray (String c rest :: others)) = String c rest :: others
  /\ parseAccountsString (Join (String c rest :: others) ",") = String c rest :: others.
Proof.
  intros Hc Hb HF. split.
  - apply parseAccountsString_json_array.
    eapply Forall_impl; [exact HF|]. cbn. intros a [H _]. exact H.
  - unfold parseAccountsString.
    pose proof (Split_Join (String c rest :: others) ",") as HS.
    change (String "," EmptyString) with "," in HS.
    destruct (Join_head c rest others ",") as [tail Ht]. rewrite Ht in *.
    cbn [String.eqb].
    destruct (TrimSpace_solid c tail Hc) as [rest' ->].
    rewrite HasPrefix_head.
    replace (Ascii.eqb "[" c) with false
      by (symmetry; apply Ascii.eqb_neq; congruence).
    apply HS; [discriminate|]. eapply Forall_impl; [exact HF|]. cbn. intros a [_ H]. exact H.
Qed.

Lemma parseAccountsString_encodings_agree_holds :
  parseAccountsString (jsonArray ["u1:p1"; "u2:p 2"]) = ["u1:p1"; "u2:p 2"]
  /\ parseAccountsString (Join ["u1:p1"; "u2:p 2"] ",") = ["u1:p1"; "u2:p 2"].
Proof.
  refine (parseAccountsString_encodings_agree "u" "1:p1" ["u2:p 2"] eq_refl _ _).
  - discriminate.
  - repeat constructor.
Defined.

(** ** Masking twice *)

Lemma maskPair_idempotent (entry : string) :
  maskPair (maskPair entry) = maskPair entry.
Proof.
  unfold maskPair at 2 3.
  destruct (cut entry ":") as [[accountId after]|] eqn:E.
  - apply cut_Some in E as [_ H]. apply maskPair_pair. exact H.
  - apply maskPair_no_colon. apply cut_None. exact E.
Qed.

Lemma maskAccountString_entries (accountStr : string) :
  Split (maskAccountString accountStr) "," = map maskPair (Split accountStr ",").
Proof.
  unfold maskAccountString.
  destruct (String.eqb accountStr EmptyString) eqn:E.
  - apply String.eqb_eq in E. subst. reflexivity.
  - rewrite (map_ext _ maskPair) by apply mask_body_is_maskPair.
    apply Split_Join.
    + pose proof (Split_nonempty accountStr ",").
      destruct (Split accountStr ","); [congruence|discriminate].
    + apply Forall_map. eapply Forall_impl; [apply Split_pieces|].
      intros piece. apply maskPair_no_comma.
Qed.

Lemma maskAccountString_Join (accountStr : string) :
  maskAccountString accountStr = Join (map maskPair (Split accountStr ",")) ",".
Proof.
  unfold maskAccountString.
  destruct (String.eqb accountStr EmptyString) eqn:E.
  - apply String.eqb_eq in E. subst. reflexivity.
  - rewrite (map_ext _ maskPair) by apply mask_body_is_maskPair. reflexivity.
Qed.

(** X13: masking is idempotent and keeps the shape of the configuration.
    Masking a masked string changes nothing; the masked string has as
    many comma-separated entries as the input; and it is empty only for
    the empty input. *)
Theorem maskAccountString_idempotent (accountStr : string) :
  maskAccountString (maskAccountString accountStr) = maskAccountString accountStr
  /\ length (Split (maskAccountString accountStr) ",")
     = length (Split accountStr ",")
  /\ (maskAccountString accountStr = EmptyString <-> accountStr = EmptyString).
Proof.
  split; [|split].
  - rewrite (maskAccountString_Join (maskAccountString accountStr)).
    rewrite maskAccountString_entries, map_map.
    rewrite (map_ext _ maskPair) by apply maskPair_idempotent.
    symmetry. apply maskAccountString_Join.
  - rewrite maskAccountString_entries. apply length_map.
  - split; [|intros ->; reflexivity].
    intros H. pose proof (maskAccountString_entries accountStr) as HE.
    rewrite H in HE. cbn [Split] in HE.
    destruct (Split accountStr ",") as [|entry [|entry' entries]] eqn:ES;
      try discriminate.
    injection HE as HE.
    assert (Hentry : entry = EmptyString).
    { unfold maskPair in HE.
      destruct (cut entry ":") as [[accountId after]|]; [|congruence].
      destruct accountId; discriminate. }
    subst entry. rewrite <- (Join_Split accountStr ","), ES. reflexivity.
Qed.

(** ** The server log *)

Lemma step_downloadService (acts : list Action) (s : Rpc.DownloadServiceGRPC) :
  Rpc.downloadService (fold_left Rpc.step acts s) = run acts (Rpc.downloadService s).
Proof.
  revert s. induction acts as [|a acts IH]; intros s; [reflexivity|].
  cbn [fold_left]. rewrite IH, run_cons. f_equal.
  unfold Rpc.step, Rpc.LogMessage.
  destruct a; try reflexivity. cbn [Rpc.logBuffer].
  destruct (Rpc.logBuffer s); reflexivity.
Qed.

Lemma step_logBuffer (acts : list Action) (s : Rpc.DownloadServiceGRPC) :
  Rpc.logBuffer (fold_left Rpc.step acts s)
  = (fun lb => fold_left Add (omap logLine acts) lb) <$> Rpc.logBuffer s.
Proof.
  revert s. induction acts as [|a acts IH]; intros s.
  - cbn. destruct (Rpc.logBuffer s); reflexivity.
  - cbn [fold_left]. rewrite IH, omap_cons_eq.
    unfold Rpc.step, Rpc.LogMessage.
    destruct a; try reflexivity. cbn [Rpc.logBuffer logLine].
    destruct (Rpc.logBuffer s); reflexivity.
Qed.

(** X14: the server log is the tail of the service log.  In a facade
    built by [NewDownloadServiceGRPC], after any steps of the service,
    [GetServerLogs] returns the newest lines handed to [logMessage],
    oldest first: as many as asked for, 100 when the request asks for none
    or fewer, and never more than the 1000 lines the buffer keeps; the
    count returned with them is their number.  A facade built by
    [NewDownloadServiceGRPCWithMock] has no buffer: its server log is the
    one line that says so, whatever the service does. *)
Theorem server_log_keeps_newest_lines (acts : list Action) (tailLines : Z) :
  let s := fold_left Rpc.step acts Rpc.NewDownloadServiceGRPC in
  let all := logged (Rpc.downloadService s) in
  let asked := if tailLines <=? 0 then 100%nat else Z.to_nat tailLines in
  let k := Nat.min asked (Nat.min 1000 (length all)) in
  Rpc.downloadService s = run acts NewDownloadService
  /\ Rpc.GetServerLogs s tailLines = (drop (length all - k) all, Z.of_nat k)
  /\ (forall service,
         Rpc.GetServerLogs
           (fold_left Rpc.step acts (Rpc.NewDownloadServiceGRPCWithMock service))
           tailLines
         = (["Log buffer not initialized"], 1)).
Proof.
  cbv zeta. rewrite step_downloadService. split; [reflexivity|].
  split;
    [|intros service; unfold Rpc.GetServerLogs; rewrite step_logBuffer;
      reflexivity].
  unfold Rpc.GetServerLogs. rewrite step_logBuffer.
  cbn [Rpc.NewDownloadServiceGRPC Rpc.logBuffer Rpc.downloadService].
  rewrite logged_run. cbn [NewDownloadService logged app].
  set (all := omap logLine acts).
  change (NewLogBuffer 1000) with (Some (mkLogBuffer [] 1000)). cbn [fmap option_fmap option_map].
  unfold Facade.GetServerLogs.
  set (lb := fold_left Add all (mkLogBuffer [] 1000)).
  assert (Hlines : lines lb = drop (length all - 1000) all)
    by (apply (Add_all_keeps_newest 1000); reflexivity).
  set (n := if tailLines <=? 0 then 100 else tailLines).
  assert (Hn : 0 < n) by (subst n; destruct (tailLines <=? 0) eqn:E; lia).
  assert (Hasked : (if tailLines <=? 0 then 100%nat else Z.to_nat tailLines)
                   = Z.to_nat n)
    by (subst n; destruct (tailLines <=? 0); reflexivity).
  rewrite Hasked.
  pose proof (GetTail_drop lb n) as HT. cbv zeta in HT.
  replace (n <=? 0) with false in HT by lia.
  rewrite HT, Hlines, length_drop, drop_drop.
  assert (Hk : Nat.min (Z.to_nat n) (length all - (length all - 1000))
               = Nat.min (Z.to_nat n) (Nat.min 1000 (length all))) by lia.
  rewrite Hk. set (k := Nat.min (Z.to_nat n) (Nat.min 1000 (length all))).
  f_equal.
  - f_equal. lia.
  - rewrite length_drop, toInt32_small; lia.
Qed.

(** ** What the environment report shows *)

(** What an entry of an account variable shows without its password: the
    text before its first colon and whether a colon follows, or the whole
    entry when it holds no colon. *)
Definition shown (entry : string) : string * bool :=
  match cut entry ":" with
  | Some (accountId, _) => (accountId, true)
  | None => (entry, false)
  end.

(** The masked entry is made of what the entry shows. *)
Definition render (p : string * bool) : string :=
  if snd p then fst p ++ ":*******" else fst p.

Lemma maskPair_shown (entry : string) : maskPair entry = render (shown entry).
Proof.
  unfold maskPair, shown, render.
  destruct (cut entry ":") as [[accountId after]|]; reflexivity.
Qed.

Lemma maskAccountString_shown (accountStr accountStr' : string) :
  map shown (Split accountStr ",") = map shown (Split accountStr' ",") ->
  maskAccountString accountStr = maskAccountString accountStr'.
Proof.
  intros H. rewrite !maskAccountString_Join. f_equal.
  assert (HM : forall l, map maskPair l = map render (map shown l)).
  { intros l. rewrite map_map. apply map_ext. apply maskPair_shown. }
  rewrite !HM, H. reflexivity.
Qed.

(** X15: [GetEnvironmentVariables] does not depend on the passwords.  Two
    environments whose three account variables have, entry by entry, the
    same text before the first colon (and the same entries without a
    colon), and whose other three variables agree, get the same response,
    whatever follows the colons. *)
Theorem GetEnvironmentVariables_ignores_passwords (env env' : Env) :
  (forall name,
      In name ["ETC_CORP_ACCOUNTS"; "ETC_CORPORATE_ACCOUNTS"; "ETC_PERSONAL_ACCOUNTS"] ->
      map shown (Split (env name) ",") = map shown (Split (env' name) ",")) ->
  (forall name,
      In name ["ETC_HEADLESS"; "GRPC_PORT"; "HTTP_PORT"] -> env name = env' name) ->
  Rpc.GetEnvironmentVariables env = Rpc.GetEnvironmentVariables env'.
Proof.
  intros HA HO. unfold Rpc.GetEnvironmentVariables.
  rewrite (maskAccountString_shown _ _ (HA "ETC_CORP_ACCOUNTS" ltac:(cbn; auto))).
  rewrite (maskAccountString_shown _ _ (HA "ETC_CORPORATE_ACCOUNTS" ltac:(cbn; auto))).
  rewrite (maskAccountString_shown _ _ (HA "ETC_PERSONAL_ACCOUNTS" ltac:(cbn; auto))).
  rewrite (HO "ETC_HEADLESS" ltac:(cbn; auto)).
  rewrite (HO "GRPC_PORT" ltac:(cbn; auto)).
  rewrite (HO "HTTP_PORT" ltac:(cbn; auto)).
  reflexivity.
Qed.

Lemma GetEnvironmentVariables_ignores_passwords_holds :
  Rpc.GetEnvironmentVariables
    (envOf [("ETC_CORP_ACCOUNTS", "u1:secret,u2:hunter2"); ("GRPC_PORT", "50051")])
  = Rpc.GetEnvironmentVariables
      (envOf [("ETC_CORP_ACCOUNTS", "u1:x,u2:"); ("GRPC_PORT", "50051")]).
Proof.
  apply GetEnvironmentVariables_ignores_passwords.
  - intros name [<-|[<-|[<-|[]]]]; reflexivity.
  - intros name [<-|[<-|[<-|[]]]]; reflexivity.
Defined.

(** ** Starting the server *)

Lemma Add_last (lb : LogBuffer) (line : string) :
  0 < maxLines lb -> last (lines (Add lb line)) = Some line.
Proof.
  intros H. unfold Add. rewrite length_app, Z.gtb_ltb. cbn [length].
  destruct (_ <? _) eqn:E; cbn [lines]; [|apply last_snoc].
  destruct (lines lb) as [|l0 ls]; [cbn in E; lia|].
  cbn [app drop]. apply last_snoc.
Qed.

Lemma GetTail_last (lb : LogBuffer) (n : Z) (line : string) :
  last (lines lb) = Some line -> last (GetTail lb n) = Some line.
Proof.
  intros H. pose proof (GetTail_drop lb n) as HT. cbv zeta in HT. rewrite HT.
  destruct (lines lb) as [|l0 ls] eqn:EL using rev_ind; [discriminate|].
  rewrite last_snoc in H. injection H as ->. clear IHls.
  rewrite length_app. cbn [length].
  set (k := if n <=? 0 then _ else _).
  assert (Hk : (length ls + 1 - k <= length ls)%nat).
  { subst k. destruct (n <=? 0) eqn:E; lia. }
  rewrite drop_app_le by exact Hk. apply last_snoc.
Qed.

(** X16: starting the server.  An empty port stands for 50051.  When the
    listener fails, [Start] returns [failed to listen: <error>] and
    leaves the server as it was: nothing is logged and it does not
    serve.  When the listener succeeds, [Start] returns what [Serve]
    returns, the jobs are untouched, and the newest line of the server
    log, whatever number of lines is asked for, names the port. *)
Theorem Start_announces_the_port
        (Listen : string -> string -> option string) (reflected : string + string)
        (Serve : option string) (s : Grpc.Server) (port : string)
        (lb : LogBuffer) (tailLines : Z) :
  Rpc.logBuffer (Grpc.downloadService s) = Some lb -> 0 < maxLines lb ->
  let port' := if String.eqb port EmptyString then "50051" else port in
  match Listen "tcp" (":" ++ port') with
  | Some err =>
      Grpc.Start Listen reflected Serve s port = (s, Some ("failed to listen: " ++ err))
  | None =>
      let s' := fst (Grpc.Start Listen reflected Serve s port) in
      snd (Grpc.Start Listen reflected Serve s port) = Serve
      /\ Rpc.downloadService (Grpc.downloadService s')
         = Rpc.downloadService (Grpc.downloadService s)
      /\ last (fst (Rpc.GetServerLogs (Grpc.downloadService s') tailLines))
         = Some ("Starting gRPC server on port " ++ port')
  end.
Proof.
  intros Hlb Hmax. cbv zeta. unfold Grpc.Start.
  destruct (Listen "tcp" _) as [err|]; [reflexivity|].
  cbn [fst snd Grpc.downloadService]. unfold Rpc.LogMessage. rewrite Hlb.
  cbn [Rpc.downloadService]. split; [reflexivity|]. split; [reflexivity|].
  unfold Rpc.GetServerLogs, Facade.GetServerLogs. cbn [Rpc.logBuffer fst].
  apply GetTail_last. apply Add_last. exact Hmax.
Qed.

Lemma Start_announces_the_port_holds :
  last (fst (Rpc.GetServerLogs
               (Grpc.downloadService
                  (fst (Grpc.Start (fun _ _ => None) (inr "services") None
                                   Grpc.NewServer EmptyString))) 1))
  = Some "Starting gRPC server on port 50051".
Proof.
  exact (proj2 (proj2 (Start_announces_the_port (fun _ _ => None) (inr "services") None
                         Grpc.NewServer EmptyString (mkLogBuffer [] 1000) 1
                         eq_refl eq_refl))).
Defined.

(** ** Whether the browser is shown *)

(** X17: the browser is shown for an account exactly when [ETC_HEADLESS]
    is one of the six spellings [strconv.ParseBool] reads as false.  The
    configuration that [downloadAccountData] hands to the scraper factory
    has [Headless] false for [0], [f], [F], [FALSE], [false] and [False],
    and true for every other value, the unset variable included. *)
Theorem browser_shown_iff (env : Env) (account folder : string)
        (config : ScraperConfig) :
  accountConfig env account folder = inr config ->
  (Headless config = false
   <-> In (env "ETC_HEADLESS") ["0"; "f"; "F"; "FALSE"; "false"; "False"])
  /\ SessionFolder config = folder
  /\ DownloadPath config = "./downloads"
  /\ Timeout config = 30000 /\ RetryCount config = 3.
Proof.
  unfold accountConfig.
  destruct (Split account ":") as [|userID [|password rest]]; try discriminate.
  intros [= <-]. cbn. split; [|repeat split].
  apply GetHeadlessMode_false_iff.
Qed.

Lemma browser_shown_iff_holds :
  accountConfig (envOf [("ETC_HEADLESS", "False")]) "u1:p1" "./downloads/s"
  = inr (mkScraperConfig "u1" "p1" "./downloads" "./downloads/s" false 30000 3)
  /\ (false = false
      <-> In "False" ["0"; "f"; "F"; "FALSE"; "false"; "False"]).
Proof.
  split; [reflexivity|].
  exact (proj1 (browser_shown_iff (envOf [("ETC_HEADLESS", "False")]) "u1:p1"
                  "./downloads/s" _ eq_refl)).
Defined.
